(* ===== verification/_CoqProject ===== *)
-Q . S2P
Prelude.v
CLib.v
LinkedList.v
MarkovChain.v
Teardown.v
RandomWalk.v
SnakesAndLadders.v
TweetsGenerator.v
EntryPoints.v
