(* ===== verification/Prelude.v ===== *)
(** * A verification development of the Markov-chain engine of Markov-chain-tweets

    The program (C, three files under src/) is a generic Markov-chain engine
    with two front ends:

    - [src/markov_chain.c] is the engine.  A [MarkovChain] holds a
      [LinkedList] database of [Node]s.  Each node owns a [MarkovNode]: a
      payload [data] and a [frequency_list] of [fre_list_size] pointers to
      [MarkovNodeFrequency] records (target [markov_node], [frequency]).
      The payload is opaque ([void * ]).  Five function pointers given by
      the front end give it meaning: [comp_func], [copy_func], [is_last],
      [print_func] and [free_data].
      - [get_node_from_database] scans the list with [comp_func].
      - [add_to_database] inserts a payload if it is absent: it copies the
        payload and appends a node.
      - [add_node_to_frequency_list] increments or appends a transition.
      - [free_markov_chain] tears everything down.
      - [get_first_random_node] picks a non-terminal start uniformly, with
        rejection.
      - [get_next_random_node] samples a transition weighted by frequency.
      - [generate_random_sequence] walks and prints.
    - [src/snakes_and_ladders.c] builds a 100-cell board whose transitions are
      dice rolls and the 20 snakes and ladders, and prints random games.
    - [src/tweets_generator.c] tokenises a text file with [fgets]/[strtok],
      links consecutive words and prints random "tweets".

    The header [markov_chain.h] and the linked list [linked_list.c] are not
    part of the sources.  The list's [add] is modelled from the spec and
    marked spec-modelled in the manifest.

    ** Files of the development (in dependency order)

    - [Prelude] (this file): the state-and-crash monad [ST] with its notation
      in [c_scope], the C [int] model ([INT_MIN], [INT_MAX], checked
      [c_int_add], [c_rem]), the hint database [markov] and the shared
      lemmas on [ST], lists and [Z].
    - [CLib]: the C library calls of the two [main]s, modelled from the C
      standard and glibc (the library is not part of the sources):
      - [strtol] and [sscanf_d] (the [%d] conversion), both built on
        [scan_decimal];
      - the conversions [to_int] (modulo [2^32]) and [to_uint];
      - [read_var], the read of a variable [sscanf] may have left
        unassigned.
    - [LinkedList]: the [LinkedList] record (nodes in order plus the [size]
      counter) and [add].  The malloc outcome of [add] is an explicit
      argument.
    - [MarkovChain]: three parts.
      - The front-end interface is the class [MarkovChainFuncs], the
        function pointers of [MarkovChain].  The caller contract of spec
        section 6 is the class [MarkovChainLaws]: [comp_func] = 0 is an
        equivalence and a copy compares equal to its source.
      - The machine state [World] holds four things: the database, the
        remaining [rand()] results, the remaining [malloc] outcomes and the
        output so far.
      - The store and transition-table operations are modelled from
        [markov_chain.c] lines 14-126, with the well-formedness invariant
        [db_wf] and its preservation.
    - [Teardown]: [free_markov_chain] (lines 103-126) as the trace of the
      blocks it passes to [free], in order ([free_nodes],
      [free_entries]).  Reading [frequency_list[i]] past the table is a
      crash.  [free_chain] is [main]'s call of it.
    - [RandomWalk]: [get_random_number], [get_first_random_node],
      [get_next_random_node] and [generate_random_sequence] (lines 9-207).
    - [SnakesAndLadders]: [src/snakes_and_ladders.c].
      - The data and callbacks: [Cell], [transitions], [cell_comp],
        [cell_copy], [check_is_last], [cell_print] and the instance
        [snakes_funcs].
      - The construction: [create_board] ([alloc_cells],
        [apply_transitions]) and [fill_database_snakes] ([add_cells],
        [link_cells], [dice_links]).
      - The driver: [create_chain], [handle_error_snakes], [main]'s walk
        loop [random_walks] and [snakes_main] (its teardown included).
      - The database the code builds is computed once ([built_db]) and
        compared with an abstract board ([board_cell], [board_targets]).
    - [TweetsGenerator]: [src/tweets_generator.c].
      - Words are [string]s ending at their first NUL ([c_str]).  The
        callbacks are [word_comp] ([strcmp]), [word_copy], [word_is_last]
        and [word_print], given by the instance [tweets_funcs].
      - The file's contents are read by [read_lines] ([fgets_line] chunks
        of [MAX_LINE - 1] characters) and split by [strtok_all]
        ([tokens_acc]).
      - [fill_database] ([fill_lines], [fill_tokens]) builds the chain;
        [create_chain_tweets], [tweet_loop] and [tweets_main] are [main].
      - [tweets_main] frees the chain on both of its exits.
      - The abstract word chain is the chunks' words [words_read] with
        their bigram counts [bigram_count].  The invariant [chain_inv]
        links it to the database, and [freq_to] reads a frequency.

    - [EntryPoints]: the two [main]s whole, [snakes_program] and
      [tweets_program].  They check [argc], parse the arguments with
      [CLib], seed [rand()] ([c_srand]) and open the file, then run
      [snakes_main] or [tweets_main].  Two parts of the environment are
      section variables:
      - [srand_stream], the [rand()] results after [srand(seed)];
      - [fopen_read], the contents of a file, or [None] when [fopen] fails.

    ** What the theorems show

    Each claim of the development is a [Theorem] with a doc comment
    naming it (C1, C2, ...).  Its proof rests on helper lemmas that other
    proofs share.  Fixed-input [Example]s without a claim number are
    regression runs: they back the findings of the manifest.
    - The store (MarkovChain).  [get_node_from_database] finds the first
      equal payload.  [add_to_database] appends exactly when the payload
      is absent, and on an allocation failure it leaves the store alone.
      It preserves [db_wf], and a sequence of inserts refines the abstract
      insert-if-absent store [store_insert_all].
    - The transition tables (MarkovChain).  [add_node_to_frequency_list]
      refines the append-or-increment [record_transition] and preserves
      [db_wf].  A failed [realloc] leaves the counter one past the table.
    - The teardown (Teardown).  On a well-formed chain
      [free_markov_chain] frees each block the chain owns exactly once.
      After a failed [realloc] it frees an entry that was never stored.
    - The walk (RandomWalk).  The subtraction scan equals the
      cumulative-sum reference [select_cumulative]; each entry is selected
      by exactly [frequency] of the possible draws; the [int] total can
      overflow.  [get_first_random_node] returns a non-terminal state and
      returns when the stream allows it; it never returns when every state
      is terminal.  A walk ends with the delimiter or a terminal state,
      crashes on an empty table and completes on a walkable database.
    - The board (SnakesAndLadders).  [fill_database_snakes] builds the
      abstract board; a walk from cell 1 completes; a failed cell
      allocation prints the message twice.
    - The words (TweetsGenerator).  [fill_database] refines the abstract
      word chain: distinct words, and frequencies equal to bigram counts.
      Every stored word is a [strtok] token of at most [MAX_LINE - 1]
      characters.  [strtok] splits exactly at space, newline, tab and
      carriage return.  The [fgets] loop reads the whole file in chunks
      that fit its buffer.  Tweets on the spec's word-chain text end with
      a word ending in '.'.
    - The entry points (EntryPoints, on the models of [CLib]).  Given
      numeric arguments, each [main] runs its modelled body with them.
      With every allocation succeeding and [59] non-negative draws per
      walk, the whole snakes program returns [EXIT_SUCCESS]: it builds the
      board, runs the walks and frees the chain.  The error paths are
      these:
      - a wrong [argc] prints the usage message;
      - a missing file crashes in [fclose(NULL)];
      - a non-numeric count or seed is read uninitialised;
      - a non-numeric word limit is ignored.

    ** How the C code is modelled

    - Pointers to [MarkovNode]s (and to the [Node]s that own them) are
      indices into the database.  Nodes are only ever appended and are
      never removed before teardown, so an index is a stable identity.
      Following a pointer is a list lookup: a missing entry is a crash
      ([NullDeref] or [OutOfBounds]), never a default value.
    - Undefined behaviour the code can reach is the [Crash] outcome of
      [ST].  This covers a NULL dereference, a read past an array, [x % 0],
      signed overflow of the [int] accumulator, and running out of the
      modelled [rand()] stream.
    - [rand()] is a finite stream of values in [[0, RAND_MAX]], part of the
      state.  This makes the walk deterministic given the stream, as the
      spec's design notes ask.  [malloc] consumes a boolean outcome from a
      list; the empty list means every allocation succeeds.
      [printf]/[print_func] append events to the output.
    - The retry loop of [get_first_random_node] runs on fuel.  The fuel is
      the length of the [rand()] stream plus one, and every iteration
      consumes a [rand()] value.  So the fuel never runs out before the
      stream does: a loop that would spin forever ends with
      [RandExhausted], and the liveness theorem states that a stream
      reaching a non-terminal index gives a result.
    - The [for] loops with a fixed bound ([walk_loop] and the loops of
      [create_board], [fill_database_snakes] and [main]) are [Fixpoint]s
      on the exact iteration count, so no fuel is involved.
    - Frequencies are unbounded integers.  The header declaring their C
      type is not available.  The [int total] accumulator of
      [get_next_random_node] is checked against [INT_MAX].

    ** What is not modelled

    - Memory release other than [free_markov_chain]: the [free] of the
      cells at the end of [fill_database_snakes] and in [create_board]'s
      error path.  [free_func] is installed as [free_data] but never
      called.  Leaks are not tracked.
    - The allocations inside the front ends' [copy_func]: they are pure
      copies here.
    - glibc's [rand()] generator: the results after [srand(seed)] are the
      section variable [srand_stream].  The file system is [fopen_read];
      [fclose] and [errno] are not modelled.
    - [words_count] of [fill_database] is an unbounded integer; it
      overflows only after [INT_MAX] words.
    - Reading an uninitialised [int] gives an indeterminate value in C.
      Here it is the crash [Uninitialized], since nothing the program
      does afterwards is determined.
*)

From stdpp Require Export base list.
From Stdlib Require Export ZArith Lia.

Declare Scope c_scope.
Delimit Scope c_scope with C.
Open Scope Z_scope.

(** ** Outcomes of C code: a value, or a crash (undefined behaviour) *)

Inductive crash : Type :=
| NullDeref        (** a NULL (or dangling) pointer was dereferenced *)
| OutOfBounds      (** an array was read past its allocated end *)
| DivByZero        (** [x % 0] *)
| IntOverflow      (** signed [int] overflow *)
| RandExhausted    (** the modelled [rand()] stream ran out *)
| Uninitialized.   (** a variable that was never assigned was read *)

#[global] Instance crash_eq_dec : EqDecision crash.
Proof. solve_decision. Defined.

Inductive outcome (A : Type) : Type :=
| Ok (a : A)
| Crash (c : crash).
Arguments Ok {A} a.
Arguments Crash {A} c.

#[global] Instance outcome_eq_dec {A} `{EqDecision A} : EqDecision (outcome A).
Proof. solve_decision. Defined.

(** ** The state-and-crash monad *)

Definition ST (S A : Type) : Type := S -> outcome (A * S).

Definition ret {S A} (a : A) : ST S A := fun s => Ok (a, s).

Definition bind {S A B} (m : ST S A) (f : A -> ST S B) : ST S B :=
  fun s => match m s with
           | Ok (a, s') => f a s'
           | Crash c => Crash c
           end.

Definition fail {S A} (c : crash) : ST S A := fun _ => Crash c.

Definition get {S} : ST S S := fun s => Ok (s, s).

Definition put {S} (s : S) : ST S unit := fun _ => Ok (tt, s).

Definition modify {S} (f : S -> S) : ST S unit := fun s => Ok (tt, f s).

(** Dereference a pointer that may be NULL. *)
Definition deref {S A} (c : crash) (o : option A) : ST S A :=
  match o with Some a => ret a | None => fail c end.

(** Run a computation that reads the state but does not change it. *)
Definition lift {S A} (o : outcome A) : ST S A :=
  match o with Ok a => ret a | Crash c => fail c end.

Notation "x <- m ;; k" := (bind m (fun x => k))
  (at level 100, m at next level, right associativity) : c_scope.
Notation "m ;; k" := (bind m (fun _ => k))
  (at level 100, right associativity) : c_scope.
Open Scope c_scope.

(** ** C [int] and the constants of [<stdlib.h>] *)

Definition INT_MIN : Z := -2147483648.
Definition INT_MAX : Z := 2147483647.
(** glibc's [RAND_MAX]. *)
Definition RAND_MAX : Z := 2147483647.
Definition EXIT_SUCCESS : Z := 0.
Definition EXIT_FAILURE : Z := 1.

Definition in_int (z : Z) : bool := (INT_MIN <=? z) && (z <=? INT_MAX).

(** [a + b] on [int]: overflow is undefined behaviour. *)
Definition c_int_add {S} (a b : Z) : ST S Z :=
  if in_int (a + b) then ret (a + b) else fail IntOverflow.

(** [a % b] on [int]: C99 truncates toward zero ([Z.rem]); [b = 0] is
    undefined. *)
Definition c_rem {S} (a b : Z) : ST S Z :=
  if Z.eqb b 0 then fail DivByZero else ret (Z.rem a b).

(** ** Lemmas on the monad *)

Create HintDb markov discriminated.
Create Rewrite HintDb markov_rw.

Section monad_lemmas.
Context {S : Type}.

Lemma bind_ret_l {A B} (a : A) (f : A -> ST S B) s :
  bind (ret a) f s = f a s.
Proof. reflexivity. Qed.

Lemma bind_Ok {A B} (m : ST S A) (f : A -> ST S B) s a s' :
  m s = Ok (a, s') -> bind m f s = f a s'.
Proof. intros H. unfold bind. by rewrite H. Qed.

Lemma bind_Crash {A B} (m : ST S A) (f : A -> ST S B) s c :
  m s = Crash c -> bind m f s = Crash c.
Proof. intros H. unfold bind. by rewrite H. Qed.

(** Inversion of a successful bind. *)
Lemma bind_Ok_inv {A B} (m : ST S A) (f : A -> ST S B) s r :
  bind m f s = Ok r -> exists a s', m s = Ok (a, s') /\ f a s' = Ok r.
Proof.
  unfold bind. destruct (m s) as [[a s']|c]; [eauto | discriminate].
Qed.

Lemma c_int_add_ok (a b : Z) s :
  INT_MIN <= a + b <= INT_MAX -> @c_int_add S a b s = Ok (a + b, s).
Proof.
  intros H. unfold c_int_add, in_int.
  by replace (_ && _) with true by (symmetry; apply andb_true_iff; lia).
Qed.

Lemma c_int_add_overflow (a b : Z) s :
  INT_MAX < a + b -> @c_int_add S a b s = Crash IntOverflow.
Proof.
  intros H. unfold c_int_add, in_int.
  by replace (_ && _) with false
    by (symmetry; apply andb_false_iff; right; apply Z.leb_gt; lia).
Qed.

Lemma c_rem_ok (a b : Z) s :
  b <> 0 -> @c_rem S a b s = Ok (Z.rem a b, s).
Proof. intros H. unfold c_rem. by rewrite (proj2 (Z.eqb_neq b 0) H). Qed.
End monad_lemmas.

#[export] Hint Rewrite @bind_ret_l : markov_rw.

(** [rand() % n] with [rand() >= 0] and [n > 0] lies in [[0, n)]. *)
Lemma rem_range (a b : Z) : 0 <= a -> 0 < b -> 0 <= Z.rem a b < b.
Proof.
  intros Ha Hb. rewrite Z.rem_mod_nonneg by lia.
  apply Z.mod_pos_bound. lia.
Qed.

(** A list of allocation outcomes either all succeed or one fails. *)
Lemma bools_all_true_or_false (l : list bool) : Forall (eq true) l \/ false ∈ l.
Proof.
  induction l as [|[] l [IH|IH]]; [left; constructor|left; by constructor|..];
    right; rewrite elem_of_cons; auto.
Qed.

(** ** Lists of integers *)

Definition sum_Z (l : list Z) : Z := fold_right Z.add 0 l.

Lemma sum_Z_cons (x : Z) (l : list Z) : sum_Z (x :: l) = x + sum_Z l.
Proof. reflexivity. Qed.

Lemma sum_Z_app (l1 l2 : list Z) : sum_Z (l1 ++ l2) = sum_Z l1 + sum_Z l2.
Proof. induction l1; simpl; lia. Qed.

Lemma sum_Z_nonneg (l : list Z) : Forall (fun z => 0 <= z) l -> 0 <= sum_Z l.
Proof. induction 1; simpl; lia. Qed.

#[export] Hint Rewrite sum_Z_app : markov_rw.

(** ** Counting the integers of an interval *)

Lemma filter_ext_in {A} (P1 P2 : A -> Prop) `{!forall x, Decision (P1 x)}
    `{!forall x, Decision (P2 x)} (l : list A) :
  (forall x, x ∈ l -> P1 x <-> P2 x) -> filter P1 l = filter P2 l.
Proof.
  induction l as [|a l IH]; intros Hiff; [done|].
  rewrite !filter_cons. setoid_rewrite elem_of_cons in Hiff.
  rewrite IH by auto. specialize (Hiff a (or_introl eq_refl)).
  destruct (decide (P1 a)), (decide (P2 a)); done || tauto.
Qed.

Lemma filter_none_nil {A} (P : A -> Prop) `{!forall x, Decision (P x)} (l : list A) :
  (forall x, x ∈ l -> ~ P x) -> filter P l = [].
Proof.
  induction l as [|a l IH]; intros Hl; [done|].
  rewrite filter_cons, decide_False by (apply Hl, elem_of_cons; auto).
  apply IH. intros x Hx. apply Hl, elem_of_cons. auto.
Qed.

Lemma filter_False_nil {A} (l : list A) : filter (λ _, False) l = [].
Proof. induction l as [|a l IH]; [done|]. rewrite filter_cons, decide_False; tauto. Qed.

(** Among [0 .. m-1], exactly [b - a] lie in [[a, b)] when
    [0 <= a <= b <= m]. *)
Lemma count_interval (m : nat) (a b : Z) :
  0 <= a <= b -> b <= Z.of_nat m ->
  length (filter (λ r, a <= r < b) (seqZ 0 (Z.of_nat m))) = Z.to_nat (b - a).
Proof.
  intros Hab. revert b Hab. induction m as [|m IH]; intros b Hab Hb.
  - rewrite seqZ_nil by lia. simpl. lia.
  - rewrite seqZ_S, filter_app, length_app, filter_cons, filter_nil.
    destruct (Z.le_gt_cases a (Z.of_nat m)) as [Ham|Ham].
    + rewrite (filter_ext_in _ (λ r, a <= r < Z.min b (Z.of_nat m)))
        by (intros r Hr%elem_of_seqZ; lia).
      rewrite IH by lia. case_decide; simpl; lia.
    + rewrite (filter_ext_in _ (λ _, False)) by (intros r Hr%elem_of_seqZ; lia).
      rewrite filter_False_nil. case_decide; simpl; lia.
Qed.

(** Unfold one layer of the monad in a goal. *)
Ltac st_unfold :=
  unfold bind, ret, fail, get, put, modify, deref, lift in *.

(** Split the [match] that a bind leaves on an intermediate result. *)
Ltac st_split :=
  repeat match goal with
  | |- context [match ?m with Ok _ => _ | Crash _ => _ end] =>
      let E := fresh "E" in destruct m as [[? ?]|?] eqn:E
  end.

(** Membership in the concatenation of the images of a list. *)
Lemma elem_of_concat_map {A B} (f : A -> list B) (l : list A) x :
  x ∈ concat (map f l) -> exists a, a ∈ l /\ x ∈ f a.
Proof.
  induction l as [|a l IH]; simpl; [by intros ?%elem_of_nil|].
  rewrite elem_of_app. intros [Hx|Hx]; [exists a; rewrite elem_of_cons; auto|].
  destruct (IH Hx) as (b & ? & ?). exists b. rewrite elem_of_cons. auto.
Qed.
