(* ===== verification/CLib.v ===== *)
(** * The C library calls of the two [main]s

    [main] of [snakes_and_ladders.c] reads its seed with
    [strtol(argv[1], NULL, BASE)] and its walk count with
    [sscanf(argv[2], "%d", &walks_num)]; [main] of [tweets_generator.c]
    reads all its numbers with [sscanf(.., "%d", ..)].  The results are
    stored in [int] variables and the seed is passed to
    [srand(unsigned int)].

    The C library is not part of the sources, so these calls are modelled
    from the C standard and from glibc on LP64:
    - [scan_decimal]: the subject sequence both calls accept, that is white
      space ([c_isspace]), an optional sign and a nonempty run of digits,
      with its value as an unbounded integer;
    - [strtol]: 0 when there are no digits, [LONG_MIN]/[LONG_MAX] when the
      value is out of range ([clamp_long]);
    - [sscanf_d]: [None] when the conversion fails, and then the variable
      keeps its old value.  Otherwise glibc converts with [strtol] and
      narrows the [long] to [int];
    - [to_int] and [to_uint]: the conversions to [int] (gcc: modulo
      [2^32]) and to [unsigned int].

    The theorems: the conversions stay in range and are the identity on it,
    and the numbers [printf("%d")] prints ([pretty]) parse back to
    themselves. *)

From Stdlib Require Import String Ascii.
From stdpp Require Import pretty.
From S2P Require Import Prelude.

Definition LONG_MIN : Z := -9223372036854775808.
Definition LONG_MAX : Z := 9223372036854775807.
Definition UINT_MAX : Z := 4294967295.

(** [isspace] in the "C" locale: space, [\t], [\n], [\v], [\f], [\r]. *)
Definition c_isspace (c : ascii) : bool :=
  let n := nat_of_ascii c in (n =? 32)%nat || ((9 <=? n)%nat && (n <=? 13)%nat).

(** [isdigit], with the digit's value. *)
Definition digit_val (c : ascii) : option Z :=
  let n := Z.of_nat (nat_of_ascii c) in
  if (48 <=? n) && (n <=? 57) then Some (n - 48) else None.

Fixpoint skip_spaces (s : string) : string :=
  match s with
  | String c s' => if c_isspace c then skip_spaces s' else s
  | EmptyString => EmptyString
  end.

(** The longest run of digits at the start of [s], accumulated into
    [acc]; [None] when no digit has been read. *)
Fixpoint scan_digits (s : string) (acc : option Z) : option Z :=
  match s with
  | String c s' =>
      match digit_val c with
      | Some d => scan_digits s' (Some (default 0 acc * 10 + d))
      | None => acc
      end
  | EmptyString => acc
  end.

(** The base-10 subject sequence of [strtol] and of [%d], with its
    value; the characters after it are ignored. *)
Definition scan_decimal (s : string) : option Z :=
  match skip_spaces s with
  | String "-"%char s' => Z.opp <$> scan_digits s' None
  | String "+"%char s' => scan_digits s' None
  | s' => scan_digits s' None
  end.

Definition clamp_long (z : Z) : Z := Z.max LONG_MIN (Z.min LONG_MAX z).

(** [strtol(s, NULL, 10)] ([errno] is not modelled). *)
Definition strtol (s : string) : Z :=
  match scan_decimal s with Some z => clamp_long z | None => 0 end.

(** Conversion of an integer to [int]: gcc reduces it modulo [2^32]. *)
Definition to_int (z : Z) : Z := (z + 2 ^ 31) mod 2 ^ 32 - 2 ^ 31.

(** Conversion to [unsigned int], as in [srand(seed)]. *)
Definition to_uint (z : Z) : Z := z mod 2 ^ 32.

(** [sscanf(s, "%d", &x)]: [Some v] when one item is converted and [v]
    is stored in [x]; [None] when nothing is converted and [x] is left
    as it was. *)
Definition sscanf_d (s : string) : option Z :=
  (λ z, to_int (clamp_long z)) <$> scan_decimal s.

(** Reading an [int] variable that may never have been assigned. *)
Definition read_var {S} (v : option Z) : ST S Z := deref Uninitialized v.

(** ** The conversions stay in range *)

Lemma to_int_range z : INT_MIN <= to_int z <= INT_MAX.
Proof.
  unfold to_int, INT_MIN, INT_MAX.
  pose proof (Z.mod_pos_bound (z + 2 ^ 31) (2 ^ 32)). lia.
Qed.

Lemma to_int_id z : INT_MIN <= z <= INT_MAX -> to_int z = z.
Proof.
  unfold to_int, INT_MIN, INT_MAX. intros Hz.
  rewrite Z.mod_small; lia.
Qed.

Lemma to_uint_range z : 0 <= to_uint z <= UINT_MAX.
Proof.
  unfold to_uint, UINT_MAX. pose proof (Z.mod_pos_bound z (2 ^ 32)). lia.
Qed.

Lemma clamp_long_range z : LONG_MIN <= clamp_long z <= LONG_MAX.
Proof. unfold clamp_long, LONG_MIN, LONG_MAX. lia. Qed.

Lemma clamp_long_id z : LONG_MIN <= z <= LONG_MAX -> clamp_long z = z.
Proof. unfold clamp_long. lia. Qed.

(** ** What [printf("%d")] prints parses back *)

Lemma N_lt_10_cases (d : N) :
  (d < 10)%N -> d = 0%N \/ d = 1%N \/ d = 2%N \/ d = 3%N \/ d = 4%N \/
    d = 5%N \/ d = 6%N \/ d = 7%N \/ d = 8%N \/ d = 9%N.
Proof. lia. Qed.

Ltac digit_cases d :=
  let H := fresh in
  intros H; apply N_lt_10_cases in H;
  repeat (destruct H as [->|H]; [reflexivity|]); subst d; reflexivity.

Lemma digit_val_pretty_char (d : N) :
  (d < 10)%N -> digit_val (pretty_N_char d) = Some (Z.of_N d).
Proof. digit_cases d. Qed.

(** A digit is neither white space nor a sign. *)
Lemma scan_decimal_digit (d : N) s :
  (d < 10)%N -> scan_decimal (String (pretty_N_char d) s) =
    scan_digits (String (pretty_N_char d) s) None.
Proof. digit_cases d. Qed.

Lemma scan_digits_digit c s acc d :
  digit_val c = Some d -> scan_digits (String c s) acc = scan_digits s (Some (default 0 acc * 10 + d)).
Proof. intros H. cbn [scan_digits]. by rewrite H. Qed.

(** The digits [pretty_N_go x] puts in front of [s] are read as [x]. *)
Lemma scan_digits_pretty_N_go (x : N) s :
  (0 < x)%N -> scan_digits (pretty_N_go x s) None = scan_digits s (Some (Z.of_N x)).
Proof.
  revert s. induction (N.lt_wf_0 x) as [x _ IH]; intros s Hx.
  rewrite pretty_N_go_step by done.
  assert (Hd : (x `mod` 10 < 10)%N) by (apply N.mod_lt; lia).
  pose proof (N.div_mod x 10).
  destruct (decide (x `div` 10 = 0)%N) as [H0|H0].
  - rewrite H0, pretty_N_go_0, (scan_digits_digit _ _ _ _ (digit_val_pretty_char _ Hd)).
    simpl. do 2 f_equal. lia.
  - rewrite IH, (scan_digits_digit _ _ _ _ (digit_val_pretty_char _ Hd));
      [|apply N.div_lt; lia|by apply N.neq_0_lt_0].
    simpl. do 2 f_equal. lia.
Qed.

(** The first character [pretty_N_go x] prints is a digit. *)
Lemma pretty_N_go_head (x : N) s :
  (0 < x)%N -> exists d s', (d < 10)%N /\ pretty_N_go x s = String (pretty_N_char d) s'.
Proof.
  revert s. induction (N.lt_wf_0 x) as [x _ IH]; intros s Hx.
  rewrite pretty_N_go_step by done.
  destruct (decide (x `div` 10 = 0)%N) as [H0|H0].
  - rewrite H0, pretty_N_go_0. eexists _, _. split; [|done]. apply N.mod_lt. lia.
  - apply IH; [apply N.div_lt; lia|by apply N.neq_0_lt_0].
Qed.

Lemma scan_decimal_pretty_pos (p : positive) :
  scan_decimal (pretty (N.pos p)) = Some (Z.pos p).
Proof.
  unfold pretty, pretty_N. rewrite decide_False by done.
  destruct (pretty_N_go_head (N.pos p) "" eq_refl) as (d & s' & Hd & Hs).
  rewrite Hs, scan_decimal_digit, <- Hs by done.
  by rewrite scan_digits_pretty_N_go.
Qed.

(** Every integer [printf("%d")] can print is read back by
    [scan_decimal]. *)
Lemma scan_decimal_pretty (z : Z) : scan_decimal (pretty z) = Some z.
Proof.
  destruct z as [|p|p]; [done|apply scan_decimal_pretty_pos|].
  unfold pretty at 1, pretty_Z. unfold scan_decimal. simpl.
  unfold pretty, pretty_positive, pretty, pretty_N. rewrite decide_False by done.
  change (("" +:+ ?t)%string) with t. by rewrite scan_digits_pretty_N_go.
Qed.

Lemma strtol_pretty (z : Z) : LONG_MIN <= z <= LONG_MAX -> strtol (pretty z) = z.
Proof. intros Hz. unfold strtol. by rewrite scan_decimal_pretty, clamp_long_id. Qed.

(** Out of the [int] range, [%d] stores the value reduced modulo [2^32]. *)
Lemma sscanf_d_pretty (z : Z) :
  LONG_MIN <= z <= LONG_MAX -> sscanf_d (pretty z) = Some (to_int z).
Proof. intros Hz. unfold sscanf_d. rewrite scan_decimal_pretty. simpl. by rewrite clamp_long_id. Qed.

Lemma sscanf_d_range s v : sscanf_d s = Some v -> INT_MIN <= v <= INT_MAX.
Proof.
  unfold sscanf_d. destruct (scan_decimal s); simpl; intros [= <-]. apply to_int_range.
Qed.

Lemma sscanf_strtol_pretty_int (z : Z) :
  INT_MIN <= z <= INT_MAX -> strtol (pretty z) = z /\ sscanf_d (pretty z) = Some z.
Proof.
  unfold INT_MIN, INT_MAX. intros Hz.
  rewrite strtol_pretty, sscanf_d_pretty, to_int_id;
    unfold INT_MIN, INT_MAX, LONG_MIN, LONG_MAX in *; split_and!; done || lia.
Qed.

(** Bounds: [%d] stores an [int] whatever the text.  A number
    past [INT_MAX] but within [unsigned int] is stored wrapped, minus
    [2^32].  A number past [LONG_MAX] is clamped by [strtol] and then
    narrowed, and is stored as [-1].  A number below [LONG_MIN] is
    stored as [0]. *)
Lemma sscanf_d_bounds (z : Z) :
  (INT_MAX < z <= UINT_MAX -> sscanf_d (pretty z) = Some (z - 2 ^ 32)) /\
  (LONG_MAX < z -> sscanf_d (pretty z) = Some (-1)) /\
  (z < LONG_MIN -> sscanf_d (pretty z) = Some 0).
Proof.
  unfold sscanf_d. rewrite scan_decimal_pretty. simpl.
  unfold to_int, clamp_long, INT_MAX, UINT_MAX, LONG_MIN, LONG_MAX.
  split_and!; intros Hz; f_equal.
  - rewrite Z.min_r, Z.max_r by lia.
    rewrite <- (Z.mod_unique (z + 2 ^ 31) (2 ^ 32) 1 (z + 2 ^ 31 - 2 ^ 32)); lia.
  - rewrite Z.min_l, Z.max_r by lia. reflexivity.
  - rewrite Z.min_r, Z.max_l by lia. reflexivity.
Qed.
