(* ===== verification/LinkedList.v ===== *)
(** * The database list of the engine ([linked_list.c], not among the sources)

    [markov_chain.c] stores its states in a [LinkedList] ([first], [last],
    [size]) of [Node]s ([data], [next]) and grows it with
    [int add(LinkedList *, void * )].  That file is not in the repository.
    It is modelled from the spec: "an ordered collection, insertion order
    preserved, with a size counter".  [add] allocates one [Node]: on
    failure it returns [EXIT_FAILURE] and leaves the list alone; on success
    it links the node after [last] and increments [size].

    The chain of [Node]s is the list [ll_nodes] in order from [first].  The
    [size] counter is kept apart ([ll_size]), because the engine reads the
    counter and not the length: [get_first_random_node] draws an index
    below [size] and then follows [next] pointers. *)

From S2P Require Import Prelude.

Record LinkedList (A : Type) : Type := mkLinkedList {
  ll_nodes : list A;
  ll_size : Z
}.
Arguments mkLinkedList {A} ll_nodes ll_size.
Arguments ll_nodes {A} l.
Arguments ll_size {A} l.

Section linked_list.
Context {A : Type}.

(** [chain->database->first = NULL; last = NULL; size = 0;] in
    [create_chain]. *)
Definition empty_list : LinkedList A := mkLinkedList [] 0.

(** [int add(LinkedList *link_list, void *data)].  [malloc_ok] is the
    outcome of its single [malloc(sizeof(Node))]. *)
Definition add (malloc_ok : bool) (l : LinkedList A) (x : A) : Z * LinkedList A :=
  if malloc_ok
  then (EXIT_SUCCESS, mkLinkedList (ll_nodes l ++ [x]) (ll_size l + 1))
  else (EXIT_FAILURE, l).

(** [link_list->last], as an index into [ll_nodes]; [None] is [NULL]. *)
Definition ll_last (l : LinkedList A) : option nat :=
  match ll_nodes l with
  | [] => None
  | _ => Some (pred (length (ll_nodes l)))
  end.

(** The size counter agrees with the chain of [next] pointers. *)
Definition ll_wf (l : LinkedList A) : Prop :=
  ll_size l = Z.of_nat (length (ll_nodes l)).

Lemma add_wf ok l x : ll_wf l -> ll_wf (add ok l x).2.
Proof.
  unfold ll_wf, add. destruct ok; simpl; [|done].
  rewrite length_app. simpl. lia.
Qed.

Lemma add_last l x :
  ll_last (add true l x).2 = Some (length (ll_nodes l)).
Proof.
  unfold ll_last, add. simpl.
  destruct (ll_nodes l ++ [x]) eqn:E.
  - by destruct (ll_nodes l).
  - f_equal. rewrite <- E, length_app. simpl. lia.
Qed.

Lemma ll_last_snoc (l : list A) x s :
  ll_last (mkLinkedList (l ++ [x]) s) = Some (length l).
Proof. exact (add_last (mkLinkedList l s) x). Qed.

Lemma add_nodes ok l x :
  ll_nodes (add ok l x).2 = if ok then ll_nodes l ++ [x] else ll_nodes l.
Proof. by destruct ok. Qed.

Lemma empty_list_wf : ll_wf empty_list.
Proof. done. Qed.
End linked_list.

#[export] Hint Resolve add_wf empty_list_wf : markov.
