(* ===== verification/MarkovChain.v ===== *)
(** * The state store and the transition tables ([src/markov_chain.c], 14-126)

    This file holds four things:
    - the data of the engine ([MarkovNodeFrequency], [MarkovNode]);
    - the front-end interface (the function pointers of [MarkovChain], as
      the class [MarkovChainFuncs]) with its caller contract
      ([MarkovChainLaws]);
    - the machine state [World] with the C runtime operations the engine
      calls ([rand], [malloc], [printf]);
    - the build-phase operations [get_node_from_database],
      [add_to_database] and [add_node_to_frequency_list].
    It then states the well-formedness invariant [db_wf] of the database
    and proves the operations' behaviour and the invariant's preservation. *)

From stdpp Require Import strings.
From S2P Require Import Prelude LinkedList.

(** ** Data *)

(** [MarkovNodeFrequency]: [markov_node] points to a [MarkovNode] of the
    database; it is the node's index. *)
Record MarkovNodeFrequency : Type := mkFreq {
  markov_node : nat;
  frequency : Z
}.

(** [MarkovNode]: the owned payload, the array [frequency_list] of
    pointers to [MarkovNodeFrequency] (its initialised entries, in order)
    and the counter [fre_list_size]. *)
Record MarkovNode (D : Type) : Type := mkNode {
  data : D;
  frequency_list : list MarkovNodeFrequency;
  fre_list_size : Z
}.
Arguments mkNode {D} data frequency_list fre_list_size.
Arguments data {D} m.
Arguments frequency_list {D} m.
Arguments fre_list_size {D} m.

(** ** The front end's behaviours: the function pointers of [MarkovChain] *)

(** [comp_func] returns [0] ([EXIT_SUCCESS]) on equal payloads.
    [print_func] is given by the text it prints.  [free_data] is never
    called by the engine and is not part of the interface. *)
Class MarkovChainFuncs (D : Type) : Type := {
  comp_func : D -> D -> Z;
  copy_func : D -> D;
  is_last : D -> bool;
  print_func : D -> string
}.

(** The caller contract of spec section 6: equality is an equivalence and
    a copy is equal to its source. *)
Class MarkovChainLaws (D : Type) `{MarkovChainFuncs D} : Prop := {
  comp_refl : forall a, comp_func a a = 0;
  comp_sym : forall a b, comp_func a b = 0 -> comp_func b a = 0;
  comp_trans : forall a b c,
    comp_func a b = 0 -> comp_func b c = 0 -> comp_func a c = 0;
  copy_comp : forall a, comp_func (copy_func a) a = 0
}.

(** ** The machine state *)

(** What the program writes to [stdout]: a payload through [print_func],
    a literal string, or [ALLOCATION_ERROR_MASSAGE] (whose text is in the
    missing header). *)
Inductive out_event (D : Type) : Type :=
| OData (d : D)
| OText (s : string)
| OAllocMsg.
Arguments OData {D} d.
Arguments OText {D} s.
Arguments OAllocMsg {D}.

Record World (D : Type) : Type := mkWorld {
  w_db : LinkedList (MarkovNode D);
  w_rand : list Z;
  w_heap : list bool;
  w_out : list (out_event D)
}.
Arguments mkWorld {D} w_db w_rand w_heap w_out.
Arguments w_db {D} w.
Arguments w_rand {D} w.
Arguments w_heap {D} w.
Arguments w_out {D} w.

Section runtime.
Context {D : Type}.
Local Abbreviation W := (World D).

Definition set_db (db : LinkedList (MarkovNode D)) : ST W unit :=
  modify (fun w => mkWorld db (w_rand w) (w_heap w) (w_out w)).

Definition get_db : ST W (LinkedList (MarkovNode D)) :=
  fun w => Ok (w_db w, w).

(** [rand()]: the next value of the stream. *)
Definition c_rand : ST W Z :=
  fun w => match w_rand w with
           | [] => Crash RandExhausted
           | r :: rs => Ok (r, mkWorld (w_db w) rs (w_heap w) (w_out w))
           end.

(** [malloc]/[realloc]: [true] when the allocation succeeds. *)
Definition c_malloc : ST W bool :=
  fun w => match w_heap w with
           | [] => Ok (true, w)
           | b :: bs => Ok (b, mkWorld (w_db w) (w_rand w) bs (w_out w))
           end.

Definition emit (e : out_event D) : ST W unit :=
  modify (fun w => mkWorld (w_db w) (w_rand w) (w_heap w) (w_out w ++ [e])).

(** Follow a [MarkovNode *] of the database. *)
Definition node_at (i : nat) : ST W (MarkovNode D) :=
  db <- get_db ;; deref NullDeref (ll_nodes db !! i).

(** Write a [MarkovNode] back through its pointer. *)
Definition store_node (i : nat) (n : MarkovNode D) : ST W unit :=
  db <- get_db ;;
  set_db (mkLinkedList (<[i := n]> (ll_nodes db)) (ll_size db)).
End runtime.

(** ** The store and the transition tables *)

Section operations.
Context {D : Type} `{MarkovChainFuncs D}.
Local Abbreviation W := (World D).

(** [comp_func(a, b) == EXIT_SUCCESS]. *)
Definition same (a b : D) : bool := Z.eqb (comp_func a b) EXIT_SUCCESS.

(** The [while (index_node)] scan of [get_node_from_database]; [i] is the
    index of [index_node]. *)
Fixpoint find_from (ns : list (MarkovNode D)) (x : D) (i : nat) : option nat :=
  match ns with
  | [] => None
  | n :: ns' => if same (data n) x then Some i else find_from ns' x (S i)
  end.

(** [Node *get_node_from_database(MarkovChain *, void *data_ptr)]: the
    early [NULL] return on an empty database is the scan of an empty
    list. *)
Definition get_node_from_database (db : LinkedList (MarkovNode D)) (x : D)
  : option nat :=
  find_from (ll_nodes db) x 0.

(** [Node *add_to_database(MarkovChain *, void *data_ptr)].  Its three
    allocations, in order: the [MarkovNode], its one-slot
    [frequency_list], and the list [Node] inside [add]. *)
Definition add_to_database (x : D) : ST W (option nat) :=
  db <- get_db ;;
  match get_node_from_database db x with
  | Some i => ret (Some i)
  | None =>
      ok_node <- c_malloc ;;
      if negb ok_node then emit OAllocMsg ;; ret None else
      let d := copy_func x in
      ok_list <- c_malloc ;;
      if negb ok_list then emit OAllocMsg ;; ret None else
      ok_add <- c_malloc ;;
      let '(res, db') := add ok_add db (mkNode d [] 0) in
      if Z.eqb res EXIT_FAILURE then emit OAllocMsg ;; ret None else
      set_db db' ;; ret (ll_last db')
  end.

(** The loop [for (i = 0; i < fre_list_size; ++i)] of
    [add_node_to_frequency_list], which reads [frequency_list[i]], follows
    its [markov_node] and compares its data with [second_node->data].  It
    only reads, so it is a pure function with its crashes.  [n] counts
    the iterations left. *)
Fixpoint freq_scan (ns : list (MarkovNode D)) (fl : list MarkovNodeFrequency)
    (second : nat) (i n : nat) : outcome (option nat) :=
  match n with
  | O => Ok None
  | S n' =>
      match fl !! i with
      | None => Crash OutOfBounds
      | Some e =>
          match ns !! markov_node e, ns !! second with
          | Some t, Some s =>
              if same (data t) (data s) then Ok (Some i)
              else freq_scan ns fl second (S i) n'
          | _, _ => Crash NullDeref
          end
      end
  end.

(** [new_freq_list[fre_list_size - 1] = new_markov_freq_node] on the
    reallocated array, whose initialised prefix is [fl]. *)
Definition store_last (fl : list MarkovNodeFrequency) (size : Z)
    (e : MarkovNodeFrequency) : ST W (list MarkovNodeFrequency) :=
  if Nat.eqb (Z.to_nat (size - 1)) (length fl) then ret (fl ++ [e])
  else fail OutOfBounds.

(** [int add_node_to_frequency_list(MarkovNode *first_node,
    MarkovNode *second_node, MarkovChain * )].  Allocations: the new
    [MarkovNodeFrequency], then the [realloc].  [fre_list_size] is
    incremented before the [realloc], as in the code. *)
Definition add_node_to_frequency_list (first second : nat) : ST W Z :=
  db <- get_db ;;
  fn <- node_at first ;;
  found <- lift (freq_scan (ll_nodes db) (frequency_list fn) second 0
                           (Z.to_nat (fre_list_size fn))) ;;
  match found with
  | Some i =>
      e <- deref OutOfBounds (frequency_list fn !! i) ;;
      store_node first
        (mkNode (data fn)
           (<[i := mkFreq (markov_node e) (frequency e + 1)]> (frequency_list fn))
           (fre_list_size fn)) ;;
      ret EXIT_SUCCESS
  | None =>
      ok_freq <- c_malloc ;;
      if negb ok_freq then emit OAllocMsg ;; ret EXIT_FAILURE else
      let size' := fre_list_size fn + 1 in
      store_node first (mkNode (data fn) (frequency_list fn) size') ;;
      ok_realloc <- c_malloc ;;
      if negb ok_realloc then emit OAllocMsg ;; ret EXIT_FAILURE else
      fl' <- store_last (frequency_list fn) size' (mkFreq second 1) ;;
      store_node first (mkNode (data fn) fl' size') ;;
      ret EXIT_SUCCESS
  end.
End operations.

(** ** Abstract specification of the transition table (spec 4.2)

    [record_transition fl t]: increment the entry whose target is [t], or
    append [(t, 1)]. *)
Fixpoint record_transition (fl : list MarkovNodeFrequency) (t : nat)
  : list MarkovNodeFrequency :=
  match fl with
  | [] => [mkFreq t 1]
  | e :: fl' =>
      if Nat.eqb (markov_node e) t then mkFreq t (frequency e + 1) :: fl'
      else e :: record_transition fl' t
  end.

(** ** The well-formedness invariant of the database (spec section 3) *)

Section invariant.
Context {D : Type} `{MarkovChainFuncs D}.

(** An entry points into the store and counts at least one transition. *)
Definition entry_wf (n_nodes : nat) (e : MarkovNodeFrequency) : Prop :=
  (markov_node e < n_nodes)%nat /\ 1 <= frequency e.

(** A node's counter matches its table, entries are valid and no two
    entries share a target. *)
Definition node_wf (n_nodes : nat) (mn : MarkovNode D) : Prop :=
  fre_list_size mn = Z.of_nat (length (frequency_list mn)) /\
  Forall (entry_wf n_nodes) (frequency_list mn) /\
  NoDup (map markov_node (frequency_list mn)).

(** No two states of the store are equal under [comp_func]. *)
Definition data_unique (ns : list (MarkovNode D)) : Prop :=
  forall i j a b, ns !! i = Some a -> ns !! j = Some b ->
    comp_func (data a) (data b) = 0 -> i = j.

Definition db_wf (db : LinkedList (MarkovNode D)) : Prop :=
  ll_wf db /\ data_unique (ll_nodes db) /\
  Forall (node_wf (length (ll_nodes db))) (ll_nodes db).
End invariant.

(** ** Running the monad on a symbolic world *)

Section run_lemmas.
Context {D : Type}.

Definition heap_pop (hs : list bool) : bool * list bool :=
  match hs with [] => (true, []) | b :: bs => (b, bs) end.

Lemma c_rand_run (w : World D) r rs :
  w_rand w = r :: rs -> c_rand w = Ok (r, mkWorld (w_db w) rs (w_heap w) (w_out w)).
Proof. unfold c_rand. by intros ->. Qed.

Lemma node_at_run (w : World D) i n :
  ll_nodes (w_db w) !! i = Some n -> node_at i w = Ok (n, w).
Proof. unfold node_at, bind, get_db, deref. simpl. by intros ->. Qed.

Lemma c_malloc_run (w : World D) :
  c_malloc w = Ok ((heap_pop (w_heap w)).1,
                   mkWorld (w_db w) (w_rand w) (heap_pop (w_heap w)).2 (w_out w)).
Proof. destruct w as [db rs [|b bs] out]; reflexivity. Qed.
End run_lemmas.

Ltac st_run :=
  repeat first
    [ progress (unfold bind, ret, fail, get, put, modify, deref, lift,
                get_db, set_db, emit, node_at, store_node, store_last in *)
    | rewrite c_malloc_run
    | progress simpl in *
    | case_match
    | progress simplify_eq ].

(** ** [get_node_from_database] and [add_to_database] *)

Section store_theorems.
Context {D : Type} `{MarkovChainFuncs D}.

Lemma same_spec a b : same a b = true <-> comp_func a b = 0.
Proof. unfold same, EXIT_SUCCESS. apply Z.eqb_eq. Qed.

Lemma find_from_Some ns x i j :
  find_from ns x i = Some j ->
  exists k n, j = (i + k)%nat /\ ns !! k = Some n /\ same (data n) x = true /\
    forall k' n', (k' < k)%nat -> ns !! k' = Some n' -> same (data n') x = false.
Proof.
  revert i. induction ns as [|m ns IH]; intros i Hf; simpl in Hf; [done|].
  destruct (same (data m) x) eqn:Hs.
  - simplify_eq. exists 0%nat, m. split_and!; [lia|done|done|lia].
  - destruct (IH _ Hf) as (k & n & -> & Hk & Hn & Hbefore).
    exists (S k), n. split_and!; [lia|done|done|].
    intros [|k'] n' Hlt Hk'; simpl in Hk'; simplify_eq; [done|].
    apply (Hbefore k'); [lia|done].
Qed.

Lemma find_from_None ns x i :
  find_from ns x i = None <-> Forall (fun n => same (data n) x = false) ns.
Proof.
  revert i. induction ns as [|m ns IH]; intros i; simpl; [split; auto|].
  rewrite Forall_cons. destruct (same (data m) x); [split; intros; naive_solver|].
  rewrite IH. naive_solver.
Qed.

(** C1. [get_node_from_database] returns the first node whose payload
    compares equal ([comp_func] = 0) to the argument, and [NULL] exactly
    when there is none. *)
Theorem get_node_from_database_spec db x :
  (forall i, get_node_from_database db x = Some i <->
     exists n, ll_nodes db !! i = Some n /\ comp_func (data n) x = 0 /\
       forall j n', (j < i)%nat -> ll_nodes db !! j = Some n' ->
                    comp_func (data n') x <> 0) /\
  (get_node_from_database db x = None <->
     forall n, n ∈ ll_nodes db -> comp_func (data n) x <> 0).
Proof.
  unfold get_node_from_database. split.
  - intros i. split.
    + intros (k & n & -> & Hk & Hs & Hb)%find_from_Some.
      exists n. rewrite <- same_spec. split_and!; [done|done|].
      intros j n' Hj Hj'. rewrite <- same_spec, (Hb j n' Hj Hj'). done.
    + intros (n & Hn & Hc & Hb).
      destruct (find_from (ll_nodes db) x 0) as [k|] eqn:Hf.
      * destruct (find_from_Some _ _ _ _ Hf) as (k' & n' & -> & Hk' & Hs' & Hb').
        simpl. f_equal.
        destruct (Nat.lt_trichotomy k' i) as [Hlt|[Heq|Hgt]]; [|done|].
        -- exfalso. apply (Hb k' n'); [done|done|]. by apply same_spec.
        -- apply same_spec in Hc. by rewrite (Hb' i n Hgt Hn) in Hc.
      * apply find_from_None in Hf. rewrite Forall_lookup in Hf.
        apply Hf in Hn. apply same_spec in Hc. congruence.
  - rewrite find_from_None, Forall_forall. setoid_rewrite <- same_spec.
    split; intros Hf n Hn; specialize (Hf n Hn); destruct (same _ _); done.
Qed.

(** The node appended by [add_to_database] for a payload [x]. *)
Definition new_node (x : D) : MarkovNode D := mkNode (copy_func x) [] 0.

Lemma add_to_database_found w x i :
  get_node_from_database (w_db w) x = Some i ->
  add_to_database x w = Ok (Some i, w).
Proof. intros Hf. unfold add_to_database, bind, get_db. by rewrite Hf. Qed.

Lemma add_to_database_fresh_run w x :
  get_node_from_database (w_db w) x = None ->
  Forall (eq true) (take 3 (w_heap w)) ->
  add_to_database x w =
    Ok (Some (length (ll_nodes (w_db w))),
        mkWorld (mkLinkedList (ll_nodes (w_db w) ++ [new_node x]) (ll_size (w_db w) + 1))
                (w_rand w) (drop 3 (w_heap w)) (w_out w)).
Proof.
  destruct w as [db rs hs out]; simpl. intros Hf Hok.
  unfold add_to_database, bind, get_db; simpl. rewrite Hf.
  destruct hs as [|b1 [|b2 [|b3 hs]]]; repeat (apply Forall_cons in Hok as [<- Hok]);
    simpl; by rewrite ll_last_snoc.
Qed.

(** C2. Insert of an absent payload: when no stored state equals [x] and
    the three allocations succeed, [add_to_database] appends a node
    holding [copy_func x] with an empty table.  It increments [size] and
    returns the new last node. *)
Theorem add_to_database_fresh w x :
  get_node_from_database (w_db w) x = None ->
  Forall (eq true) (take 3 (w_heap w)) ->
  add_to_database x w =
    Ok (Some (length (ll_nodes (w_db w))),
        mkWorld (mkLinkedList (ll_nodes (w_db w) ++ [new_node x]) (ll_size (w_db w) + 1))
                (w_rand w) (drop 3 (w_heap w)) (w_out w)).
Proof. apply add_to_database_fresh_run. Qed.

Lemma add_to_database_alloc_failure_run w x :
  get_node_from_database (w_db w) x = None ->
  false ∈ take 3 (w_heap w) ->
  exists hs', add_to_database x w =
    Ok (None, mkWorld (w_db w) (w_rand w) hs' (w_out w ++ [OAllocMsg])).
Proof.
  destruct w as [db rs hs out]; simpl. intros Hf Hin.
  unfold add_to_database, bind, get_db; simpl. rewrite Hf.
  destruct hs as [|[] [|[] [|[] hs]]]; simpl in Hin;
    rewrite ?elem_of_cons, ?elem_of_nil in Hin; naive_solver.
Qed.

(** C3. Allocation failure: when one of the three allocations of
    [add_to_database] fails, it prints the allocation message and
    returns [NULL].  The database is left exactly as it was: no partial
    insert. *)
Theorem add_to_database_alloc_failure w x :
  get_node_from_database (w_db w) x = None ->
  false ∈ take 3 (w_heap w) ->
  exists hs', add_to_database x w =
    Ok (None, mkWorld (w_db w) (w_rand w) hs' (w_out w ++ [OAllocMsg])).
Proof. apply add_to_database_alloc_failure_run. Qed.
End store_theorems.

(** ** The invariant is preserved by [add_to_database] *)

Section store_wf.
Context {D : Type} `{MarkovChainLaws D}.

Lemma node_wf_mono n m (mn : MarkovNode D) :
  (n <= m)%nat -> node_wf n mn -> node_wf m mn.
Proof.
  intros Hle (Hs & Hf & Hd). split_and!; [done| |done].
  eapply Forall_impl; [done|]. intros e [? ?]. split; [lia|done].
Qed.

(** A payload equal to none of the stored ones can be appended. *)
Lemma data_unique_snoc (ns : list (MarkovNode D)) x :
  data_unique ns -> Forall (fun n => same (data n) x = false) ns ->
  data_unique (ns ++ [new_node x]).
Proof.
  intros Hu Hn i j a b Ha Hb Hc. rewrite Forall_lookup in Hn.
  apply lookup_snoc_Some in Ha as [[Hi Ha]|[-> <-]];
  apply lookup_snoc_Some in Hb as [[Hj Hb]|[-> <-]]; simpl in *.
  - by apply (Hu i j a b).
  - pose proof (Hn _ _ Ha) as Hs. rewrite <- not_true_iff_false, same_spec in Hs.
    destruct Hs. eapply comp_trans; [exact Hc|apply copy_comp].
  - pose proof (Hn _ _ Hb) as Hs. rewrite <- not_true_iff_false, same_spec in Hs.
    destruct Hs. eapply comp_trans; [apply comp_sym, Hc|apply copy_comp].
  - done.
Qed.

Lemma db_wf_snoc (db : LinkedList (MarkovNode D)) x :
  db_wf db -> get_node_from_database db x = None ->
  db_wf (mkLinkedList (ll_nodes db ++ [new_node x]) (ll_size db + 1)).
Proof.
  intros (Hll & Hu & Hn) Hf. unfold get_node_from_database in Hf.
  rewrite find_from_None in Hf. split_and!; simpl.
  - unfold ll_wf in *; simpl. rewrite length_app; simpl. lia.
  - by apply data_unique_snoc.
  - rewrite length_app. apply Forall_app; split.
    + eapply Forall_impl; [exact Hn|]. intros mn. apply node_wf_mono. simpl; lia.
    + repeat constructor.
Qed.

(** [add_to_database] never crashes; it leaves the database as it was,
    or it appends the new node. *)
Lemma add_to_database_cases (w : World D) x :
  exists r w', add_to_database x w = Ok (r, w') /\
    (w_db w' = w_db w \/
     (get_node_from_database (w_db w) x = None /\
      w_db w' = mkLinkedList (ll_nodes (w_db w) ++ [new_node x]) (ll_size (w_db w) + 1) /\
      r = Some (length (ll_nodes (w_db w))))).
Proof.
  destruct (get_node_from_database (w_db w) x) as [i|] eqn:Hf.
  - exists (Some i), w. rewrite (add_to_database_found w x i Hf). auto.
  - destruct (bools_all_true_or_false (take 3 (w_heap w))) as [Hok|Hko].
    + eexists _, _. rewrite add_to_database_fresh_run by done. eauto.
    + destruct (add_to_database_alloc_failure_run w x Hf Hko) as [hs' ->]. eauto.
Qed.

Lemma add_to_database_preserves_wf (w : World D) x r w' :
  db_wf (w_db w) -> add_to_database x w = Ok (r, w') -> db_wf (w_db w').
Proof.
  intros Hwf Hrun.
  destruct (add_to_database_cases w x) as (r' & w'' & Hrun' & [Hdb|(Hf & Hdb & _)]);
    rewrite Hrun' in Hrun; simplify_eq; rewrite Hdb; [done|by apply db_wf_snoc].
Qed.

(** C4. Invariant: [add_to_database] preserves the well-formedness of the
    database on every path, allocation failures included.  The invariant
    says the size counter is right, no two states are equal, and every
    table is consistent. *)
Theorem add_to_database_wf (w : World D) x r w' :
  db_wf (w_db w) -> add_to_database x w = Ok (r, w') -> db_wf (w_db w').
Proof. apply add_to_database_preserves_wf. Qed.
End store_wf.

(** ** [add_node_to_frequency_list] refines [record_transition] *)

Section table_theorems.
Context {D : Type} `{MarkovChainLaws D}.

(** In a store without duplicates, two nodes compare equal exactly when
    they are the same node. *)
Lemma same_index (ns : list (MarkovNode D)) i j a b :
  data_unique ns -> ns !! i = Some a -> ns !! j = Some b ->
  same (data a) (data b) = bool_decide (i = j).
Proof.
  intros Hu Ha Hb. case_bool_decide as Hij.
  - subst. simplify_eq. apply same_spec, comp_refl.
  - apply not_true_iff_false. rewrite same_spec. intros Hc.
    by apply Hij, (Hu i j a b).
Qed.

Lemma freq_scan_find (ns : list (MarkovNode D)) pre fl second :
  data_unique ns -> Forall (entry_wf (length ns)) fl -> (second < length ns)%nat ->
  freq_scan ns (pre ++ fl) second (length pre) (length fl) =
  Ok ((λ k, length pre + k)%nat <$> (fst <$> list_find (λ e, markov_node e = second) fl)).
Proof.
  intros Hu Hfl Hs. revert pre. induction Hfl as [|e fl [He _] Hfl IH]; intros pre; [done|].
  simpl. rewrite list_lookup_middle by done.
  destruct (lookup_lt_is_Some_2 ns (markov_node e) He) as [t Ht].
  destruct (lookup_lt_is_Some_2 ns second Hs) as [s Hs'].
  rewrite Ht, Hs', (same_index ns _ _ t s Hu Ht Hs').
  case_bool_decide; case_decide; try done; [simpl; f_equal; f_equal; lia|].
  replace (pre ++ e :: fl) with ((pre ++ [e]) ++ fl) by by rewrite <- app_assoc.
  replace (S (length pre)) with (length (pre ++ [e])) by (rewrite length_app; simpl; lia).
  rewrite IH. destruct (list_find _ fl) as [[k e']|]; simpl; [|done].
  rewrite length_app. simpl. do 2 f_equal. lia.
Qed.

Lemma record_transition_find fl t :
  record_transition fl t =
  match list_find (λ e, markov_node e = t) fl with
  | Some (k, e) => <[k := mkFreq t (frequency e + 1)]> fl
  | None => fl ++ [mkFreq t 1]
  end.
Proof.
  induction fl as [|e fl IH]; [done|]. simpl.
  destruct (Nat.eqb_spec (markov_node e) t); case_decide; try done.
  rewrite IH. by destruct (list_find _ fl) as [[k e']|].
Qed.

(** The node after linking it to [second]: its table after
    [record_transition], its counter the table's length. *)
Definition link_node (fn : MarkovNode D) (second : nat) : MarkovNode D :=
  mkNode (data fn) (record_transition (frequency_list fn) second)
         (Z.of_nat (length (record_transition (frequency_list fn) second))).

Lemma add_node_to_frequency_list_run (w : World D) first second fn :
  db_wf (w_db w) -> ll_nodes (w_db w) !! first = Some fn ->
  (second < length (ll_nodes (w_db w)))%nat ->
  Forall (eq true) (take 2 (w_heap w)) ->
  exists k, add_node_to_frequency_list first second w =
    Ok (EXIT_SUCCESS,
        mkWorld (mkLinkedList (<[first := link_node fn second]> (ll_nodes (w_db w)))
                              (ll_size (w_db w)))
                (w_rand w) (drop k (w_heap w)) (w_out w)).
Proof.
  destruct w as [db rs hs out]; simpl. intros (Hll & Hu & Hn) Hfn Hs Hok.
  rewrite Forall_lookup in Hn. destruct (Hn _ _ Hfn) as (Hsize & Hfl & _).
  unfold add_node_to_frequency_list, node_at.
  unfold bind, get_db, deref, lift, ret, fail; simpl.
  rewrite Hfn; simpl. rewrite Hsize, Nat2Z.id.
  pose proof (freq_scan_find (ll_nodes db) [] (frequency_list fn) second Hu Hfl Hs) as Hscan.
  simpl in Hscan. rewrite Hscan. unfold link_node. rewrite record_transition_find.
  destruct (list_find _ _) as [[k e]|] eqn:Hfind; simpl.
  - apply list_find_Some in Hfind as (Hk & <- & _). rewrite Hk.
    exists 0%nat. unfold store_node, bind, get_db, set_db, modify, ret; simpl.
    by rewrite length_insert, <- Hsize.
  - exists 2%nat.
    destruct hs as [|b1 [|b2 hs]]; repeat (apply Forall_cons in Hok as [<- Hok]);
      unfold store_node, store_last, bind, get_db, set_db, modify, ret; simpl;
      rewrite length_app; simpl;
      (replace (Z.to_nat (Z.of_nat (length (frequency_list fn)) + 1 - 1))
         with (length (frequency_list fn)) by lia);
      rewrite Nat.eqb_refl; simpl; rewrite list_insert_insert_eq;
      by rewrite Nat2Z.inj_add.
Qed.

(** C5. Refinement: on a well-formed database, when its allocations
    succeed, [add_node_to_frequency_list first second] returns
    [EXIT_SUCCESS].  Its only effect is to replace [first]'s table by
    [record_transition], the abstract append-or-increment of spec 4.2. *)
Theorem add_node_to_frequency_list_spec (w : World D) first second fn :
  db_wf (w_db w) -> ll_nodes (w_db w) !! first = Some fn ->
  (second < length (ll_nodes (w_db w)))%nat ->
  Forall (eq true) (take 2 (w_heap w)) ->
  exists k, add_node_to_frequency_list first second w =
    Ok (EXIT_SUCCESS,
        mkWorld (mkLinkedList (<[first := link_node fn second]> (ll_nodes (w_db w)))
                              (ll_size (w_db w)))
                (w_rand w) (drop k (w_heap w)) (w_out w)).
Proof. apply add_node_to_frequency_list_run. Qed.
End table_theorems.

(** ** Properties of the abstract transition table *)

Section record_transition_lemmas.
Implicit Types (fl : list MarkovNodeFrequency) (t : nat).

Lemma record_transition_targets fl t x :
  x ∈ map markov_node (record_transition fl t) <-> x ∈ map markov_node fl \/ x = t.
Proof.
  induction fl as [|e fl IH]; simpl; [rewrite list_elem_of_singleton, elem_of_nil; naive_solver|].
  destruct (Nat.eqb_spec (markov_node e) t) as [<-|Hne]; simpl;
    rewrite !elem_of_cons; [naive_solver|rewrite IH; naive_solver].
Qed.

Lemma record_transition_entries n fl t :
  Forall (entry_wf n) fl -> (t < n)%nat -> Forall (entry_wf n) (record_transition fl t).
Proof.
  intros Hfl Ht. induction Hfl as [|e fl [He1 He2] Hfl IH]; simpl.
  - repeat constructor; simpl; lia.
  - destruct (Nat.eqb_spec (markov_node e) t); constructor; try done.
    split; simpl; lia.
Qed.

Lemma record_transition_nodup fl t :
  NoDup (map markov_node fl) -> NoDup (map markov_node (record_transition fl t)).
Proof.
  induction fl as [|e fl IH]; simpl; intros Hnd; [apply NoDup_singleton|].
  apply NoDup_cons in Hnd as [Hnot Hnd].
  destruct (Nat.eqb_spec (markov_node e) t) as [<-|Hne]; simpl;
    apply NoDup_cons; split; auto.
  rewrite record_transition_targets. naive_solver.
Qed.

(** The entries with target [t] after one more transition to [t]. *)
Lemma record_transition_filter fl t k :
  filter (λ e, markov_node e = t) fl = (if Z.eqb k 0 then [] else [mkFreq t k]) ->
  0 <= k ->
  filter (λ e, markov_node e = t) (record_transition fl t) = [mkFreq t (k + 1)].
Proof.
  induction fl as [|e fl IH]; simpl; intros Hf Hk.
  - destruct (Z.eqb_spec k 0); [subst|done]. by rewrite filter_cons_True.
  - rewrite filter_cons in Hf.
    destruct (Nat.eqb_spec (markov_node e) t) as [<-|Hne].
    + rewrite decide_True in Hf by done. destruct (Z.eqb k 0); [discriminate|].
      destruct e as [m f]; simpl in *. injection Hf as -> Hrest.
      rewrite filter_cons_True by done. by rewrite Hrest.
    + rewrite decide_False in Hf by done. rewrite filter_cons_False by done. auto.
Qed.
End record_transition_lemmas.

(** ** The invariant is preserved by a successful link; counts accumulate *)

Section table_wf.
Context {D : Type} `{MarkovChainLaws D}.

Lemma link_node_wf n (fn : MarkovNode D) second :
  node_wf n fn -> (second < n)%nat -> node_wf n (link_node fn second).
Proof.
  intros (_ & Hfl & Hnd) Hs. split_and!; [done| |].
  - by apply record_transition_entries.
  - by apply record_transition_nodup.
Qed.

(** Rewriting a node without touching its payload keeps the store free
    of duplicates. *)
Lemma data_unique_insert (ns : list (MarkovNode D)) i a b :
  data_unique ns -> ns !! i = Some a -> data b = data a -> data_unique (<[i := b]> ns).
Proof.
  intros Hu Ha Hd j k c c' Hc Hc' Hcomp.
  apply list_lookup_insert_Some in Hc as [(<- & <- & _)|(_ & Hc)];
  apply list_lookup_insert_Some in Hc' as [(<- & <- & _)|(_ & Hc')];
    rewrite ?Hd in Hcomp; eauto.
Qed.

Lemma db_wf_link (db : LinkedList (MarkovNode D)) first second fn :
  db_wf db -> ll_nodes db !! first = Some fn -> (second < length (ll_nodes db))%nat ->
  db_wf (mkLinkedList (<[first := link_node fn second]> (ll_nodes db)) (ll_size db)).
Proof.
  intros (Hll & Hu & Hn) Hfn Hs. unfold db_wf, ll_wf in *; simpl.
  rewrite length_insert. split_and!; [done| |].
  - by eapply data_unique_insert.
  - apply Forall_insert; [done|]. apply link_node_wf; [|done].
    rewrite Forall_lookup in Hn. eauto.
Qed.

(** C6. Invariant: on a well-formed database, when its allocations
    succeed, [add_node_to_frequency_list] returns [EXIT_SUCCESS] and the
    database stays well-formed.  Frequencies stay at least 1, targets
    stay in the store, no target is duplicated and the counter stays
    right.  The store's length does not change. *)
Theorem add_node_to_frequency_list_wf (w : World D) first second :
  db_wf (w_db w) -> (first < length (ll_nodes (w_db w)))%nat ->
  (second < length (ll_nodes (w_db w)))%nat ->
  Forall (eq true) (take 2 (w_heap w)) ->
  exists w', add_node_to_frequency_list first second w = Ok (EXIT_SUCCESS, w') /\
    db_wf (w_db w') /\ length (ll_nodes (w_db w')) = length (ll_nodes (w_db w)).
Proof.
  intros Hwf Hf Hs Hok. destruct (lookup_lt_is_Some_2 _ _ Hf) as [fn Hfn].
  destruct (add_node_to_frequency_list_run w first second fn Hwf Hfn Hs Hok) as [k ->].
  eexists; split_and!; [done|by apply db_wf_link|simpl; apply length_insert].
Qed.

(** [n] calls [add_node_to_frequency_list first second] in a row, the
    way [fill_database] links a repeated bigram. *)
Fixpoint repeat_link (n first second : nat) : ST (World D) unit :=
  match n with
  | O => ret tt
  | S n' => _ <- add_node_to_frequency_list first second ;; repeat_link n' first second
  end.

Lemma repeat_link_count n (w : World D) first second fn k :
  db_wf (w_db w) -> ll_nodes (w_db w) !! first = Some fn ->
  (second < length (ll_nodes (w_db w)))%nat -> w_heap w = [] -> 0 <= k ->
  filter (λ e, markov_node e = second) (frequency_list fn) =
    (if Z.eqb k 0 then [] else [mkFreq second k]) ->
  exists w' fn', repeat_link n first second w = Ok (tt, w') /\
    ll_nodes (w_db w') !! first = Some fn' /\
    filter (λ e, markov_node e = second) (frequency_list fn') =
      (if Z.eqb (k + Z.of_nat n) 0 then [] else [mkFreq second (k + Z.of_nat n)]).
Proof.
  revert w fn k. induction n as [|n IH]; intros w fn k Hwf Hfn Hs Hh Hk Hfil; simpl.
  { exists w, fn. rewrite Z.add_0_r. done. }
  assert (Hok : Forall (eq true) (take 2 (w_heap w))) by (rewrite Hh; constructor).
  destruct (add_node_to_frequency_list_run w first second fn Hwf Hfn Hs Hok) as [j Hrun].
  unfold bind at 1. rewrite Hrun.
  assert (Hlen : (first < length (ll_nodes (w_db w)))%nat) by (eapply lookup_lt_Some; eauto).
  edestruct (IH (mkWorld (mkLinkedList (<[first := link_node fn second]> (ll_nodes (w_db w)))
                                       (ll_size (w_db w))) (w_rand w) (drop j (w_heap w)) (w_out w))
                (link_node fn second) (k + 1)) as (w' & fn' & Hrun' & Hfn' & Hfil');
    simpl; [by apply db_wf_link|by apply list_lookup_insert_eq|by rewrite length_insert
           |by rewrite Hh, drop_nil|lia|..].
  - rewrite (record_transition_filter _ _ k Hfil Hk).
    destruct (Z.eqb_spec (k + 1) 0); [lia|done].
  - exists w', fn'. split_and!; [done|done|].
    by replace (k + Z.of_nat (S n)) with (k + 1 + Z.of_nat n) by lia.
Qed.

(** Frequency accumulation (spec section 8): starting from a node
    with no transition to [second], [n >= 1] calls linking it to
    [second] leave exactly one entry targeting [second], with frequency
    [n]. *)
Theorem repeat_link_frequency n (w : World D) first second fn :
  db_wf (w_db w) -> ll_nodes (w_db w) !! first = Some fn ->
  (second < length (ll_nodes (w_db w)))%nat -> w_heap w = [] -> (1 <= n)%nat ->
  filter (λ e, markov_node e = second) (frequency_list fn) = [] ->
  exists w' fn', repeat_link n first second w = Ok (tt, w') /\
    ll_nodes (w_db w') !! first = Some fn' /\
    filter (λ e, markov_node e = second) (frequency_list fn') = [mkFreq second (Z.of_nat n)].
Proof.
  intros Hwf Hfn Hs Hh Hn Hfil.
  destruct (repeat_link_count n w first second fn 0 Hwf Hfn Hs Hh) as (w' & fn' & ? & ? & Hf');
    [lia|done|]. exists w', fn'. split_and!; [done|done|].
  rewrite Hf'. destruct (Z.eqb_spec (0 + Z.of_nat n) 0); [lia|done].
Qed.
End table_wf.

(** ** A failed [realloc] leaves the counter one past the table *)

Section realloc_failure.
Context {D : Type} `{MarkovChainLaws D}.

(** A scan told to run past a table that has no entry for [second]
    reads beyond the array. *)
Lemma freq_scan_miss (ns : list (MarkovNode D)) pre fl second m :
  data_unique ns -> Forall (entry_wf (length ns)) fl -> (second < length ns)%nat ->
  Forall (λ e, markov_node e ≠ second) fl ->
  freq_scan ns (pre ++ fl) second (length pre) (length fl + S m) = Crash OutOfBounds.
Proof.
  intros Hu Hfl Hs Hmiss. revert pre.
  induction Hfl as [|e fl [He _] Hfl IH]; intros pre; simpl.
  - by rewrite app_nil_r, lookup_ge_None_2 by lia.
  - apply Forall_cons in Hmiss as [Hne Hmiss].
    rewrite list_lookup_middle by done.
    destruct (lookup_lt_is_Some_2 ns (markov_node e) He) as [t Ht].
    destruct (lookup_lt_is_Some_2 ns second Hs) as [s Hs'].
    rewrite Ht, Hs', (same_index ns _ _ t s Hu Ht Hs'), bool_decide_false by done.
    replace (pre ++ e :: fl) with ((pre ++ [e]) ++ fl) by by rewrite <- app_assoc.
    replace (S (length pre)) with (length (pre ++ [e])) by (rewrite length_app; simpl; lia).
    by apply IH.
Qed.

(** The run of a link whose [realloc] fails. *)
Lemma add_node_to_frequency_list_realloc_run (w : World D) first second fn hs :
  db_wf (w_db w) -> ll_nodes (w_db w) !! first = Some fn ->
  (second < length (ll_nodes (w_db w)))%nat ->
  Forall (λ e, markov_node e ≠ second) (frequency_list fn) ->
  w_heap w = true :: false :: hs ->
  exists w', add_node_to_frequency_list first second w = Ok (EXIT_FAILURE, w') /\
    ll_nodes (w_db w') =
      <[first := mkNode (data fn) (frequency_list fn) (fre_list_size fn + 1)]>
        (ll_nodes (w_db w)) /\
    add_node_to_frequency_list first second w' = Crash OutOfBounds.
Proof.
  destruct w as [db rs hs0 out]; simpl. intros (Hll & Hu & Hn) Hfn Hs Hmiss ->.
  rewrite Forall_lookup in Hn. destruct (Hn _ _ Hfn) as (Hsize & Hfl & _).
  pose proof (freq_scan_find (ll_nodes db) [] (frequency_list fn) second Hu Hfl Hs) as Hscan.
  rewrite (proj2 (list_find_None _ _) Hmiss) in Hscan. simpl in Hscan.
  unfold add_node_to_frequency_list, node_at.
  unfold bind, get_db, deref, lift, ret, fail; simpl.
  rewrite Hfn; simpl. rewrite Hsize, Nat2Z.id, Hscan.
  unfold store_node, bind, get_db, set_db, emit, modify, ret; simpl.
  eexists; split_and!; [reflexivity|reflexivity|].
  unfold node_at, bind, get_db, deref, lift, fail; simpl.
  rewrite list_lookup_insert_eq by (eapply lookup_lt_Some; eauto). simpl.
  replace (Z.to_nat (Z.of_nat (length (frequency_list fn)) + 1))
    with (length (frequency_list fn) + 1)%nat by lia.
  pose proof (freq_scan_miss (<[first := mkNode (data fn) (frequency_list fn)
                  (Z.of_nat (length (frequency_list fn)) + 1)]> (ll_nodes db))
                [] (frequency_list fn) second 0) as Hmiss'.
  rewrite length_insert in Hmiss'. simpl in Hmiss'. rewrite Hmiss'; [done| |done|done|done].
  by eapply data_unique_insert.
Qed.

(** C7. Code bug (markov_chain.c:87-94).  Take a well-formed database
    and link [first] to a [second] it has no entry for.  If the
    [MarkovNodeFrequency] allocation succeeds and the [realloc] fails,
    the call returns [EXIT_FAILURE], but [fre_list_size] has already been
    incremented: the node's counter is one past its table.  The spec
    requires the table to be left in its last valid state.  Retrying the
    same link then reads [frequency_list] past its end. *)
Theorem add_node_to_frequency_list_realloc_failure (w : World D) first second fn hs :
  db_wf (w_db w) -> ll_nodes (w_db w) !! first = Some fn ->
  (second < length (ll_nodes (w_db w)))%nat ->
  Forall (λ e, markov_node e ≠ second) (frequency_list fn) ->
  w_heap w = true :: false :: hs ->
  exists w', add_node_to_frequency_list first second w = Ok (EXIT_FAILURE, w') /\
    ll_nodes (w_db w') !! first =
      Some (mkNode (data fn) (frequency_list fn) (fre_list_size fn + 1)) /\
    add_node_to_frequency_list first second w' = Crash OutOfBounds.
Proof.
  intros Hwf Hfn Hs Hmiss Hh.
  destruct (add_node_to_frequency_list_realloc_run w first second fn hs Hwf Hfn Hs Hmiss Hh)
    as (w' & Hrun & Hdb & Hretry).
  exists w'. rewrite Hdb, list_lookup_insert_eq by (eapply lookup_lt_Some; eauto). done.
Qed.
End realloc_failure.

(** ** Abstract specification of the store (spec 4.1) and uniqueness *)

Section store_spec.
Context {D : Type} `{MarkovChainLaws D}.

(** The abstract store: the list of stored payloads.  [insert_or_get]
    keeps it when an equal payload is present and appends a copy
    otherwise. *)
Definition store_insert (reps : list D) (x : D) : list D :=
  if existsb (λ r, same r x) reps then reps else reps ++ [copy_func x].

Definition store_insert_all (reps xs : list D) : list D :=
  fold_left store_insert xs reps.

(** A build phase that adds each payload of [xs] in turn, as the front
    ends' [fill_database] loops do. *)
Fixpoint add_all (xs : list D) : ST (World D) unit :=
  match xs with
  | [] => ret tt
  | x :: xs' => _ <- add_to_database x ;; add_all xs'
  end.

Lemma get_node_None_existsb (db : LinkedList (MarkovNode D)) x :
  get_node_from_database db x = None <->
  existsb (λ r, same r x) (map data (ll_nodes db)) = false.
Proof.
  unfold get_node_from_database. rewrite find_from_None.
  induction (ll_nodes db) as [|n ns IH]; simpl; [split; auto|].
  rewrite Forall_cons, orb_false_iff, IH. done.
Qed.

(** One insertion with plentiful memory, seen through the payloads. *)
Lemma add_to_database_plentiful (w : World D) x :
  w_heap w = [] ->
  exists r w', add_to_database x w = Ok (r, w') /\ w_heap w' = [] /\
    map data (ll_nodes (w_db w')) = store_insert (map data (ll_nodes (w_db w))) x.
Proof.
  intros Hh. unfold store_insert.
  destruct (get_node_from_database (w_db w) x) as [i|] eqn:Hf.
  - exists (Some i), w. rewrite (add_to_database_found w x i Hf).
    destruct (existsb _ _) eqn:He; [done|].
    by apply get_node_None_existsb in He; rewrite He in Hf.
  - eexists _, _. rewrite add_to_database_fresh_run by (by rewrite ?Hh).
    rewrite Hh. simpl. split_and!; [done|done|].
    apply get_node_None_existsb in Hf. rewrite Hf. simpl. by rewrite map_app.
Qed.

Lemma add_all_run (w : World D) xs :
  db_wf (w_db w) -> w_heap w = [] ->
  exists w', add_all xs w = Ok (tt, w') /\ db_wf (w_db w') /\
    map data (ll_nodes (w_db w')) = store_insert_all (map data (ll_nodes (w_db w))) xs.
Proof.
  revert w. induction xs as [|x xs IH]; intros w Hwf Hh; simpl; [eauto|].
  destruct (add_to_database_plentiful w x Hh) as (r & w1 & Hrun & Hh1 & Hmap).
  unfold bind at 1. rewrite Hrun.
  destruct (IH w1) as (w' & Hrun' & Hwf' & Hmap'); [by eapply add_to_database_preserves_wf|done|].
  exists w'. split_and!; [done|done|]. by rewrite Hmap', Hmap.
Qed.

(** C8. Refinement: with plentiful memory, a build phase never crashes.
    It keeps the database well-formed, and the stored payloads follow
    the abstract store: the old payloads, then a copy of each added
    payload that equals none before it. *)
Theorem add_all_refines (w : World D) xs :
  db_wf (w_db w) -> w_heap w = [] ->
  exists w', add_all xs w = Ok (tt, w') /\ db_wf (w_db w') /\
    map data (ll_nodes (w_db w')) = store_insert_all (map data (ll_nodes (w_db w))) xs.
Proof. apply add_all_run. Qed.

Lemma store_insert_all_prefix reps xs r :
  r ∈ reps -> r ∈ store_insert_all reps xs.
Proof.
  revert reps. induction xs as [|x xs IH]; intros reps Hr; simpl; [done|].
  apply IH. unfold store_insert. destruct (existsb _ _); [done|].
  rewrite elem_of_app. auto.
Qed.

Lemma store_insert_all_covers reps xs y :
  y ∈ reps ++ xs -> exists r, r ∈ store_insert_all reps xs /\ comp_func r y = 0.
Proof.
  revert reps y. induction xs as [|x xs IH]; intros reps y Hy; simpl.
  { rewrite app_nil_r in Hy. exists y. split; [done|apply comp_refl]. }
  rewrite elem_of_app, elem_of_cons in Hy.
  destruct Hy as [Hy|[->|Hy]]; [apply IH; rewrite elem_of_app; unfold store_insert;
    destruct (existsb _ _); rewrite ?elem_of_app; auto| |apply IH; rewrite elem_of_app; auto].
  unfold store_insert. destruct (existsb _ reps) eqn:He.
  - apply existsb_exists in He as (r0 & Hr0%list_elem_of_In & Hs%same_spec).
    destruct (IH reps r0) as (r & Hr & Hc); [rewrite elem_of_app; auto|].
    exists r. split; [done|]. by eapply comp_trans.
  - exists (copy_func x). split; [|apply copy_comp].
    apply store_insert_all_prefix. rewrite elem_of_app, list_elem_of_singleton. auto.
Qed.

Lemma store_insert_all_origin reps xs r :
  r ∈ store_insert_all reps xs -> r ∈ reps \/ exists x, x ∈ xs /\ comp_func r x = 0.
Proof.
  revert reps. induction xs as [|x xs IH]; intros reps Hr; simpl in *; [auto|].
  destruct (IH _ Hr) as [Hin|(y & Hy & Hc)]; [|right; exists y; rewrite elem_of_cons; auto].
  unfold store_insert in Hin. destruct (existsb _ _); [auto|].
  rewrite elem_of_app, list_elem_of_singleton in Hin.
  destruct Hin as [Hin | ->]; [auto|right; exists x; rewrite elem_of_cons; auto using copy_comp].
Qed.

(** Uniqueness (spec section 8): build a store from an empty
    database by adding the payloads [xs], in any order and with
    duplicates, with plentiful memory.  Every added payload then has
    exactly one equal stored state, and every stored state equals one of
    the added payloads.  So the store holds one state per equivalence
    class of [comp_func] among [xs]. *)
Theorem add_all_uniqueness (w : World D) xs :
  w_db w = empty_list -> w_heap w = [] ->
  exists w', add_all xs w = Ok (tt, w') /\
    (forall x, x ∈ xs -> exists i n, ll_nodes (w_db w') !! i = Some n /\
       comp_func (data n) x = 0 /\
       forall j n', ll_nodes (w_db w') !! j = Some n' -> comp_func (data n') x = 0 -> j = i) /\
    (forall i n, ll_nodes (w_db w') !! i = Some n ->
       exists x, x ∈ xs /\ comp_func (data n) x = 0).
Proof.
  intros Hdb Hh.
  destruct (add_all_run w xs) as (w' & Hrun & (_ & Hu & _) & Hmap);
    [rewrite Hdb; split_and!; [done|intros ? ? ? ?; done|constructor]|done|].
  rewrite Hdb in Hmap. simpl in Hmap. exists w'. split_and!; [done| |].
  - intros x Hx. destruct (store_insert_all_covers [] xs x Hx) as (r & Hr & Hc).
    rewrite <- Hmap in Hr. apply list_elem_of_lookup in Hr as [i Hi].
    apply list_lookup_fmap_Some in Hi as (n & -> & Hi).
    exists i, n. split_and!; [done|done|]. intros j n' Hj Hc'.
    apply (Hu j i n' n Hj Hi). eapply comp_trans; [exact Hc'|by apply comp_sym].
  - intros i n Hi. destruct (store_insert_all_origin [] xs (data n)) as [Hin|Hx];
      [|by apply elem_of_nil in Hin|done].
    rewrite <- Hmap. apply list_elem_of_lookup. exists i.
    apply list_lookup_fmap_Some. eauto.
Qed.
End store_spec.

(** ** An executable check of the invariant *)

Section wf_check.
Context {D : Type} `{MarkovChainFuncs D}.

Definition entry_wfb (n : nat) (e : MarkovNodeFrequency) : bool :=
  Nat.ltb (markov_node e) n && Z.leb 1 (frequency e).

Definition node_wfb (n : nat) (mn : MarkovNode D) : bool :=
  Z.eqb (fre_list_size mn) (Z.of_nat (length (frequency_list mn))) &&
  forallb (entry_wfb n) (frequency_list mn) &&
  bool_decide (NoDup (map markov_node (frequency_list mn))).

Fixpoint data_uniqueb (ns : list (MarkovNode D)) : bool :=
  match ns with
  | [] => true
  | a :: ns' => forallb (λ b, negb (same (data a) (data b))) ns' && data_uniqueb ns'
  end.

Definition db_wfb (db : LinkedList (MarkovNode D)) : bool :=
  Z.eqb (ll_size db) (Z.of_nat (length (ll_nodes db))) &&
  data_uniqueb (ll_nodes db) && forallb (node_wfb (length (ll_nodes db))) (ll_nodes db).
End wf_check.

Section wf_check_sound.
Context {D : Type} `{MarkovChainLaws D}.

Lemma data_uniqueb_sound (ns : list (MarkovNode D)) :
  data_uniqueb ns = true -> data_unique ns.
Proof.
  induction ns as [|a ns IH]; simpl; [by intros _ ? ? ? ?|].
  intros [Hall Hrest]%andb_true_iff i j b c Hb Hc Hcomp.
  rewrite forallb_forall in Hall.
  assert (Hnot : forall d, d ∈ ns -> comp_func (data a) (data d) <> 0).
  { intros d Hd Hc0. specialize (Hall d (proj1 (list_elem_of_In _ _) Hd)).
    apply same_spec in Hc0. by rewrite Hc0 in Hall. }
  destruct i as [|i], j as [|j]; simpl in *; simplify_eq; [done| | |].
  - destruct (Hnot c); [by eapply list_elem_of_lookup_2|done].
  - destruct (Hnot b); [by eapply list_elem_of_lookup_2|by apply comp_sym].
  - f_equal. by apply (IH Hrest i j b c).
Qed.

Lemma db_wfb_sound (db : LinkedList (MarkovNode D)) : db_wfb db = true -> db_wf db.
Proof.
  unfold db_wfb. intros [[Hs Hu]%andb_true_iff Hn]%andb_true_iff.
  split_and!; [by apply Z.eqb_eq|by apply data_uniqueb_sound|].
  apply Forall_forall. rewrite forallb_forall in Hn. intros mn Hmn.
  specialize (Hn mn (proj1 (list_elem_of_In _ _) Hmn)).
  apply andb_true_iff in Hn as [[Hsz He]%andb_true_iff Hnd].
  split_and!; [by apply Z.eqb_eq| |by apply bool_decide_eq_true in Hnd].
  apply Forall_forall. rewrite forallb_forall in He. intros e He'.
  specialize (He e (proj1 (list_elem_of_In _ _) He')).
  apply andb_true_iff in He as [H1 H2]. split; [by apply Nat.ltb_lt|by apply Z.leb_le].
Qed.
End wf_check_sound.

(** ** A concrete front end for the witnesses

    Integer payloads compared by difference, as [snakes_and_ladders.c]
    compares cell numbers; payload [3] is terminal. *)
Module IntPayload.
#[export] Instance int_funcs : MarkovChainFuncs Z := {|
  comp_func a b := a - b;
  copy_func a := a;
  is_last a := Z.eqb a 3;
  print_func _ := ""%string
|}.

#[export] Instance int_laws : MarkovChainLaws Z.
Proof. split; simpl; intros; lia. Qed.

(** States 1, 2, 3 with transitions 1 -> 2 (twice) and 2 -> 3. *)
Definition db_ex : LinkedList (MarkovNode Z) :=
  mkLinkedList [mkNode 1 [mkFreq 1 2] 1; mkNode 2 [mkFreq 2 1] 1; mkNode 3 [] 0] 3.

Definition world_ex (hs : list bool) : World Z := mkWorld db_ex [] hs [].
End IntPayload.

(** ** Witnesses: each theorem applied where its hypotheses hold *)

Import IntPayload.

Lemma db_ex_wf : db_wf db_ex.
Proof. apply db_wfb_sound. vm_compute. reflexivity. Qed.

Lemma add_to_database_fresh_witness :
  add_to_database 7 (world_ex []) =
    Ok (Some 3%nat, mkWorld (mkLinkedList (ll_nodes db_ex ++ [new_node 7]) 4) [] [] []).
Proof. apply (add_to_database_fresh (world_ex []) 7); [reflexivity|vm_compute; constructor]. Defined.

Lemma add_to_database_alloc_failure_witness :
  exists hs', add_to_database 7 (world_ex [true; false]) =
    Ok (None, mkWorld db_ex [] hs' [OAllocMsg]).
Proof.
  apply (add_to_database_alloc_failure (world_ex [true; false]) 7);
    [reflexivity|vm_compute; right; left].
Defined.

Lemma add_to_database_wf_witness :
  db_wf (mkLinkedList (ll_nodes db_ex ++ [new_node 7]) 4).
Proof.
  apply (add_to_database_wf (world_ex []) 7 (Some 3%nat)
           (mkWorld (mkLinkedList (ll_nodes db_ex ++ [new_node 7]) 4) [] [] []));
    [exact db_ex_wf|reflexivity].
Defined.

Lemma add_node_to_frequency_list_spec_witness :
  exists k, add_node_to_frequency_list 2 0 (world_ex []) =
    Ok (EXIT_SUCCESS, mkWorld (mkLinkedList (<[2%nat := link_node (mkNode 3 [] 0) 0]>
                                               (ll_nodes db_ex)) 3) [] (drop k []) []).
Proof.
  apply (add_node_to_frequency_list_spec (world_ex []) 2 0 (mkNode 3 [] 0));
    [exact db_ex_wf|reflexivity|simpl; lia|constructor].
Defined.

Lemma add_node_to_frequency_list_wf_witness :
  exists w', add_node_to_frequency_list 0 2 (world_ex []) = Ok (EXIT_SUCCESS, w') /\
    db_wf (w_db w') /\ length (ll_nodes (w_db w')) = length (ll_nodes (w_db (world_ex []))).
Proof.
  apply (add_node_to_frequency_list_wf (world_ex []) 0 2);
    [exact db_ex_wf|simpl; lia|simpl; lia|constructor].
Defined.

Lemma add_node_to_frequency_list_realloc_failure_witness :
  exists w', add_node_to_frequency_list 2 0 (world_ex [true; false]) = Ok (EXIT_FAILURE, w') /\
    ll_nodes (w_db w') !! 2%nat = Some (mkNode 3 [] (0 + 1)) /\
    add_node_to_frequency_list 2 0 w' = Crash OutOfBounds.
Proof.
  apply (add_node_to_frequency_list_realloc_failure (world_ex [true; false]) 2 0 (mkNode 3 [] 0) []);
    [exact db_ex_wf|reflexivity|simpl; lia|constructor|reflexivity].
Defined.

Lemma add_all_refines_witness :
  exists w', add_all [7; 1; 7] (world_ex []) = Ok (tt, w') /\ db_wf (w_db w') /\
    map data (ll_nodes (w_db w')) = store_insert_all [1; 2; 3] [7; 1; 7].
Proof. apply (add_all_refines (world_ex []) [7; 1; 7]); [exact db_ex_wf|reflexivity]. Defined.
