(* ===== verification/Teardown.v ===== *)
(** * Tearing the chain down ([free_markov_chain], markov_chain.c:103-126)

    [free_markov_chain] follows the [next] pointers from [first].  For
    every node it frees the [fre_list_size] entries of the node's table,
    then the table, the payload, the [MarkovNode] and the list [Node].
    Then it frees the [LinkedList] and the [MarkovChain] and sets the
    caller's pointer to [NULL].

    Its only effect is the sequence of [free] calls, so it is modelled as
    a pure function from the database to that trace.  A [block] names
    what is freed by its position in the chain.  Reading
    [frequency_list[i]] past the end of the table is a crash.

    The theorems say that on a well-formed chain the trace frees exactly
    the blocks the chain owns ([chain_block]), each once.  They also say
    that after a failed [realloc] (see [add_node_to_frequency_list]) the
    teardown reads past a table. *)

From S2P Require Import Prelude LinkedList MarkovChain.

(** The heap blocks of a chain, by position: entry [k] of node [i]'s
    table, its table, its payload, its [MarkovNode], its list [Node], the
    [LinkedList] and the [MarkovChain]. *)
Inductive block : Type :=
| BFreq (i k : nat)
| BTable (i : nat)
| BData (i : nat)
| BMarkovNode (i : nat)
| BNode (i : nat)
| BDatabase
| BChain.

#[global] Instance block_eq_dec : EqDecision block.
Proof. solve_decision. Defined.

Section teardown.
Context {D : Type}.

(** [for (int i = 0; i < fre_list_size; ++i) free(frequency_list[i]);]
    from entry [k], with [n] iterations left. *)
Fixpoint free_entries (fl : list MarkovNodeFrequency) (i k n : nat) : outcome (list block) :=
  match n with
  | O => Ok []
  | S n' =>
      match fl !! k with
      | None => Crash OutOfBounds
      | Some _ =>
          match free_entries fl i (S k) n' with
          | Ok bs => Ok (BFreq i k :: bs)
          | Crash c => Crash c
          end
      end
  end.

(** The [while (index_node)] loop, from the node at position [i]. *)
Fixpoint free_nodes (ns : list (MarkovNode D)) (i : nat) : outcome (list block) :=
  match ns with
  | [] => Ok []
  | n :: ns' =>
      match free_entries (frequency_list n) i 0 (Z.to_nat (fre_list_size n)) with
      | Crash c => Crash c
      | Ok es =>
          match free_nodes ns' (S i) with
          | Crash c => Crash c
          | Ok rest => Ok (es ++ [BTable i; BData i; BMarkovNode i; BNode i] ++ rest)
          end
      end
  end.

(** [void free_markov_chain(MarkovChain **ptr_chain)]. *)
Definition free_markov_chain (db : LinkedList (MarkovNode D)) : outcome (list block) :=
  match free_nodes (ll_nodes db) 0 with
  | Crash c => Crash c
  | Ok bs => Ok (bs ++ [BDatabase; BChain])
  end.

(** The blocks a chain owns. *)
Definition chain_block (db : LinkedList (MarkovNode D)) (b : block) : Prop :=
  match b with
  | BFreq i k => exists n, ll_nodes db !! i = Some n /\ (k < length (frequency_list n))%nat
  | BTable i | BData i | BMarkovNode i | BNode i => (i < length (ll_nodes db))%nat
  | BDatabase | BChain => True
  end.

(** The node a block belongs to. *)
Definition block_node (b : block) : option nat :=
  match b with
  | BFreq i _ | BTable i | BData i | BMarkovNode i | BNode i => Some i
  | BDatabase | BChain => None
  end.

(** A node whose counter is the length of its table. *)
Definition node_sized (n : MarkovNode D) : Prop :=
  fre_list_size n = Z.of_nat (length (frequency_list n)).

(** The blocks of the nodes [ns] from position [i]: [chain_block]
    shifted by [i]. *)
Definition nodes_block (ns : list (MarkovNode D)) (i : nat) (b : block) : Prop :=
  match b with
  | BFreq j k => (i <= j)%nat /\ exists n, ns !! (j - i)%nat = Some n /\ (k < length (frequency_list n))%nat
  | BTable j | BData j | BMarkovNode j | BNode j => (i <= j < i + length ns)%nat
  | BDatabase | BChain => False
  end.

(** The entries of a table are freed in order while the counter does not
    exceed the table. *)
Lemma free_entries_ok fl i k n :
  (k + n <= length fl)%nat -> free_entries fl i k n = Ok (map (BFreq i) (seq k n)).
Proof.
  revert k. induction n as [|n IH]; intros k Hk; [done|]. simpl.
  destruct (lookup_lt_is_Some_2 fl k) as [e ->]; [lia|].
  rewrite IH by lia. done.
Qed.

(** A counter past the table makes the loop read past its end. *)
Lemma free_entries_past fl i k n :
  (k <= length fl < k + n)%nat -> free_entries fl i k n = Crash OutOfBounds.
Proof.
  revert k. induction n as [|n IH]; intros k Hk; [lia|]. simpl.
  destruct (fl !! k) eqn:E; [|done].
  apply lookup_lt_Some in E. rewrite IH by lia. done.
Qed.

(** The node loop on nodes whose counters match their tables frees each
    block of the nodes once. *)
Lemma free_nodes_ok ns i :
  Forall node_sized ns ->
  exists bs, free_nodes ns i = Ok bs /\ NoDup bs /\
    (forall b, b ∈ bs <-> nodes_block ns i b).
Proof.
  intros Hns. revert i. induction Hns as [|n ns Hn Hns IH]; intros i; simpl.
  { exists []. split_and!; [done|constructor|]. intros b. rewrite elem_of_nil.
    destruct b; simpl; split; try done; try lia.
    intros (_ & n & Hn & _). by rewrite lookup_nil in Hn. }
  unfold node_sized in Hn. rewrite Hn, Nat2Z.id, free_entries_ok by lia.
  destruct (IH (S i)) as (rest & -> & Hnd & Hmem).
  eexists. split; [done|]. split.
  - apply NoDup_app. split_and!.
    + apply NoDup_fmap; [by intros ?? [=]|apply NoDup_seq].
    + intros b Hb%list_elem_of_fmap. destruct Hb as (k & -> & _).
      rewrite ?elem_of_app, !elem_of_cons, Hmem. simpl. naive_solver lia.
    + repeat (apply NoDup_cons; split;
        [rewrite ?elem_of_cons, Hmem; simpl; naive_solver lia|]); done.
  - intros b. rewrite elem_of_app, !elem_of_cons, Hmem, list_elem_of_fmap.
    destruct b as [j k|j|j|j|j| |]; simpl; split; try naive_solver lia.
    3-6: intros ?; destruct (decide (j = i)) as [->|]; [naive_solver|do 5 right; lia].
    + intros [(k' & [= <- <-] & Hk'%elem_of_seq)|
        [?|[?|[?|[?|(Hj & n' & Hn' & Hk)]]]]]; try discriminate.
      * split; [lia|]. exists n. rewrite Nat.sub_diag. split; [done|lia].
      * split; [lia|]. exists n'. by replace (j - i)%nat with (S (j - S i)) by lia.
    + intros (Hj & n' & Hn' & Hk). destruct (decide (j = i)) as [->|Hji].
      * rewrite Nat.sub_diag in Hn'. injection Hn' as <-. left. exists k.
        split; [done|apply elem_of_seq; lia].
      * do 5 right. split; [lia|]. exists n'.
        by replace (j - i)%nat with (S (j - S i)) in Hn' by lia.
Qed.

(** A node whose counter is one past its table, after well-sized nodes,
    makes the node loop read past that table. *)
Lemma free_nodes_crash ns k m i :
  Forall node_sized ns -> (k < length ns)%nat ->
  fre_list_size m = Z.of_nat (length (frequency_list m)) + 1 ->
  free_nodes (<[k := m]> ns) i = Crash OutOfBounds.
Proof.
  intros Hns. revert k i.
  induction Hns as [|n ns Hn Hns IH]; intros k i Hk Hm; simpl in *; [lia|].
  destruct k as [|k]; simpl.
  - rewrite Hm, free_entries_past; [done|lia].
  - unfold node_sized in Hn. rewrite Hn, Nat2Z.id, free_entries_ok, IH by lia. done.
Qed.
End teardown.

(** [free_markov_chain(&chain)] as [main] calls it: the trace of [free]
    calls has no further effect, a crash in the loop is a crash of the
    program.  [main] returns right after it, so the dangling database is
    left in the state. *)
Definition free_chain {D : Type} : ST (World D) unit :=
  db <- get_db ;;
  _ <- lift (free_markov_chain db) ;;
  ret tt.

Section teardown_theorems.
Context {D : Type} `{MarkovChainLaws D}.

Lemma db_wf_sized (db : LinkedList (MarkovNode D)) :
  db_wf db -> Forall node_sized (ll_nodes db).
Proof. intros (_ & _ & Hn). eapply Forall_impl; [exact Hn|]. by intros ? [? _]. Qed.

Lemma chain_block_nodes (db : LinkedList (MarkovNode D)) b :
  chain_block db b <-> nodes_block (ll_nodes db) 0 b \/ b = BDatabase \/ b = BChain.
Proof. destruct b; simpl; rewrite ?Nat.sub_0_r; naive_solver lia. Qed.

Lemma free_markov_chain_run (db : LinkedList (MarkovNode D)) :
  db_wf db -> exists tr, free_markov_chain db = Ok tr /\ NoDup tr /\
    forall b, b ∈ tr <-> chain_block db b.
Proof.
  intros Hwf.
  destruct (free_nodes_ok (ll_nodes db) 0 (db_wf_sized db Hwf)) as (bs & Hbs & Hnd & Hmem).
  unfold free_markov_chain. rewrite Hbs. eexists. split; [done|]. split.
  - apply NoDup_app. split_and!; [done| |apply NoDup_cons; split; [by rewrite list_elem_of_singleton|apply NoDup_singleton]].
    intros b Hb%Hmem. rewrite !elem_of_cons, elem_of_nil. destruct b; naive_solver.
  - intros b. rewrite chain_block_nodes, elem_of_app, Hmem, !elem_of_cons, elem_of_nil.
    naive_solver.
Qed.

(** C9. Safety: on a well-formed chain, [free_markov_chain] runs to the
    end and frees every block the chain owns, each exactly once, and
    nothing else: every entry of every table, the tables, payloads,
    [MarkovNode]s and list nodes, the [LinkedList] and the [MarkovChain]. *)
Theorem free_markov_chain_frees_all (db : LinkedList (MarkovNode D)) :
  db_wf db -> exists tr, free_markov_chain db = Ok tr /\ NoDup tr /\
    forall b, b ∈ tr <-> chain_block db b.
Proof. apply free_markov_chain_run. Qed.

(** C10. Code bug (markov_chain.c:87-94 with 108-111).  After the
    [realloc] failure of [add_node_to_frequency_list], the node's counter
    is one past its table, and tearing the chain down then reads the
    entry [frequency_list[fre_list_size - 1]], which was never stored, to
    pass it to [free]. *)
Theorem free_markov_chain_after_realloc_failure (w : World D) first second fn hs :
  db_wf (w_db w) -> ll_nodes (w_db w) !! first = Some fn ->
  (second < length (ll_nodes (w_db w)))%nat ->
  Forall (λ e, markov_node e ≠ second) (frequency_list fn) ->
  w_heap w = true :: false :: hs ->
  exists w', add_node_to_frequency_list first second w = Ok (EXIT_FAILURE, w') /\
    free_markov_chain (w_db w') = Crash OutOfBounds.
Proof.
  intros Hwf Hfn Hs Hmiss Hh.
  destruct (add_node_to_frequency_list_realloc_run w first second fn hs Hwf Hfn Hs Hmiss Hh)
    as (w' & Hrun & Hdb & _).
  exists w'. split; [done|]. unfold free_markov_chain. rewrite Hdb.
  pose proof (db_wf_sized _ Hwf) as Hsz.
  rewrite free_nodes_crash; [done|done|by eapply lookup_lt_Some|].
  simpl. rewrite Forall_lookup in Hsz. by rewrite (Hsz _ _ Hfn).
Qed.
End teardown_theorems.

(** ** Witnesses *)

Import IntPayload.

Lemma free_markov_chain_frees_all_witness :
  exists tr, free_markov_chain db_ex = Ok tr /\ NoDup tr /\
    forall b, b ∈ tr <-> chain_block db_ex b.
Proof. apply (free_markov_chain_frees_all db_ex). exact db_ex_wf. Defined.

Lemma free_markov_chain_after_realloc_failure_witness :
  exists w', add_node_to_frequency_list 2 0 (world_ex [true; false]) = Ok (EXIT_FAILURE, w') /\
    free_markov_chain (w_db w') = Crash OutOfBounds.
Proof.
  apply (free_markov_chain_after_realloc_failure (world_ex [true; false]) 2 0 (mkNode 3 [] 0) []);
    [exact db_ex_wf|reflexivity|simpl; lia|constructor|reflexivity].
Defined.
