(* ===== verification/RandomWalk.v ===== *)
(** * The walk generator ([src/markov_chain.c], 9-12 and 128-207)

    [get_random_number] is [rand() % max_number].  [get_first_random_node]
    draws indices until one names a non-terminal state (rejection
    sampling).  [get_next_random_node] sums the frequencies of a table into
    an [int], draws [r] below the total and subtracts frequencies until
    [r] falls inside an entry; its fallback draws an entry uniformly.
    [generate_random_sequence] prints the start, then at most
    [max_length - 1] sampled states, stopping after a terminal one.

    Every function only reads the database; the [rand()] stream and the
    output are the state they change.  This file proves four things about
    them: the subtraction scan is equivalent to a cumulative-sum
    reference, the sampling weights are exact, the [int] accumulator's
    overflow behaviour, and the liveness and output shape of the walk.
    [walkableb] checks that every non-terminal state can be left, and
    [terminates_within] that every walk from a state reaches a terminal
    state within a bound.  On such graphs a walk returns and ends with a
    terminal state ([walk_loop_ends]). *)

From stdpp Require Import strings.
From S2P Require Import Prelude LinkedList MarkovChain.

Section walk.
Context {D : Type} `{MarkovChainFuncs D}.
Local Abbreviation W := (World D).

(** [int get_random_number(int max_number)]: [rand() % max_number]. *)
Definition get_random_number (max_number : Z) : ST W Z :=
  r <- c_rand ;; c_rem r max_number.

(** One pass of the [while (check)] loop of [get_first_random_node].  It
    draws [rand_num] below [database->size], follows [next] [rand_num]
    times from [first] and tests the payload with [is_last].  [Some i]
    ends the loop; [None] sets [check] again. *)
Definition first_random_step : ST W (option nat) :=
  db <- get_db ;;
  rand_num <- get_random_number (ll_size db) ;;
  cur <- deref NullDeref (ll_nodes db !! Z.to_nat rand_num) ;;
  if is_last (data cur) then ret None else ret (Some (Z.to_nat rand_num)).

Fixpoint first_random_loop (fuel : nat) : ST W nat :=
  match fuel with
  | O => fail RandExhausted
  | S fuel' =>
      o <- first_random_step ;;
      match o with
      | Some i => ret i
      | None => first_random_loop fuel'
      end
  end.

(** [MarkovNode *get_first_random_node(MarkovChain * )].  Every pass
    consumes one [rand()] value, so [length w_rand + 1] passes are enough
    for the loop to either return or exhaust the stream. *)
Definition get_first_random_node : ST W nat :=
  fun w => first_random_loop (S (length (w_rand w))) w.

(** The loop [total += (int)frequency_list[i]->frequency]. *)
Fixpoint freq_total (fl : list MarkovNodeFrequency) (i n : nat) (total : Z) : ST W Z :=
  match n with
  | O => ret total
  | S n' =>
      e <- deref OutOfBounds (fl !! i) ;;
      total' <- c_int_add total (frequency e) ;;
      freq_total fl (S i) n' total'
  end.

(** The loop [if (rand_num < frequency) return markov_node;
    rand_num -= frequency;]. *)
Fixpoint freq_select (fl : list MarkovNodeFrequency) (i n : nat) (rand_num : Z)
  : outcome (option nat) :=
  match n with
  | O => Ok None
  | S n' =>
      match fl !! i with
      | None => Crash OutOfBounds
      | Some e =>
          if Z.ltb rand_num (frequency e) then Ok (Some (markov_node e))
          else freq_select fl (S i) n' (rand_num - frequency e)
      end
  end.

(** [MarkovNode *get_next_random_node(MarkovNode *cur_markov_node)].
    [None] is the [NULL] ([EXIT_SUCCESS]) returned for an empty table.
    The last two statements are the fallback: a uniform entry when the
    scan finds none. *)
Definition get_next_random_node (cur : nat) : ST W (option nat) :=
  cn <- node_at cur ;;
  if Z.eqb (fre_list_size cn) 0 then ret None else
  let n := Z.to_nat (fre_list_size cn) in
  total <- freq_total (frequency_list cn) 0 n 0 ;;
  rand_num <- get_random_number total ;;
  sel <- lift (freq_select (frequency_list cn) 0 n rand_num) ;;
  match sel with
  | Some t => ret (Some t)
  | None =>
      j <- get_random_number (fre_list_size cn) ;;
      e <- deref OutOfBounds (frequency_list cn !! Z.to_nat j) ;;
      ret (Some (markov_node e))
  end.

(** The [for (i = 0; i < max_length - 1; ++i)] loop of
    [generate_random_sequence]; [n] counts the iterations left.  A [NULL]
    next node is dereferenced by [print_func(next_node->data)]. *)
Fixpoint walk_loop (n : nat) (cur : nat) : ST W unit :=
  match n with
  | O => ret tt
  | S n' =>
      next <- get_next_random_node cur ;;
      nx <- deref NullDeref next ;;
      nn <- node_at nx ;;
      emit (OData (data nn)) ;;
      if is_last (data nn) then ret tt
      else emit (OText " ") ;; walk_loop n' nx
  end.

(** [void generate_random_sequence(MarkovChain *, MarkovNode *first_node,
    int max_length)]; [None] is a [NULL] [first_node]. *)
Definition generate_random_sequence (first_node : option nat) (max_length : Z)
  : ST W unit :=
  first <- match first_node with
           | Some n => ret n
           | None => get_first_random_node
           end ;;
  fn <- node_at first ;;
  emit (OData (data fn)) ;;
  emit (OText " ") ;;
  walk_loop (Z.to_nat (max_length - 1)) first.
End walk.

(** ** Reference: selection by cumulative sums *)

(** The first entry whose cumulative frequency exceeds [r]; [acc] is the
    sum of the frequencies before [fl]. *)
Fixpoint select_cumulative (fl : list MarkovNodeFrequency) (acc r : Z) : option nat :=
  match fl with
  | [] => None
  | e :: fl' =>
      if Z.ltb r (acc + frequency e) then Some (markov_node e)
      else select_cumulative fl' (acc + frequency e) r
  end.

Definition total_frequency (fl : list MarkovNodeFrequency) : Z :=
  sum_Z (map frequency fl).

Definition prefix_sum (fl : list MarkovNodeFrequency) (k : nat) : Z :=
  sum_Z (take k (map frequency fl)).

Section sampling.
Implicit Types (fl : list MarkovNodeFrequency).

Lemma freq_select_cumulative pre fl acc r :
  freq_select (pre ++ fl) (length pre) (length fl) (r - acc) = Ok (select_cumulative fl acc r).
Proof.
  revert pre acc. induction fl as [|e fl IH]; intros pre acc; simpl; [done|].
  rewrite list_lookup_middle by done.
  destruct (Z.ltb_spec (r - acc) (frequency e)), (Z.ltb_spec r (acc + frequency e));
    try lia; [done|].
  replace (pre ++ e :: fl) with ((pre ++ [e]) ++ fl) by by rewrite <- app_assoc.
  replace (S (length pre)) with (length (pre ++ [e])) by (rewrite length_app; simpl; lia).
  replace (r - acc - frequency e) with (r - (acc + frequency e)) by lia. apply IH.
Qed.

Lemma freq_select_cumulative0 fl r :
  freq_select fl 0 (length fl) r = Ok (select_cumulative fl 0 r).
Proof.
  pose proof (freq_select_cumulative [] fl 0 r) as Hs. simpl in Hs.
  by rewrite Z.sub_0_r in Hs.
Qed.

(** C11. Equivalence: the subtraction scan of [get_next_random_node]
    ([rand_num -= frequency] until [rand_num < frequency]) selects the same
    entry as the cumulative-sum reference: the first entry whose running
    total exceeds the draw. *)
Theorem freq_select_equiv fl r :
  freq_select fl 0 (length fl) r = Ok (select_cumulative fl 0 r).
Proof. apply freq_select_cumulative0. Qed.

Lemma select_cumulative_in fl acc r t :
  select_cumulative fl acc r = Some t -> t ∈ map markov_node fl.
Proof.
  revert acc. induction fl as [|e fl IH]; intros acc; simpl; [done|].
  rewrite elem_of_cons. destruct (Z.ltb _ _); [intros [=]; auto|eauto].
Qed.

Lemma prefix_sum_nonneg fl k :
  Forall (λ e, 1 <= frequency e) fl -> 0 <= prefix_sum fl k.
Proof.
  intros Hf. apply sum_Z_nonneg, Forall_take, Forall_map.
  eapply Forall_impl; [exact Hf|]. simpl; lia.
Qed.

(** With positive frequencies and distinct targets, [r] selects the
    [k]-th entry exactly when it lies in that entry's interval
    [[prefix, prefix + frequency)]. *)
Lemma select_cumulative_interval fl acc r k e :
  Forall (λ e, 1 <= frequency e) fl -> NoDup (map markov_node fl) ->
  fl !! k = Some e -> acc <= r ->
  select_cumulative fl acc r = Some (markov_node e) <->
  acc + prefix_sum fl k <= r < acc + prefix_sum fl k + frequency e.
Proof.
  unfold prefix_sum. intros Hf. revert acc k.
  induction Hf as [|e0 fl He0 Hf IH]; intros acc k Hnd Hk Hr; [done|].
  simpl in Hnd. apply NoDup_cons in Hnd as [Hnot Hnd].
  destruct k as [|k]; simpl in Hk |- *; simplify_eq.
  - destruct (Z.ltb_spec r (acc + frequency e)); [split; [lia|done]|].
    split; [|lia]. intros Hsel%select_cumulative_in. done.
  - pose proof (prefix_sum_nonneg fl k Hf) as Hp. unfold prefix_sum in Hp.
    destruct (Z.ltb_spec r (acc + frequency e0)).
    + split; [|lia]. intros [= Heq]. destruct Hnot.
      rewrite Heq. apply list_elem_of_fmap_2, list_elem_of_lookup_2 with k. done.
    + rewrite IH by (done || lia). lia.
Qed.

(** A draw below the total always selects some entry. *)
Lemma select_cumulative_total fl acc r :
  Forall (λ e, 1 <= frequency e) fl -> acc <= r < acc + total_frequency fl ->
  exists k e, fl !! k = Some e /\ select_cumulative fl acc r = Some (markov_node e) /\
    acc + prefix_sum fl k <= r < acc + prefix_sum fl k + frequency e.
Proof.
  unfold total_frequency, prefix_sum. intros Hf. revert acc.
  induction Hf as [|e fl He Hf IH]; intros acc Hr; simpl in Hr; [lia|].
  simpl. destruct (Z.ltb_spec r (acc + frequency e)).
  - exists 0%nat, e. simpl. split_and!; [done|done|lia|lia].
  - destruct (IH (acc + frequency e)) as (k & e' & Hk & Hs & Hi); [lia|].
    exists (S k), e'. simpl. split_and!; [done|done|lia|lia].
Qed.
End sampling.

(** ** Weighted sampling: bounds and exact weights *)

Section sampling_theorems.
Implicit Types (fl : list MarkovNodeFrequency).

Lemma freq_select_hits fl r :
  Forall (λ e, 1 <= frequency e) fl -> 0 <= r < total_frequency fl ->
  exists k e, fl !! k = Some e /\
    freq_select fl 0 (length fl) r = Ok (Some (markov_node e)) /\
    prefix_sum fl k <= r < prefix_sum fl k + frequency e.
Proof.
  intros Hf Hr. rewrite freq_select_cumulative0.
  destruct (select_cumulative_total fl 0 r Hf) as (k & e & Hk & Hs & Hi); [lia|].
  exists k, e. rewrite Hs. split_and!; [done|done|lia|lia].
Qed.

(** Bounds: when every frequency is at least 1 and the draw lies in
    [[0, total)], the subtraction scan selects an entry of the table.  It
    never reads past the table and never reaches the fallback, and the
    entry's cumulative interval contains the draw. *)
Theorem freq_select_in_table fl r :
  Forall (λ e, 1 <= frequency e) fl -> 0 <= r < total_frequency fl ->
  exists k e, fl !! k = Some e /\
    freq_select fl 0 (length fl) r = Ok (Some (markov_node e)) /\
    prefix_sum fl k <= r < prefix_sum fl k + frequency e.
Proof. apply freq_select_hits. Qed.

(** C12. Exact weights: with distinct targets and frequencies at least 1,
    exactly [frequency e] of the [total] possible draws make the scan
    select entry [e].  A uniform draw therefore picks [e] with probability
    [frequency e / total], as spec 4.4 requires. *)
Theorem freq_select_weight fl k e :
  Forall (λ e, 1 <= frequency e) fl -> NoDup (map markov_node fl) -> fl !! k = Some e ->
  length (filter (λ r, freq_select fl 0 (length fl) r = Ok (Some (markov_node e)))
                 (seqZ 0 (total_frequency fl))) = Z.to_nat (frequency e).
Proof.
  intros Hf Hnd Hk.
  assert (Htot : 0 <= total_frequency fl).
  { apply sum_Z_nonneg, Forall_map. eapply Forall_impl; [exact Hf|]. simpl; lia. }
  assert (Hend : prefix_sum fl k + frequency e <= total_frequency fl).
  { unfold prefix_sum, total_frequency.
    rewrite <- (take_drop (S k) (map frequency fl)) at 2.
    rewrite (take_S_r _ _ (frequency e)) by (by rewrite list_lookup_fmap, Hk).
    rewrite !sum_Z_app. simpl.
    assert (0 <= sum_Z (drop (S k) (map frequency fl))); [|lia].
    apply sum_Z_nonneg, Forall_drop, Forall_map. eapply Forall_impl; [exact Hf|]. simpl; lia. }
  rewrite (filter_ext_in _ (λ r, prefix_sum fl k <= r < prefix_sum fl k + frequency e)).
  - rewrite <- (Z2Nat.id (total_frequency fl)) by done. rewrite count_interval.
    + f_equal. lia.
    + pose proof (prefix_sum_nonneg fl k Hf). pose proof (Forall_lookup_1 _ _ _ _ Hf Hk) as He.
      simpl in He. lia.
    + lia.
  - intros r Hr%elem_of_seqZ. rewrite freq_select_cumulative0.
    rewrite <- (Z.add_0_l (prefix_sum fl k)).
    rewrite <- (select_cumulative_interval fl 0 r k e Hf Hnd Hk) by lia.
    split; [by intros [= ->]|by intros ->].
Qed.
End sampling_theorems.

(** ** [get_next_random_node] *)

Section next_node.
Context {D : Type} `{MarkovChainFuncs D}.
Implicit Types (fl : list MarkovNodeFrequency) (w : World D).

Lemma freq_total_ok pre fl acc w :
  Forall (λ e, 0 <= frequency e) fl -> 0 <= acc -> acc + total_frequency fl <= INT_MAX ->
  freq_total (pre ++ fl) (length pre) (length fl) acc w = Ok (acc + total_frequency fl, w).
Proof.
  unfold total_frequency. intros Hf. revert pre acc.
  induction Hf as [|e fl He Hf IH]; intros pre acc Hacc Hmax; simpl in *.
  { by rewrite Z.add_0_r. }
  assert (Hrest : 0 <= sum_Z (map frequency fl)).
  { apply sum_Z_nonneg, Forall_map. done. }
  unfold bind at 1. rewrite list_lookup_middle by done. simpl.
  unfold bind at 1. rewrite c_int_add_ok by (unfold INT_MIN; lia).
  replace (pre ++ e :: fl) with ((pre ++ [e]) ++ fl) by by rewrite <- app_assoc.
  replace (S (length pre)) with (length (pre ++ [e])) by (rewrite length_app; simpl; lia).
  rewrite IH by lia. f_equal. f_equal. lia.
Qed.

Lemma freq_total_overflow pre fl acc w :
  Forall (λ e, 0 <= frequency e) fl -> 0 <= acc <= INT_MAX ->
  INT_MAX < acc + total_frequency fl ->
  freq_total (pre ++ fl) (length pre) (length fl) acc w = Crash IntOverflow.
Proof.
  unfold total_frequency. intros Hf. revert pre acc.
  induction Hf as [|e fl He Hf IH]; intros pre acc Hacc Hmax; simpl in *; [lia|].
  unfold bind at 1. rewrite list_lookup_middle by done. simpl.
  destruct (Z.le_gt_cases (acc + frequency e) INT_MAX) as [Hin|Hout].
  - unfold bind at 1. rewrite c_int_add_ok by (unfold INT_MIN; lia).
    replace (pre ++ e :: fl) with ((pre ++ [e]) ++ fl) by by rewrite <- app_assoc.
    replace (S (length pre)) with (length (pre ++ [e])) by (rewrite length_app; simpl; lia).
    apply IH; lia.
  - unfold bind. by rewrite c_int_add_overflow.
Qed.

Lemma total_frequency_pos fl :
  Forall (λ e, 1 <= frequency e) fl -> fl <> [] -> 0 < total_frequency fl.
Proof.
  intros Hf Hne. destruct Hf as [|e fl He Hf]; [done|].
  unfold total_frequency. simpl.
  assert (0 <= sum_Z (map frequency fl)); [|lia].
  apply sum_Z_nonneg, Forall_map. eapply Forall_impl; [exact Hf|]. simpl; lia.
Qed.

(** Entries of a well-formed node have frequencies at least 1. *)
Lemma node_wf_freqs n (cn : MarkovNode D) :
  node_wf n cn -> Forall (λ e, 1 <= frequency e) (frequency_list cn).
Proof. intros (_ & Hf & _). eapply Forall_impl; [exact Hf|]. by intros e [_ ?]. Qed.
End next_node.

Section next_node_theorems.
Context {D : Type} `{MarkovChainFuncs D}.
Implicit Types (w : World D).

Lemma get_next_random_node_run w cur cn r rs :
  ll_nodes (w_db w) !! cur = Some cn -> node_wf (length (ll_nodes (w_db w))) cn ->
  frequency_list cn <> [] -> total_frequency (frequency_list cn) <= INT_MAX ->
  w_rand w = r :: rs -> 0 <= r ->
  exists k e, frequency_list cn !! k = Some e /\
    (markov_node e < length (ll_nodes (w_db w)))%nat /\
    get_next_random_node cur w =
      Ok (Some (markov_node e), mkWorld (w_db w) rs (w_heap w) (w_out w)) /\
    prefix_sum (frequency_list cn) k <= Z.rem r (total_frequency (frequency_list cn))
      < prefix_sum (frequency_list cn) k + frequency e.
Proof.
  intros Hcn Hwf Hne Hmax Hr Hr0.
  pose proof (node_wf_freqs _ _ Hwf) as Hf. destruct Hwf as (Hsize & Hent & _).
  pose proof (total_frequency_pos _ Hf Hne) as Htot.
  destruct (freq_select_hits (frequency_list cn) (Z.rem r (total_frequency (frequency_list cn))) Hf)
    as (k & e & Hk & Hsel & Hi); [apply rem_range; lia|].
  exists k, e. split_and!; [done|by destruct (Forall_lookup_1 _ _ _ _ Hent Hk)| |lia..].
  unfold get_next_random_node. unfold bind at 1. rewrite (node_at_run _ _ _ Hcn).
  rewrite Hsize. destruct (Z.eqb_spec (Z.of_nat (length (frequency_list cn))) 0) as [Hz|_].
  { destruct (frequency_list cn); simpl in Hz; [done|lia]. }
  rewrite Nat2Z.id.
  pose proof (freq_total_ok [] (frequency_list cn) 0 w) as Ht. simpl in Ht.
  erewrite bind_Ok; [|apply Ht; first [lia|eapply Forall_impl; [exact Hf|]; intros; simpl in *; lia]].
  unfold get_random_number. unfold bind at 1 2. rewrite (c_rand_run _ _ _ Hr).
  rewrite c_rem_ok by lia. unfold lift. rewrite Z.add_0_l, Hsel. done.
Qed.

(** C13. Functional behaviour of [get_next_random_node] on a well-formed
    node with a non-empty table whose total fits in an [int].  It consumes
    exactly one [rand()] value [r] and returns the target of the entry
    whose cumulative interval contains [r % total].  The target is a state
    of the store, and nothing else of the world changes. *)
Theorem get_next_random_node_spec w cur cn r rs :
  ll_nodes (w_db w) !! cur = Some cn -> node_wf (length (ll_nodes (w_db w))) cn ->
  frequency_list cn <> [] -> total_frequency (frequency_list cn) <= INT_MAX ->
  w_rand w = r :: rs -> 0 <= r ->
  exists k e, frequency_list cn !! k = Some e /\
    (markov_node e < length (ll_nodes (w_db w)))%nat /\
    get_next_random_node cur w =
      Ok (Some (markov_node e), mkWorld (w_db w) rs (w_heap w) (w_out w)) /\
    prefix_sum (frequency_list cn) k <= Z.rem r (total_frequency (frequency_list cn))
      < prefix_sum (frequency_list cn) k + frequency e.
Proof. apply get_next_random_node_run. Qed.

(** C14. Overflow: when a table's frequencies sum past [INT_MAX],
    summing them into [int total] overflows, which is undefined
    behaviour.  It happens before any [rand()] value is drawn.  Spec 4.2
    requires counts to stay within a 32-bit [int]; the code does not
    check. *)
Theorem get_next_random_node_overflow w cur cn :
  ll_nodes (w_db w) !! cur = Some cn -> node_wf (length (ll_nodes (w_db w))) cn ->
  INT_MAX < total_frequency (frequency_list cn) ->
  get_next_random_node cur w = Crash IntOverflow.
Proof.
  intros Hcn Hwf Hmax.
  pose proof (node_wf_freqs _ _ Hwf) as Hf. destruct Hwf as (Hsize & _ & _).
  unfold get_next_random_node. unfold bind at 1. rewrite (node_at_run _ _ _ Hcn).
  rewrite Hsize. destruct (Z.eqb_spec (Z.of_nat (length (frequency_list cn))) 0) as [Hz|_].
  { destruct (frequency_list cn); simpl in Hz; [unfold total_frequency, INT_MAX in *; simpl in *; lia|lia]. }
  rewrite Nat2Z.id.
  pose proof (freq_total_overflow [] (frequency_list cn) 0 w) as Ht. simpl in Ht.
  erewrite bind_Crash; [done|].
  apply Ht; [eapply Forall_impl; [exact Hf|]; intros; simpl in *; lia|unfold INT_MAX; lia|lia].
Qed.

Lemma get_next_random_node_empty_run w cur cn :
  ll_nodes (w_db w) !! cur = Some cn -> fre_list_size cn = 0 ->
  get_next_random_node cur w = Ok (None, w).
Proof.
  intros Hcn Hz. unfold get_next_random_node. unfold bind at 1.
  rewrite (node_at_run _ _ _ Hcn), Hz. done.
Qed.

(** An empty table: [get_next_random_node] returns [NULL] without
    drawing a random number and without changing anything. *)
Theorem get_next_random_node_empty w cur cn :
  ll_nodes (w_db w) !! cur = Some cn -> fre_list_size cn = 0 ->
  get_next_random_node cur w = Ok (None, w).
Proof. apply get_next_random_node_empty_run. Qed.
End next_node_theorems.

(** ** [get_first_random_node] *)

Section first_node.
Context {D : Type} `{MarkovChainFuncs D}.
Implicit Types (w : World D).

Lemma first_random_step_run w r rs n :
  w_rand w = r :: rs -> ll_size (w_db w) <> 0 ->
  ll_nodes (w_db w) !! Z.to_nat (Z.rem r (ll_size (w_db w))) = Some n ->
  first_random_step w =
    Ok (if is_last (data n) then None else Some (Z.to_nat (Z.rem r (ll_size (w_db w)))),
        mkWorld (w_db w) rs (w_heap w) (w_out w)).
Proof.
  intros Hr Hs Hn. unfold first_random_step, get_random_number.
  unfold bind at 1 2 3. simpl. rewrite (c_rand_run _ _ _ Hr), c_rem_ok by done.
  unfold bind, deref. simpl. rewrite Hn. unfold ret. simpl. by destruct (is_last (data n)).
Qed.

(** A pass of the loop only consumes [rand()]; when it ends the loop it
    names a non-terminal node. *)
Lemma first_random_step_inv w o w' :
  first_random_step w = Ok (o, w') ->
  w_db w' = w_db w /\ w_heap w' = w_heap w /\ w_out w' = w_out w /\
  forall i, o = Some i -> exists n, ll_nodes (w_db w) !! i = Some n /\ is_last (data n) = false.
Proof.
  unfold first_random_step, get_random_number, get_db, c_rand, c_rem, bind, deref, ret, fail.
  destruct (w_rand w) as [|r rs]; [done|]. simpl.
  destruct (Z.eqb _ 0); [done|]. simpl.
  destruct (ll_nodes (w_db w) !! _) as [n|] eqn:Hn; [|done]. simpl.
  destruct (is_last (data n)) eqn:Hl; intros [= <- <-]; simpl; split_and!; try done.
  intros i [= <-]. eauto.
Qed.

Lemma first_random_loop_inv fuel w i w' :
  first_random_loop fuel w = Ok (i, w') ->
  (exists n, ll_nodes (w_db w) !! i = Some n /\ is_last (data n) = false) /\
  w_db w' = w_db w /\ w_heap w' = w_heap w /\ w_out w' = w_out w.
Proof.
  revert w. induction fuel as [|fuel IH]; intros w Hrun; simpl in Hrun; [done|].
  unfold bind in Hrun. destruct (first_random_step w) as [[o w1]|c] eqn:Hs; [|done].
  destruct (first_random_step_inv _ _ _ Hs) as (Hdb & Hh & Ho & Hsome).
  destruct o as [j|].
  - injection Hrun as <- <-. split_and!; auto.
  - destruct (IH _ Hrun) as (Hn & ? & ? & ?). rewrite Hdb in Hn.
    split_and!; congruence.
Qed.

Lemma get_first_random_node_inv w i w' :
  get_first_random_node w = Ok (i, w') ->
  (exists n, ll_nodes (w_db w) !! i = Some n /\ is_last (data n) = false) /\
  w_db w' = w_db w /\ w_heap w' = w_heap w /\ w_out w' = w_out w.
Proof. apply first_random_loop_inv. Qed.

(** The draw [r] names a non-terminal state. *)
Definition selects_nonterminal (db : LinkedList (MarkovNode D)) (r : Z) : Prop :=
  exists n, ll_nodes db !! Z.to_nat (Z.rem r (ll_size db)) = Some n /\ is_last (data n) = false.

Lemma first_random_loop_live fuel w :
  ll_wf (w_db w) -> 0 < ll_size (w_db w) -> Forall (λ r, 0 <= r) (w_rand w) ->
  (length (w_rand w) < fuel)%nat -> Exists (selects_nonterminal (w_db w)) (w_rand w) ->
  exists i w', first_random_loop fuel w = Ok (i, w').
Proof.
  intros Hll Hpos Hnn. revert fuel.
  remember (w_rand w) as rs eqn:Hrs. revert w Hll Hpos Hrs.
  induction Hnn as [|r rs Hr Hnn IH]; intros w Hll Hpos Hrs fuel Hfuel Hex;
    [by apply Exists_nil in Hex|].
  destruct fuel as [|fuel]; [simpl in Hfuel; lia|]. simpl.
  assert (Hin : (Z.to_nat (Z.rem r (ll_size (w_db w))) < length (ll_nodes (w_db w)))%nat).
  { pose proof (rem_range r (ll_size (w_db w)) Hr Hpos). unfold ll_wf in Hll. lia. }
  destruct (lookup_lt_is_Some_2 _ _ Hin) as [n Hn].
  unfold bind at 1. rewrite (first_random_step_run w r rs n) by (done || lia).
  destruct (is_last (data n)) eqn:Hl; [|eauto].
  apply IH; simpl; [done|done|done|simpl in Hfuel; lia|].
  apply Exists_cons in Hex as [(n' & Hn' & Hl')|Hex]; [|done].
  rewrite Hn in Hn'. congruence.
Qed.

(** C15. Safety: when [get_first_random_node] returns, it returns a state
    of the store that is not terminal.  It has changed nothing but the
    [rand()] stream. *)
Theorem get_first_random_node_nonterminal w i w' :
  get_first_random_node w = Ok (i, w') ->
  (exists n, ll_nodes (w_db w) !! i = Some n /\ is_last (data n) = false) /\
  w_db w' = w_db w /\ w_heap w' = w_heap w /\ w_out w' = w_out w.
Proof. apply get_first_random_node_inv. Qed.

(** C16. Liveness: on a non-empty store whose size counter is right, with
    a [rand()] stream of values [>= 0] containing a draw that names a
    non-terminal state, [get_first_random_node] returns.  The rejection
    loop terminates once such a draw comes. *)
Theorem get_first_random_node_live w :
  ll_wf (w_db w) -> 0 < ll_size (w_db w) -> Forall (λ r, 0 <= r) (w_rand w) ->
  Exists (selects_nonterminal (w_db w)) (w_rand w) ->
  exists i w', get_first_random_node w = Ok (i, w').
Proof. intros. apply first_random_loop_live; auto. Qed.

(** An empty store: [database->size] is 0, so [get_first_random_node]
    computes [rand() % 0], which is undefined behaviour.  The spec leaves
    walks on an empty store to the caller but allows failing fast; the
    code does neither. *)
Theorem get_first_random_node_empty_store w r rs :
  ll_size (w_db w) = 0 -> w_rand w = r :: rs ->
  get_first_random_node w = Crash DivByZero.
Proof.
  intros Hs Hr. unfold get_first_random_node. rewrite Hr. simpl.
  unfold first_random_step, get_random_number, bind, get_db, c_rand, c_rem.
  rewrite Hr. simpl. by rewrite Hs.
Qed.

Lemma first_random_loop_all_terminal fuel w :
  ll_wf (w_db w) -> 0 < ll_size (w_db w) -> Forall (λ r, 0 <= r) (w_rand w) ->
  Forall (λ n, is_last (data n) = true) (ll_nodes (w_db w)) ->
  (length (w_rand w) < fuel)%nat ->
  first_random_loop fuel w = Crash RandExhausted.
Proof.
  intros Hll Hpos Hnn Hall. revert fuel.
  remember (w_rand w) as rs eqn:Hrs. revert w Hll Hpos Hrs Hall.
  induction Hnn as [|r rs Hr Hnn IH]; intros w Hll Hpos Hrs Hall fuel Hfuel;
    (destruct fuel as [|fuel]; [simpl in Hfuel; lia|]); simpl.
  - unfold bind, first_random_step, get_random_number, bind, get_db, c_rand.
    by rewrite <- Hrs.
  - assert (Hin : (Z.to_nat (Z.rem r (ll_size (w_db w))) < length (ll_nodes (w_db w)))%nat).
    { pose proof (rem_range r (ll_size (w_db w)) Hr Hpos). unfold ll_wf in Hll. lia. }
    destruct (lookup_lt_is_Some_2 _ _ Hin) as [n Hn].
    unfold bind at 1. rewrite (first_random_step_run w r rs n) by (done || lia).
    rewrite (Forall_lookup_1 _ _ _ _ Hall Hn).
    apply IH; simpl; [done|done|done|done|simpl in Hfuel; lia].
Qed.

(** C17. When every state is terminal, [get_first_random_node] never
    returns.  For every finite [rand()] stream it rejects every draw and
    runs the stream out, so the C [while] loop spins forever.  The spec
    calls this a caller-construction error. *)
Theorem get_first_random_node_all_terminal w :
  ll_wf (w_db w) -> 0 < ll_size (w_db w) -> Forall (λ r, 0 <= r) (w_rand w) ->
  Forall (λ n, is_last (data n) = true) (ll_nodes (w_db w)) ->
  get_first_random_node w = Crash RandExhausted.
Proof. intros. apply first_random_loop_all_terminal; auto. Qed.
End first_node.

(** ** The walk only reads the database *)

Section reads_only.
Context {D : Type} `{MarkovChainFuncs D}.

(** A computation that changes nothing but the [rand()] stream. *)
Definition reads_only {A} (m : ST (World D) A) : Prop :=
  forall w a w', m w = Ok (a, w') ->
    w_db w' = w_db w /\ w_heap w' = w_heap w /\ w_out w' = w_out w.

Lemma reads_only_bind {A B} (m : ST (World D) A) (f : A -> ST (World D) B) :
  reads_only m -> (forall a, reads_only (f a)) -> reads_only (bind m f).
Proof.
  intros Hm Hf w b w' Hrun. apply bind_Ok_inv in Hrun as (a & w1 & H1 & H2).
  destruct (Hm _ _ _ H1) as (? & ? & ?), (Hf _ _ _ _ H2) as (? & ? & ?).
  split_and!; congruence.
Qed.

Lemma reads_only_ret {A} (a : A) : reads_only (ret a).
Proof. by intros w b w' [= _ <-]. Qed.

Lemma reads_only_fail {A} c : reads_only (A:=A) (fail c).
Proof. done. Qed.

Lemma reads_only_deref {A} c (o : option A) : reads_only (deref c o).
Proof. destruct o; [apply reads_only_ret|apply reads_only_fail]. Qed.

Lemma reads_only_lift {A} (o : outcome A) : reads_only (lift o).
Proof. destruct o; [apply reads_only_ret|apply reads_only_fail]. Qed.

Lemma reads_only_c_rand : reads_only c_rand.
Proof. intros w a w'. unfold c_rand. destruct (w_rand w); [done|]. by intros [= _ <-]. Qed.

Lemma reads_only_c_rem a b : reads_only (c_rem a b).
Proof. unfold c_rem. destruct (Z.eqb b 0); [apply reads_only_fail|apply reads_only_ret]. Qed.

Lemma reads_only_c_int_add a b : reads_only (c_int_add a b).
Proof. unfold c_int_add. destruct (in_int _); [apply reads_only_ret|apply reads_only_fail]. Qed.

Lemma reads_only_get_db : reads_only get_db.
Proof. by intros w a w' [= _ <-]. Qed.
End reads_only.

#[export] Hint Resolve reads_only_ret reads_only_fail reads_only_deref reads_only_lift
  reads_only_c_rand reads_only_c_rem reads_only_c_int_add reads_only_get_db : markov.

(** Decompose a computation into the primitives above. *)
Ltac reads_only_tac :=
  repeat first
    [ solve [eauto with markov]
    | apply reads_only_bind; [|intros]
    | case_match ].


(** ** The walk: crashes, output shape and termination *)

Section walk_theorems.
Context {D : Type} `{MarkovChainFuncs D}.
Implicit Types (w : World D).

Lemma reads_only_node_at i : reads_only (D:=D) (node_at i).
Proof. unfold node_at. reads_only_tac. Qed.

Lemma reads_only_freq_total fl i n acc : reads_only (D:=D) (freq_total fl i n acc).
Proof.
  revert i acc. induction n as [|n IH]; intros i acc; simpl; [eauto with markov|].
  reads_only_tac.
Qed.

Lemma reads_only_get_next_random_node cur : reads_only (D:=D) (get_next_random_node cur).
Proof.
  unfold get_next_random_node, get_random_number.
  reads_only_tac; auto using reads_only_node_at, reads_only_freq_total.
Qed.

Lemma emit_run w e :
  emit e w = Ok (tt, mkWorld (w_db w) (w_rand w) (w_heap w) (w_out w ++ [e])).
Proof. reflexivity. Qed.

(** How many payloads an output prints. *)
Fixpoint count_data (evs : list (out_event D)) : nat :=
  match evs with
  | [] => 0
  | OData _ :: evs' => S (count_data evs')
  | _ :: evs' => count_data evs'
  end.

Lemma count_data_app evs1 evs2 : count_data (evs1 ++ evs2) = (count_data evs1 + count_data evs2)%nat.
Proof. induction evs1 as [|[] evs1 IH]; simpl; lia. Qed.

(** The output ends with the delimiter, or with a terminal payload. *)
Definition ends_properly (evs : list (out_event D)) : Prop :=
  (exists pre, evs = pre ++ [OText " "]) \/
  (exists pre d, evs = pre ++ [OData d] /\ is_last d = true).

Lemma ends_properly_app pre evs : ends_properly evs -> ends_properly (pre ++ evs).
Proof.
  intros [(p & ->)|(p & d & -> & Hd)]; [left; exists (pre ++ p)|right; exists (pre ++ p), d];
    by rewrite <- app_assoc.
Qed.

Lemma walk_loop_output n cur w w' :
  walk_loop n cur w = Ok (tt, w') ->
  w_db w' = w_db w /\ w_heap w' = w_heap w /\
  exists evs, w_out w' = w_out w ++ evs /\ (count_data evs <= n)%nat /\
    (evs = [] \/ ends_properly evs).
Proof.
  revert cur w. induction n as [|n IH]; intros cur w Hrun; simpl in Hrun.
  { injection Hrun as <-. split_and!; [done|done|]. exists []. rewrite app_nil_r. auto. }
  apply bind_Ok_inv in Hrun as (next & w1 & Hn & Hrun).
  destruct (reads_only_get_next_random_node cur _ _ _ Hn) as (Hdb1 & Hh1 & Ho1).
  apply bind_Ok_inv in Hrun as (nx & w1' & Hd & Hrun).
  destruct next as [nx'|]; [|done]. injection Hd as -> <-.
  apply bind_Ok_inv in Hrun as (nn & w2 & Hnn & Hrun).
  destruct (reads_only_node_at nx _ _ _ Hnn) as (Hdb2 & Hh2 & Ho2).
  unfold bind at 1 in Hrun. rewrite emit_run in Hrun. simpl in Hrun.
  destruct (is_last (data nn)) eqn:Hl.
  - injection Hrun as <-. simpl. split_and!; [congruence|congruence|].
    exists [OData (data nn)]. split_and!; [congruence|simpl; lia|].
    right. right. exists [], (data nn). done.
  - unfold bind at 1 in Hrun. rewrite emit_run in Hrun. simpl in Hrun.
    destruct (IH _ _ Hrun) as (Hdb3 & Hh3 & evs & Ho3 & Hc & Hend). simpl in *.
    split_and!; [congruence|congruence|].
    exists ([OData (data nn); OText " "] ++ evs). split_and!.
    + rewrite Ho3, Ho2, Ho1, <- !app_assoc. done.
    + simpl. lia.
    + right. destruct Hend as [->|Hend]; [left; by exists [OData (data nn)]|].
      by apply ends_properly_app.
Qed.

(** C18. Spec divergence (markov_chain.c:162-165, 198-199).  A walk that
    reaches a state with an empty table crashes.  [get_next_random_node]
    returns [NULL] and [generate_random_sequence] dereferences it in
    [print_func(next_node->data)].  Spec 4.4 says an empty table ends the
    walk normally.  Here the walk starts at such a state with room for at
    least one more step. *)
Theorem generate_random_sequence_empty_table w first cn max_length :
  ll_nodes (w_db w) !! first = Some cn -> fre_list_size cn = 0 -> 2 <= max_length ->
  generate_random_sequence (Some first) max_length w = Crash NullDeref.
Proof.
  intros Hcn Hz Hmax. unfold generate_random_sequence.
  rewrite bind_ret_l. unfold bind at 1. rewrite (node_at_run _ _ _ Hcn).
  unfold bind at 1. rewrite emit_run. unfold bind at 1. rewrite emit_run.
  destruct (Z.to_nat (max_length - 1)) as [|n] eqn:Hn; [lia|]. simpl.
  unfold bind at 1. rewrite (get_next_random_node_empty_run _ _ cn); [done| |done].
  done.
Qed.

Lemma generate_random_sequence_output first max_length w w' :
  generate_random_sequence first max_length w = Ok (tt, w') ->
  w_db w' = w_db w /\ exists evs, w_out w' = w_out w ++ evs /\
    (count_data evs <= Z.to_nat (Z.max 1 max_length))%nat /\ ends_properly evs.
Proof.
  unfold generate_random_sequence. intros Hrun.
  apply bind_Ok_inv in Hrun as (i & w1 & Hi & Hrun).
  assert (Hf1 : w_db w1 = w_db w /\ w_out w1 = w_out w).
  { destruct first as [j|]; [by injection Hi as <- <-|].
    by destruct (get_first_random_node_inv _ _ _ Hi) as (_ & ? & _ & ?). }
  apply bind_Ok_inv in Hrun as (n & w2 & Hn & Hrun).
  destruct (reads_only_node_at _ _ _ _ Hn) as (Hdb2 & _ & Ho2).
  unfold bind at 1 in Hrun. rewrite emit_run in Hrun.
  unfold bind at 1 in Hrun. rewrite emit_run in Hrun.
  destruct (walk_loop_output _ _ _ _ Hrun) as (Hdb3 & _ & evs & Ho3 & Hc & Hend).
  destruct Hf1 as [Hdb1 Ho1]. simpl in *. split; [congruence|].
  exists ([OData (data n); OText " "] ++ evs). split_and!.
  - rewrite Ho3, Ho2, Ho1, <- !app_assoc. done.
  - simpl. lia.
  - destruct Hend as [->|Hend]; [left; by exists [OData (data n)]|by apply ends_properly_app].
Qed.

(** C19. Spec divergence (markov_chain.c:193-206).  When
    [generate_random_sequence] completes, its output ends with the
    delimiter [" "] unless the last state printed is terminal.  A walk cut
    off by [max_length], or of length 1, leaves a trailing delimiter.  Spec
    4.4 says there is no trailing delimiter after the final state. *)
Theorem generate_random_sequence_trailing_delimiter first max_length w w' :
  generate_random_sequence first max_length w = Ok (tt, w') ->
  exists evs, w_out w' = w_out w ++ evs /\
    ((exists pre, evs = pre ++ [OText " "]) \/
     (exists pre d, evs = pre ++ [OData d] /\ is_last d = true)).
Proof.
  intros Hrun. destruct (generate_random_sequence_output _ _ _ _ Hrun) as (_ & evs & ? & _ & ?).
  eauto.
Qed.

(** Bounds: a completed walk prints at most [max_length] states (at
    least the start state is always printed), and it leaves the database
    unchanged. *)
Theorem generate_random_sequence_length_bound first max_length w w' :
  generate_random_sequence first max_length w = Ok (tt, w') ->
  w_db w' = w_db w /\ exists evs, w_out w' = w_out w ++ evs /\
    (count_data evs <= Z.to_nat (Z.max 1 max_length))%nat.
Proof.
  intros Hrun. destruct (generate_random_sequence_output _ _ _ _ Hrun) as (? & evs & ? & ? & _).
  eauto.
Qed.
End walk_theorems.


(** ** Termination of the walk (spec section 8) *)

Section walk_live.
Context {D : Type} `{MarkovChainFuncs D}.
Implicit Types (w : World D).

(** Every non-terminal state can be left: its table is non-empty and its
    total fits in an [int]. *)
Definition walkable (db : LinkedList (MarkovNode D)) : Prop :=
  forall i n, ll_nodes db !! i = Some n -> is_last (data n) = false ->
    frequency_list n <> [] /\ total_frequency (frequency_list n) <= INT_MAX.

(** A walk loop with enough non-negative draws completes.  It leaves the
    database and the allocator alone and consumes at most [n] draws. *)
Lemma walk_loop_live n cur cn w :
  db_wf (w_db w) -> walkable (w_db w) ->
  ll_nodes (w_db w) !! cur = Some cn -> is_last (data cn) = false ->
  Forall (λ r, 0 <= r) (w_rand w) -> (n <= length (w_rand w))%nat ->
  exists w', walk_loop n cur w = Ok (tt, w') /\ w_db w' = w_db w /\ w_heap w' = w_heap w /\
    exists k, (k <= n)%nat /\ w_rand w' = drop k (w_rand w).
Proof.
  revert cur cn w.
  induction n as [|n IH]; intros cur cn [db rs hs out] Hwf Hwk Hcn Hl Hnn Hlen; simpl in *.
  { eexists. split_and!; [reflexivity|done|done|exists 0%nat; split; [lia|done]]. }
  destruct rs as [|r rs]; simpl in Hlen; [lia|]. apply Forall_cons in Hnn as [Hr Hnn].
  pose proof Hwf as (Hll & Hu & Hn). pose proof Hn as Hn'. rewrite Forall_lookup in Hn'.
  destruct (Hwk _ _ Hcn Hl) as [Hne Hmax].
  destruct (get_next_random_node_run (mkWorld db (r :: rs) hs out) cur cn r rs)
    as (k & e & Hk & Ht & Hrun & _); simpl; eauto.
  unfold bind at 1. rewrite Hrun. simpl.
  destruct (lookup_lt_is_Some_2 _ _ Ht) as [nt Hnt].
  rewrite bind_ret_l. unfold bind at 1. rewrite (node_at_run _ _ nt) by done.
  unfold bind at 1. rewrite emit_run. simpl.
  destruct (is_last (data nt)) eqn:Hlt.
  { eexists. split_and!; [reflexivity|done|done|exists 1%nat; split; [lia|done]]. }
  unfold bind at 1. rewrite emit_run. simpl.
  destruct (IH (markov_node e) nt (mkWorld db rs hs ((out ++ [OData (data nt)]) ++ [OText " "])))
    as (w' & Hw & Hd & Hh & j & Hj & Hr'); simpl; auto with lia.
  exists w'. split_and!; [done|done|done|]. exists (S j). split; [lia|done].
Qed.

(** A walk from a non-terminal state with enough non-negative draws
    completes, leaving the database and the allocator alone and consuming
    at most [max_length - 1] draws. *)
Lemma generate_random_sequence_walk w first cn max_length :
  db_wf (w_db w) -> walkable (w_db w) ->
  ll_nodes (w_db w) !! first = Some cn -> is_last (data cn) = false ->
  Forall (λ r, 0 <= r) (w_rand w) -> (Z.to_nat (max_length - 1) <= length (w_rand w))%nat ->
  exists w', generate_random_sequence (Some first) max_length w = Ok (tt, w') /\
    w_db w' = w_db w /\ w_heap w' = w_heap w /\
    exists k, (k <= Z.to_nat (max_length - 1))%nat /\ w_rand w' = drop k (w_rand w).
Proof.
  intros Hwf Hwk Hcn Hl Hnn Hlen. unfold generate_random_sequence.
  rewrite bind_ret_l. unfold bind at 1. rewrite (node_at_run _ _ _ Hcn).
  unfold bind at 1. rewrite emit_run. unfold bind at 1. rewrite emit_run.
  destruct (walk_loop_live (Z.to_nat (max_length - 1)) first cn
              (mkWorld (w_db w) (w_rand w) (w_heap w) ((w_out w ++ [OData (data cn)]) ++ [OText " "])))
    as (w' & Hrun & Hd & Hh & Hk); simpl; auto.
  exists w'. by rewrite Hd, Hh.
Qed.

Lemma generate_random_sequence_runs w first cn max_length :
  db_wf (w_db w) -> walkable (w_db w) ->
  ll_nodes (w_db w) !! first = Some cn -> is_last (data cn) = false ->
  Forall (λ r, 0 <= r) (w_rand w) -> (Z.to_nat (max_length - 1) <= length (w_rand w))%nat ->
  exists w', generate_random_sequence (Some first) max_length w = Ok (tt, w').
Proof.
  intros Hwf Hwk Hcn Hl Hnn Hlen.
  destruct (generate_random_sequence_walk w first cn max_length) as (w' & Hrun & _); eauto.
Qed.

(** C20. Termination: take a well-formed database in which every
    non-terminal state has a non-empty table with an [int]-sized total.
    A walk from a non-terminal state with [max_length - 1] non-negative
    [rand()] values available completes without crashing.  It stops at a
    terminal state or at the length bound. *)
Theorem generate_random_sequence_live w first cn max_length :
  db_wf (w_db w) -> walkable (w_db w) ->
  ll_nodes (w_db w) !! first = Some cn -> is_last (data cn) = false ->
  Forall (λ r, 0 <= r) (w_rand w) -> (Z.to_nat (max_length - 1) <= length (w_rand w))%nat ->
  exists w', generate_random_sequence (Some first) max_length w = Ok (tt, w').
Proof. apply generate_random_sequence_runs. Qed.
(** An executable check of [walkable]. *)
Definition walkableb (db : LinkedList (MarkovNode D)) : bool :=
  forallb (λ n, is_last (data n) ||
                (match frequency_list n with [] => false | _ => true end &&
                 Z.leb (total_frequency (frequency_list n)) INT_MAX))
          (ll_nodes db).

Lemma walkableb_sound db : walkableb db = true -> walkable db.
Proof.
  unfold walkableb. rewrite forallb_forall. intros Hb i n Hn Hl.
  pose proof (Hb n (proj1 (list_elem_of_In _ _) (list_elem_of_lookup_2 _ _ _ Hn))) as Hbn.
  rewrite Hl, orb_false_l in Hbn. apply andb_true_iff in Hbn as [Hne Hmax].
  split; [|by apply Z.leb_le]. intros Heq. by rewrite Heq in Hne.
Qed.

(** [terminates_within db d i]: every walk from state [i] prints a
    terminal state within [d] more states. *)
Fixpoint terminates_within (db : LinkedList (MarkovNode D)) (d : nat) (i : nat) : bool :=
  match d with
  | O => false
  | S d' =>
      match ll_nodes db !! i with
      | None => false
      | Some n =>
          forallb (λ e, match ll_nodes db !! markov_node e with
                        | Some m => is_last (data m) || terminates_within db d' (markov_node e)
                        | None => false
                        end) (frequency_list n)
      end
  end.

(** A walk from a state whose walks all end within [d <= n] states, given
    [d] non-negative [rand()] values, returns and prints a terminal state
    last. *)
Lemma walk_loop_ends d n cur cn w :
  db_wf (w_db w) -> walkable (w_db w) ->
  ll_nodes (w_db w) !! cur = Some cn -> is_last (data cn) = false ->
  terminates_within (w_db w) d cur = true -> (d <= n)%nat ->
  Forall (λ r, 0 <= r) (w_rand w) -> (d <= length (w_rand w))%nat ->
  exists w' pre d', walk_loop n cur w = Ok (tt, w') /\ w_db w' = w_db w /\
    w_out w' = w_out w ++ pre ++ [OData d'] /\ is_last d' = true.
Proof.
  revert n cur cn w.
  induction d as [|d IH]; intros n cur cn [db rs hs out] Hwf Hwk Hcn Hl Ht Hdn Hnn Hlen;
    simpl in *; [done|].
  destruct n as [|n]; [lia|]. destruct rs as [|r rs]; simpl in Hlen; [lia|].
  apply Forall_cons in Hnn as [Hr Hnn]. rewrite Hcn, forallb_forall in Ht.
  pose proof Hwf as (Hll & Hu & Hn). pose proof Hn as Hn'. rewrite Forall_lookup in Hn'.
  destruct (Hwk _ _ Hcn Hl) as [Hne Hmax].
  destruct (get_next_random_node_run (mkWorld db (r :: rs) hs out) cur cn r rs)
    as (k & e & Hk & Het & Hrun & _); simpl; eauto.
  simpl. unfold bind at 1. rewrite Hrun. simpl.
  destruct (lookup_lt_is_Some_2 _ _ Het) as [nt Hnt].
  rewrite bind_ret_l. unfold bind at 1. rewrite (node_at_run _ _ nt) by done.
  unfold bind at 1. rewrite emit_run. simpl.
  pose proof (Ht e (proj1 (list_elem_of_In _ _) (list_elem_of_lookup_2 _ _ _ Hk))) as He.
  simpl in Hnt. rewrite Hnt in He. destruct (is_last (data nt)) eqn:Hlt.
  - by exists (mkWorld db rs hs (out ++ [OData (data nt)])), [], (data nt).
  - simpl in He. unfold bind at 1. rewrite emit_run. simpl.
    destruct (IH n (markov_node e) nt (mkWorld db rs hs ((out ++ [OData (data nt)]) ++ [OText " "])))
      as (w' & pre & d' & Hrun' & Hdb & Hout & Hd'); [(simpl; auto with lia) ..|].
    exists w', ([OData (data nt); OText " "] ++ pre), d'. split_and!; [done|by rewrite Hdb| |done].
    rewrite Hout. simpl. by rewrite <- !app_assoc.
Qed.

Lemma generate_random_sequence_ends w first cn max_length d :
  db_wf (w_db w) -> walkable (w_db w) ->
  ll_nodes (w_db w) !! first = Some cn -> is_last (data cn) = false ->
  terminates_within (w_db w) d first = true -> (d <= Z.to_nat (max_length - 1))%nat ->
  Forall (λ r, 0 <= r) (w_rand w) -> (d <= length (w_rand w))%nat ->
  exists w' pre d', generate_random_sequence (Some first) max_length w = Ok (tt, w') /\
    w_out w' = w_out w ++ pre ++ [OData d'] /\ is_last d' = true.
Proof.
  intros Hwf Hwk Hcn Hl Ht Hd Hnn Hlen. unfold generate_random_sequence.
  rewrite bind_ret_l. unfold bind at 1. rewrite (node_at_run _ _ _ Hcn).
  unfold bind at 1. rewrite emit_run. unfold bind at 1. rewrite emit_run.
  destruct (walk_loop_ends d (Z.to_nat (max_length - 1)) first cn
              (mkWorld (w_db w) (w_rand w) (w_heap w) ((w_out w ++ [OData (data cn)]) ++ [OText " "])))
    as (w' & pre & d' & Hrun & _ & Hout & Hd'); [(simpl; auto) ..|].
  exists w', ([OData (data cn); OText " "] ++ pre), d'. split_and!; [done| |done].
  rewrite Hout. simpl. by rewrite <- !app_assoc.
Qed.

(** A walk without a given start begins with [get_first_random_node]. *)
Lemma generate_random_sequence_random_start w i w1 max_length :
  get_first_random_node w = Ok (i, w1) ->
  generate_random_sequence None max_length w = generate_random_sequence (Some i) max_length w1.
Proof. intros Hf. unfold generate_random_sequence at 1. unfold bind at 1. by rewrite Hf. Qed.

(** When the first draw names a non-terminal state,
    [get_first_random_node] returns it. *)
Lemma get_first_random_node_first w r rs n :
  w_rand w = r :: rs -> ll_size (w_db w) <> 0 ->
  ll_nodes (w_db w) !! Z.to_nat (Z.rem r (ll_size (w_db w))) = Some n -> is_last (data n) = false ->
  get_first_random_node w =
    Ok (Z.to_nat (Z.rem r (ll_size (w_db w))), mkWorld (w_db w) rs (w_heap w) (w_out w)).
Proof.
  intros Hr Hs Hn Hl. unfold get_first_random_node. rewrite Hr. cbn [first_random_loop length].
  unfold bind at 1. rewrite (first_random_step_run w r rs n Hr Hs Hn), Hl. done.
Qed.
End walk_live.

(** ** Witnesses *)

Import IntPayload.

(** A table whose frequencies overflow an [int]. *)
Definition big_node : MarkovNode Z := mkNode 1 [mkFreq 0 INT_MAX; mkFreq 1 1] 2.
Definition big_db : LinkedList (MarkovNode Z) := mkLinkedList [big_node; mkNode 2 [] 0] 2.

Lemma big_node_wf : node_wf 2 big_node.
Proof.
  split_and!; [reflexivity| |simpl; apply (bool_decide_unpack _); vm_compute; exact I].
  repeat constructor; simpl; unfold INT_MAX; lia.
Qed.

Lemma freq_select_weight_witness :
  length (filter (λ r, freq_select [mkFreq 0 2; mkFreq 1 1] 0 2 r = Ok (Some 0%nat))
                 (seqZ 0 (total_frequency [mkFreq 0 2; mkFreq 1 1]))) = Z.to_nat 2.
Proof.
  apply (freq_select_weight [mkFreq 0 2; mkFreq 1 1] 0 (mkFreq 0 2));
    [repeat constructor; simpl; lia|simpl; apply (bool_decide_unpack _); vm_compute; exact I|reflexivity].
Defined.

Lemma get_next_random_node_spec_witness :
  exists k e, [mkFreq 1 2] !! k = Some e /\ (markov_node e < 3)%nat /\
    get_next_random_node 0 (mkWorld db_ex [5; 9] [] []) =
      Ok (Some (markov_node e), mkWorld db_ex [9] [] []) /\
    prefix_sum [mkFreq 1 2] k <= Z.rem 5 (total_frequency [mkFreq 1 2]) < prefix_sum [mkFreq 1 2] k + frequency e.
Proof.
  apply (get_next_random_node_spec (mkWorld db_ex [5; 9] [] []) 0 (mkNode 1 [mkFreq 1 2] 1) 5 [9]);
    [reflexivity|apply (Forall_lookup_1 _ _ 0 _ (proj2 (proj2 db_ex_wf))); reflexivity
    |discriminate|vm_compute; congruence|reflexivity|lia].
Defined.

Lemma get_next_random_node_overflow_witness :
  get_next_random_node 0 (mkWorld big_db [] [] []) = Crash IntOverflow.
Proof.
  apply (get_next_random_node_overflow (mkWorld big_db [] [] []) 0 big_node);
    [reflexivity|exact big_node_wf|vm_compute; reflexivity].
Defined.

Lemma get_first_random_node_nonterminal_witness :
  (exists n, ll_nodes db_ex !! 0%nat = Some n /\ is_last (data n) = false) /\
  w_db (mkWorld db_ex [] [] []) = db_ex /\ w_heap (mkWorld (D:=Z) db_ex [] [] []) = [] /\
  w_out (mkWorld (D:=Z) db_ex [] [] []) = [].
Proof.
  apply (get_first_random_node_nonterminal (mkWorld db_ex [2; 0] [] []) 0 (mkWorld db_ex [] [] [])).
  reflexivity.
Defined.

Lemma get_first_random_node_live_witness :
  exists i w', get_first_random_node (mkWorld db_ex [2; 0] [] []) = Ok (i, w').
Proof.
  apply get_first_random_node_live; [reflexivity|simpl; lia|repeat constructor; lia|].
  apply Exists_cons_tl, Exists_cons_hd. exists (mkNode 1 [mkFreq 1 2] 1). split; reflexivity.
Defined.

Lemma get_first_random_node_all_terminal_witness :
  get_first_random_node (mkWorld (mkLinkedList [mkNode 3 [] 0] 1) [0; 7] [] []) = Crash RandExhausted.
Proof. apply get_first_random_node_all_terminal; [reflexivity|simpl; lia|repeat constructor; lia|repeat constructor]. Defined.

Lemma generate_random_sequence_empty_table_witness :
  generate_random_sequence (Some 2%nat) 5 (world_ex []) = Crash NullDeref.
Proof. apply (generate_random_sequence_empty_table _ _ (mkNode 3 [] 0)); [reflexivity|reflexivity|lia]. Defined.

(** A walk of [max_length] 2 from state 1: "1 2 " with its trailing
    delimiter. *)
Lemma generate_random_sequence_trailing_delimiter_witness :
  exists evs, [OData 1; OText " "; OData 2; OText " "] = [] ++ evs /\
    ((exists pre, evs = pre ++ [OText " "]) \/
     (exists pre d, evs = pre ++ [OData d] /\ is_last d = true)).
Proof.
  apply (generate_random_sequence_trailing_delimiter (Some 0%nat) 2 (mkWorld db_ex [5] [] [])
           (mkWorld db_ex [] [] [OData 1; OText " "; OData 2; OText " "])).
  vm_compute. reflexivity.
Defined.

Lemma walkable_db_ex : walkable db_ex.
Proof.
  intros [|[|[|i]]] n Hn Hl; simpl in Hn; simplify_eq; simpl in *;
    try discriminate; split; try discriminate; unfold total_frequency, INT_MAX; simpl; lia.
Qed.

Lemma generate_random_sequence_live_witness :
  exists w', generate_random_sequence (Some 0%nat) 3 (mkWorld db_ex [4; 4] [] []) = Ok (tt, w').
Proof.
  apply (generate_random_sequence_live _ _ (mkNode 1 [mkFreq 1 2] 1));
    [exact db_ex_wf|exact walkable_db_ex|reflexivity|reflexivity|repeat constructor; lia|simpl; lia].
Defined.
