(* ===== verification/SnakesAndLadders.v ===== *)
(** * The snakes-and-ladders front end ([src/snakes_and_ladders.c])

    A board of 100 [Cell]s, each a number with an optional ladder or snake
    ([EMPTY] = -1 otherwise), is built by [create_board] from the constant
    [transitions] table.  [fill_database_snakes] does two passes over it.
    - It adds every cell to the chain.
    - It links every cell: a cell with a ladder or snake to its end, any
      other cell to the (at most six) cells one die roll ahead.
    The callbacks compare cells by number, copy them field by field, call
    cell 100 terminal and print "[n] ->" style arrows.  [main] then prints
    [walks_num] walks of at most 60 cells from cell 1.

    The file proves that the database the code builds is the abstract
    board (spec section 8), that walks from cell 1 complete, and that
    [main]'s walk loop and teardown run on it.  It proves the callbacks
    satisfy the engine's caller contract and the allocation-failure paths.
    Fixed-input examples record the board scenario and the bugs found. *)

From stdpp Require Import strings pretty.
From S2P Require Import Prelude CLib LinkedList MarkovChain Teardown RandomWalk.

Open Scope string_scope.
Open Scope Z_scope.

(** ** Data *)

Definition EMPTY : Z := -1.
Definition BOARD_SIZE : Z := 100.
Definition MAX_GENERATION_LENGTH : Z := 60.
Definition DICE_MAX : Z := 6.

(** [const int transitions[][2]]: [(x, y)] is a ladder when [x < y] and a
    snake otherwise. *)
Definition transitions : list (Z * Z) :=
  [(13, 4); (85, 17); (95, 67); (97, 58); (66, 89); (87, 31); (57, 83);
   (91, 25); (28, 50); (35, 11); (8, 30); (41, 62); (81, 43); (69, 32);
   (20, 39); (33, 70); (79, 99); (23, 76); (15, 47); (61, 14)].

(** [struct Cell]. *)
Record Cell : Type := mkCell {
  number : Z;
  ladder_to : Z;
  snake_to : Z
}.

#[global] Instance Cell_eq_dec : EqDecision Cell.
Proof. solve_decision. Defined.

(** ** The callbacks given to the chain ([create_chain]) *)

(** [comp_func]: [cell_a->number - cell_b->number]. *)
Definition cell_comp (a b : Cell) : Z := number a - number b.

(** [copy_func]: a field-by-field copy (its [malloc] is not modelled). *)
Definition cell_copy (c : Cell) : Cell := mkCell (number c) (ladder_to c) (snake_to c).

(** [check_is_last]: [cell->number == BOARD_SIZE]. *)
Definition check_is_last (c : Cell) : bool := Z.eqb (number c) BOARD_SIZE.

(** [print_func]. *)
Definition cell_print (c : Cell) : string :=
  if Z.eqb (number c) BOARD_SIZE then "[" ++ pretty (number c) ++ "]"
  else if negb (Z.eqb (ladder_to c) EMPTY) then "[" ++ pretty (number c) ++ "] -ladder to->"
  else if negb (Z.eqb (snake_to c) EMPTY) then "[" ++ pretty (number c) ++ "] -snake to->"
  else "[" ++ pretty (number c) ++ "] ->".

#[export] Instance snakes_funcs : MarkovChainFuncs Cell := {|
  comp_func := cell_comp;
  copy_func := cell_copy;
  is_last := check_is_last;
  print_func := cell_print
|}.

(** [#define MAX(X, Y) (((X) < (Y)) ? (Y) : (X))]. *)
Definition MAX (x y : Z) : Z := if Z.ltb x y then y else x.

(** ** Building the board *)

Section board.
Local Abbreviation W := (World Cell).

(** [int handle_error_snakes(char *error_msg, MarkovChain **database)]:
    [has_chain] is [database != NULL], the chain being the one of the
    state. *)
Definition handle_error_snakes (error_msg : out_event Cell) (has_chain : bool) : ST W Z :=
  emit error_msg ;;
  (if has_chain then free_chain else ret tt) ;;
  ret EXIT_FAILURE.

(** The first loop of [create_board]: [cells[i] = malloc(sizeof(Cell))],
    then [*(cells[i]) = (Cell){i + 1, EMPTY, EMPTY}].  A failed allocation
    frees the cells so far and prints the allocation message through
    [handle_error_snakes]. *)
Fixpoint alloc_cells (i n : nat) : ST W (option (list Cell)) :=
  match n with
  | O => ret (Some [])
  | S n' =>
      ok <- c_malloc ;;
      if negb ok then handle_error_snakes OAllocMsg false ;; ret None else
      rest <- alloc_cells (S i) n' ;;
      ret ((fun cs => mkCell (Z.of_nat i + 1) EMPTY EMPTY :: cs) <$> rest)
  end.

(** One pass of the second loop of [create_board]. *)
Definition apply_transition (cells : list Cell) (t : Z * Z) : ST W (list Cell) :=
  let '(from, to) := t in
  c <- deref OutOfBounds (cells !! Z.to_nat (from - 1)) ;;
  ret (<[Z.to_nat (from - 1) :=
          if Z.ltb from to then mkCell (number c) to (snake_to c)
          else mkCell (number c) (ladder_to c) to]> cells).

Fixpoint apply_transitions (cells : list Cell) (ts : list (Z * Z)) : ST W (list Cell) :=
  match ts with
  | [] => ret cells
  | t :: ts' => cells' <- apply_transition cells t ;; apply_transitions cells' ts'
  end.

(** [int create_board(Cell *cells[BOARD_SIZE])]: [None] is
    [EXIT_FAILURE]. *)
Definition create_board : ST W (option (list Cell)) :=
  cs <- alloc_cells 0 (Z.to_nat BOARD_SIZE) ;;
  match cs with
  | None => ret None
  | Some cells => cells' <- apply_transitions cells transitions ;; ret (Some cells')
  end.

(** [for (i = 0; i < BOARD_SIZE; i++) add_to_database(markov_chain, cells[i]);]
    Its result is ignored. *)
Fixpoint add_cells (cells : list Cell) : ST W unit :=
  match cells with
  | [] => ret tt
  | c :: cells' => _ <- add_to_database c ;; add_cells cells'
  end.

(** [get_node_from_database(markov_chain, cells[k])->data]: a [NULL] node
    is dereferenced. *)
Definition cell_node (cells : list Cell) (k : Z) : ST W nat :=
  c <- deref OutOfBounds (cells !! Z.to_nat k) ;;
  db <- get_db ;;
  deref NullDeref (get_node_from_database db c).

(** The dice loop [for (j = 1; j <= DICE_MAX; j++)] of
    [fill_database_snakes]; [n] counts the iterations left. *)
Fixpoint dice_links (cells : list Cell) (from : nat) (num j : Z) (n : nat) : ST W Z :=
  match n with
  | O => ret EXIT_SUCCESS
  | S n' =>
      let index_to := num + j - 1 in
      if Z.leb BOARD_SIZE index_to then ret EXIT_SUCCESS else
      to <- cell_node cells index_to ;;
      res <- add_node_to_frequency_list from to ;;
      if Z.eqb res EXIT_FAILURE then ret EXIT_FAILURE
      else dice_links cells from num (j + 1) n'
  end.

(** The second loop of [fill_database_snakes], from cell [i]; [n] counts
    the iterations left.  The ladder/snake branch ignores the result of
    [add_node_to_frequency_list]. *)
Fixpoint link_cells (cells : list Cell) (i : nat) (n : nat) : ST W Z :=
  match n with
  | O => ret EXIT_SUCCESS
  | S n' =>
      from <- cell_node cells (Z.of_nat i) ;;
      c <- deref OutOfBounds (cells !! i) ;;
      if negb (Z.eqb (snake_to c) EMPTY) || negb (Z.eqb (ladder_to c) EMPTY) then
        to <- cell_node cells (MAX (snake_to c) (ladder_to c) - 1) ;;
        _ <- add_node_to_frequency_list from to ;;
        link_cells cells (S i) n'
      else
        fn <- node_at from ;;
        res <- dice_links cells from (number (data fn)) 1 (Z.to_nat DICE_MAX) ;;
        if Z.eqb res EXIT_FAILURE then ret EXIT_FAILURE
        else link_cells cells (S i) n'
  end.

(** [int fill_database_snakes(MarkovChain * )]. *)
Definition fill_database_snakes : ST W Z :=
  cs <- create_board ;;
  match cs with
  | None => ret EXIT_FAILURE
  | Some cells =>
      add_cells cells ;;
      link_cells cells 0 (Z.to_nat BOARD_SIZE)
  end.

(** The walk loop of [main]: [walks_num] walks from
    [chain->database->first] of at most [MAX_GENERATION_LENGTH] cells. *)
Fixpoint random_walks (i : Z) (n : nat) : ST W unit :=
  match n with
  | O => ret tt
  | S n' =>
      emit (OText ("Random Walk " ++ pretty i ++ ": ")) ;;
      generate_random_sequence (Some 0%nat) MAX_GENERATION_LENGTH ;;
      emit (OText "
") ;;
      random_walks (i + 1) n'
  end.

(** [static MarkovChain *create_chain(void)]: two allocations, each
    printing the allocation message on failure; [false] is [NULL]. *)
Definition create_chain : ST W bool :=
  ok1 <- c_malloc ;;
  if negb ok1 then emit OAllocMsg ;; ret false else
  ok2 <- c_malloc ;;
  if negb ok2 then emit OAllocMsg ;; ret false else
  set_db empty_list ;; ret true.

(** [main] after its argument checks: [srand(seed)] is the stream
    [w_rand] and [walks_num] the variable [sscanf] may have set ([None]:
    never assigned).  The walk loop reads it. *)
Definition snakes_main (walks_num : option Z) : ST W Z :=
  ok <- create_chain ;;
  if negb ok then emit OAllocMsg ;; ret EXIT_FAILURE else
  res <- fill_database_snakes ;;
  if Z.eqb res EXIT_FAILURE then emit OAllocMsg ;; free_chain ;; ret EXIT_FAILURE else
  n <- read_var walks_num ;;
  random_walks 1 (Z.to_nat n) ;;
  free_chain ;;
  ret EXIT_SUCCESS.
End board.

(** ** The callbacks meet the engine's caller contract *)

#[export] Instance snakes_laws : MarkovChainLaws Cell.
Proof. split; simpl; unfold cell_comp, cell_copy; simpl; intros; lia. Qed.

(** ** The database [main] builds *)

(** A fresh chain from [create_chain]: an empty database. *)
Definition snakes_world (rs : list Z) (out : list (out_event Cell)) : World Cell :=
  mkWorld empty_list rs [] out.

Definition built_db : LinkedList (MarkovNode Cell) :=
  match fill_database_snakes (snakes_world [] []) with
  | Ok (_, w) => w_db w
  | Crash _ => empty_list
  end.

(** The abstract board (spec section 8): the end of a cell's ladder or
    snake, or else the cells one to six ahead that are on the board. *)
Definition board_targets (n : Z) : list Z :=
  match list_find (λ t, t.1 = n) transitions with
  | Some (_, (_, to)) => [to]
  | None => filter (λ m, m <= BOARD_SIZE) (map (λ j, n + j) [1; 2; 3; 4; 5; 6])
  end.

(** The numbers of the cells a node's table points to, in order. *)
Definition target_numbers (db : LinkedList (MarkovNode Cell)) (n : MarkovNode Cell)
  : list (option Z) :=
  map (λ e, (λ m, number (data m)) <$> ll_nodes db !! markov_node e) (frequency_list n).

(** The cell numbered [n] of the abstract board: its ladder or snake is
    the entry of [transitions] that starts at [n], if any. *)
Definition board_cell (n : Z) : Cell :=
  match list_find (λ t, t.1 = n) transitions with
  | Some (_, (from, to)) => if Z.ltb from to then mkCell n to EMPTY else mkCell n EMPTY to
  | None => mkCell n EMPTY EMPTY
  end.

Definition board_ok (db : LinkedList (MarkovNode Cell)) : bool :=
  forallb (λ kn,
    bool_decide (data kn.2 = board_cell (Z.of_nat kn.1 + 1)) &&
    bool_decide (target_numbers db kn.2 = Some <$> board_targets (number (data kn.2))) &&
    forallb (λ e, Z.eqb (frequency e) 1) (frequency_list kn.2))
  (imap pair (ll_nodes db)).


(** Whether an output prints the cell numbered [m]. *)
Definition prints_cell (evs : list (out_event Cell)) (m : Z) : bool :=
  existsb (λ e, match e with OData c => Z.eqb (number c) m | _ => false end) evs.

(** A stream of [rand()] values that moves the token 1 -> 7 -> 13 -> 4 -> 7 ... *)
Definition cycle_rand : list Z := 5 :: concat (repeat [5; 0; 2] 20).

Lemma built_db_wf : db_wf built_db.
Proof. apply db_wfb_sound. vm_compute. reflexivity. Qed.

Lemma built_db_board_ok : board_ok built_db = true.
Proof. vm_compute. reflexivity. Qed.

Lemma built_db_walkable : walkable built_db.
Proof. apply walkableb_sound. vm_compute. reflexivity. Qed.

Lemma built_db_run rs out :
  fill_database_snakes (snakes_world rs out) = Ok (EXIT_SUCCESS, mkWorld built_db rs [] out).
Proof. vm_compute. reflexivity. Qed.

Lemma built_db_length : length (ll_nodes built_db) = 100%nat.
Proof. vm_compute. reflexivity. Qed.

Lemma board_ok_spec db k n :
  board_ok db = true -> ll_nodes db !! k = Some n ->
  data n = board_cell (Z.of_nat k + 1) /\
  target_numbers db n = Some <$> board_targets (number (data n)) /\
  Forall (λ e, frequency e = 1) (frequency_list n).
Proof.
  unfold board_ok. rewrite forallb_forall. intros Hb Hk.
  pose proof (Hb (k, n)) as Hkn. rewrite <- list_elem_of_In in Hkn.
  specialize (Hkn (elem_of_lookup_imap_2 pair _ _ _ Hk)); simpl in Hkn.
  apply andb_true_iff in Hkn as [Hkn Hf]. apply andb_true_iff in Hkn as [Hd Ht].
  apply bool_decide_eq_true in Hd, Ht. split_and!; [done|done|].
  apply Forall_forall. intros e He%list_elem_of_In. rewrite forallb_forall in Hf.
  by apply Z.eqb_eq, Hf.
Qed.

Lemma built_db_first :
  exists cn, ll_nodes built_db !! 0%nat = Some cn /\ is_last (data cn) = false.
Proof.
  destruct (ll_nodes built_db !! 0%nat) as [cn|] eqn:E.
  - exists cn. split; [done|].
    by destruct (board_ok_spec _ _ _ built_db_board_ok E) as [-> _].
  - vm_compute in E. discriminate.
Qed.

Lemma alloc_cells_fail i n k (w : World Cell) hs :
  (k < n)%nat -> w_heap w = (repeat true k ++ false :: hs)%list ->
  alloc_cells i n w = Ok (None, mkWorld (w_db w) (w_rand w) hs (w_out w ++ [OAllocMsg])%list).
Proof.
  induction k as [|k IH] in i, n, w |- *; intros Hk Hh; destruct n as [|n]; try lia;
    unfold alloc_cells; fold alloc_cells; unfold bind at 1; rewrite c_malloc_run, Hh; [done|].
  simpl. unfold bind at 1. rewrite IH; [done|lia|done].
Qed.

Lemma fill_database_snakes_board_fail k (w : World Cell) hs :
  (k < 100)%nat -> w_heap w = (repeat true k ++ false :: hs)%list ->
  fill_database_snakes w =
    Ok (EXIT_FAILURE, mkWorld (w_db w) (w_rand w) hs (w_out w ++ [OAllocMsg])%list).
Proof.
  intros Hk Hh. unfold fill_database_snakes, create_board.
  unfold bind at 1 2. rewrite (alloc_cells_fail 0 (Z.to_nat BOARD_SIZE) k w hs); [done| |done].
  change (Z.to_nat BOARD_SIZE) with 100%nat. lia.
Qed.

Lemma create_chain_ok (w : World Cell) hs :
  w_heap w = true :: true :: hs ->
  create_chain w = Ok (true, mkWorld empty_list (w_rand w) hs (w_out w)).
Proof. destruct w as [db rs h out]; simpl. by intros ->. Qed.

(** ** The board the code builds *)

Lemma create_chain_fresh (w : World Cell) :
  w_heap w = [] -> create_chain w = Ok (true, snakes_world (w_rand w) (w_out w)).
Proof. destruct w as [db rs h out]; simpl. by intros ->. Qed.

(** [main]'s walk loop on the built board: [n] walks from cell 1, each
    taking at most [MAX_GENERATION_LENGTH - 1] draws, complete and leave
    the database and the allocator alone. *)
Lemma random_walks_run i n (w : World Cell) :
  w_db w = built_db -> Forall (λ r, 0 <= r) (w_rand w) -> (59 * n <= length (w_rand w))%nat ->
  exists w', random_walks i n w = Ok (tt, w') /\ w_db w' = built_db /\ w_heap w' = w_heap w.
Proof.
  revert i w. induction n as [|n IH]; intros i [db rs hs out] Hdb Hnn Hlen;
    cbn [w_db w_rand w_heap] in *.
  { eexists. split_and!; [reflexivity|done|done]. }
  cbn [random_walks]. unfold bind at 1. rewrite emit_run. cbn [w_db w_rand w_heap w_out].
  destruct built_db_first as (cn & Hcn & Hl).
  match goal with |- context [bind (generate_random_sequence _ _) _ ?w0] =>
    destruct (generate_random_sequence_walk w0 0 cn MAX_GENERATION_LENGTH)
      as (w1 & Hrun & Hd & Hh & k & Hk & Hr); cbn [w_db w_rand];
      [rewrite Hdb; exact built_db_wf|rewrite Hdb; exact built_db_walkable|by rewrite Hdb|done|done|
       change (Z.to_nat (MAX_GENERATION_LENGTH - 1)) with 59%nat; lia|]
  end.
  change (Z.to_nat (MAX_GENERATION_LENGTH - 1)) with 59%nat in Hk. cbn [w_rand w_db w_heap] in Hr, Hd, Hh.
  unfold bind at 1. rewrite Hrun. unfold bind at 1. rewrite emit_run.
  destruct (IH (i + 1) (mkWorld (w_db w1) (w_rand w1) (w_heap w1) (w_out w1 ++ [OText "
"]))) as (w' & Hw & Hd' & Hh'); cbn [w_db w_rand w_heap].
  - by rewrite Hd.
  - rewrite Hr. by apply Forall_drop.
  - rewrite Hr, length_drop. lia.
  - exists w'. split_and!; [done|done|]. by rewrite Hh', Hh.
Qed.

(** [main]'s teardown of the built board succeeds. *)
Lemma free_chain_built (w : World Cell) :
  w_db w = built_db -> free_chain w = Ok (tt, w).
Proof.
  intros Hdb. destruct (free_markov_chain_run built_db built_db_wf) as (tr & Htr & _).
  unfold free_chain, bind, get_db. rewrite Hdb, Htr. reflexivity.
Qed.

(** With every allocation succeeding and [59] non-negative draws per
    walk, [main] builds the board, runs its walks, tears the chain down
    and returns [EXIT_SUCCESS]. *)
Lemma snakes_main_run n db rs out :
  Forall (λ r, 0 <= r) rs -> (59 * Z.to_nat n <= length rs)%nat ->
  exists w', snakes_main (Some n) (mkWorld db rs [] out) = Ok (EXIT_SUCCESS, w') /\
    w_db w' = built_db.
Proof.
  intros Hnn Hlen. unfold snakes_main.
  rewrite (bind_Ok _ _ _ _ _ (create_chain_fresh (mkWorld db rs [] out) eq_refl)).
  cbn [negb w_rand w_out]. rewrite (bind_Ok _ _ _ _ _ (built_db_run rs out)).
  cbv beta. change (EXIT_SUCCESS =? EXIT_FAILURE) with false. cbv iota.
  unfold read_var, deref. rewrite bind_ret_l.
  destruct (random_walks_run 1 (Z.to_nat n) (mkWorld built_db rs [] out)) as (w' & Hw & Hd & _);
    [done|done|done|].
  rewrite (bind_Ok _ _ _ _ _ Hw), (bind_Ok _ _ _ _ _ (free_chain_built w' Hd)).
  eexists. split; [reflexivity|done].
Qed.

(** C21. [fill_database_snakes] on a fresh chain succeeds without
    consuming [rand()] or printing anything.  It builds a well-formed
    store of 100 states, the [k]-th being the cell [k + 1] of the abstract
    board with its ladder or snake.  Each state's table points, in order
    and with frequency 1, to the end of its ladder or snake, or else to the
    cells one to six ahead. *)
Theorem fill_database_snakes_board rs out :
  exists db, fill_database_snakes (snakes_world rs out) = Ok (EXIT_SUCCESS, mkWorld db rs [] out) /\
    db_wf db /\ length (ll_nodes db) = 100%nat /\
    forall k n, ll_nodes db !! k = Some n ->
      data n = board_cell (Z.of_nat k + 1) /\
      target_numbers db n = Some <$> board_targets (number (data n)) /\
      Forall (λ e, frequency e = 1) (frequency_list n).
Proof.
  exists built_db. split_and!; [apply built_db_run|apply built_db_wf|apply built_db_length|].
  intros k n. apply board_ok_spec, built_db_board_ok.
Qed.

(** The board scenario: cell 1 has the six transitions to cells 2
    to 7, each of frequency 1.  Cell 13 has exactly one transition, to
    cell 4, of frequency 1.  That shortcut is a snake (it is stored in
    [snake_to] and printed as "-snake to->"), not a ladder. *)
Theorem board_scenario rs out :
  exists db, fill_database_snakes (snakes_world rs out) = Ok (EXIT_SUCCESS, mkWorld db rs [] out) /\
    (data <$> ll_nodes db !! 0%nat) = Some (mkCell 1 EMPTY EMPTY) /\
    (target_numbers db <$> ll_nodes db !! 0%nat) = Some (Some <$> [2; 3; 4; 5; 6; 7]) /\
    (map frequency ∘ frequency_list <$> ll_nodes db !! 0%nat) = Some [1; 1; 1; 1; 1; 1] /\
    (data <$> ll_nodes db !! 12%nat) = Some (mkCell 13 EMPTY 4) /\
    (target_numbers db <$> ll_nodes db !! 12%nat) = Some [Some 4] /\
    (map frequency ∘ frequency_list <$> ll_nodes db !! 12%nat) = Some [1] /\
    (cell_print <$> (data <$> ll_nodes db !! 12%nat)) = Some "[13] -snake to->".
Proof. exists built_db. split; [apply built_db_run|]. vm_compute. split_and!; reflexivity. Qed.

(** ** Walks on the board *)

(** C22. A walk from cell 1 on the built board returns when [rand()]
    yields at least 59 non-negative values.  It prints at most 60 cells,
    and its output ends with the delimiter or with cell 100. *)
Theorem snakes_walk_from_cell_1 rs out :
  Forall (λ r, 0 <= r) rs -> (59 <= length rs)%nat ->
  exists w', (fill_database_snakes ;; generate_random_sequence (Some 0%nat) MAX_GENERATION_LENGTH)
               (snakes_world rs out) = Ok (tt, w') /\
    exists evs, w_out w' = (out ++ evs)%list /\ (count_data evs <= 60)%nat /\
      ((exists pre, evs = (pre ++ [OText " "])%list) \/
       (exists pre c, evs = (pre ++ [OData c])%list /\ number c = 100)).
Proof.
  intros Hnn Hlen. unfold bind at 1. rewrite built_db_run. cbv beta iota.
  destruct built_db_first as (cn & Hcn & Hl).
  destruct (generate_random_sequence_runs (mkWorld built_db rs [] out) 0%nat cn MAX_GENERATION_LENGTH)
    as [w' Hrun]; [exact built_db_wf|exact built_db_walkable|done|done|done|cbn [w_rand]; change (Z.to_nat (MAX_GENERATION_LENGTH - 1)) with 59%nat; lia|].
  exists w'. split; [done|].
  destruct (generate_random_sequence_output _ _ _ _ Hrun) as (_ & evs & Hout & Hc & Hend).
  exists evs. split_and!; [done|done|].
  destruct Hend as [?|(pre & c & -> & Hc100)]; [by left|right].
  exists pre, c. split; [done|]. by apply Z.eqb_eq.
Qed.

(** A walk from cell 1 can stop without reaching cell 100: on the
    stream [cycle_rand] it goes round 7, 13, 4 and is cut after 60
    cells, none of them cell 100. *)
Example snakes_walk_cut_short :
  exists w', (fill_database_snakes ;; generate_random_sequence (Some 0%nat) MAX_GENERATION_LENGTH)
               (snakes_world cycle_rand []) = Ok (tt, w') /\
    count_data (w_out w') = 60%nat /\ prints_cell (w_out w') 100 = false.
Proof.
  destruct ((fill_database_snakes ;; generate_random_sequence (Some 0%nat) MAX_GENERATION_LENGTH)
              (snakes_world cycle_rand [])) as [[[] w']|c] eqn:E;
    vm_compute in E; [|discriminate].
  exists w'. split; [done|]. injection E as <-. vm_compute. split; reflexivity.
Qed.

(** ** Allocation failures *)

(** C23. When the allocation of cell [k + 1] in [create_board] fails,
    [main] returns [EXIT_FAILURE] with an empty store.  The allocation
    message is printed twice: once by [handle_error_snakes] and again by
    [main]. *)
Theorem snakes_main_cell_alloc_failure walks_num k db rs hs out :
  (k < 100)%nat ->
  snakes_main walks_num (mkWorld db rs (true :: true :: repeat true k ++ false :: hs)%list out) =
    Ok (EXIT_FAILURE, mkWorld empty_list rs hs (out ++ [OAllocMsg; OAllocMsg])%list).
Proof.
  intros Hk. unfold snakes_main.
  rewrite (bind_Ok _ _ _ _ _ (create_chain_ok (mkWorld db rs _ out) _ eq_refl)). cbn [negb w_rand w_out]. unfold bind at 1.
  rewrite (fill_database_snakes_board_fail k (mkWorld empty_list rs _ out) hs Hk eq_refl). simpl.
  unfold bind. rewrite emit_run. simpl. by rewrite <- app_assoc.
Qed.

(** When the first allocation of [add_to_database] for cell 1
    fails, [fill_database_snakes] ignores the [NULL] it returns.  It then
    dereferences the [NULL] node of cell 1. *)
Theorem fill_database_snakes_add_failure rs out :
  fill_database_snakes (mkWorld empty_list rs (repeat true 100 ++ [false])%list out) = Crash NullDeref.
Proof. vm_compute. reflexivity. Qed.

(** Code bug, across components (snakes_and_ladders.c:138-142,
    265-269; markov_chain.c:87-94, 108-111).  All 402 allocations of
    [create_chain], the board and [add_to_database] succeed, and so does
    the [MarkovNodeFrequency] of cell 1's first dice link.  If its
    [realloc] then fails, [fill_database_snakes] returns [EXIT_FAILURE].
    [main] prints the message and frees the chain, and the teardown reads
    the entry of cell 1's table that was never stored.  The allocation
    count is the model's, in which [copy_func] does not allocate. *)
Example snakes_main_realloc_failure_teardown walks_num rs out :
  snakes_main walks_num (mkWorld empty_list rs (repeat true 402 ++ [true; false])%list out) =
    Crash OutOfBounds.
Proof. vm_compute. reflexivity. Qed.

(** ** Witnesses *)

Lemma snakes_walk_from_cell_1_witness :
  exists w', (fill_database_snakes ;; generate_random_sequence (Some 0%nat) MAX_GENERATION_LENGTH)
               (snakes_world (repeat 0 59) []) = Ok (tt, w') /\
    exists evs, w_out w' = ([] ++ evs)%list /\ (count_data evs <= 60)%nat /\
      ((exists pre, evs = (pre ++ [OText " "])%list) \/
       (exists pre c, evs = (pre ++ [OData c])%list /\ number c = 100)).
Proof.
  apply snakes_walk_from_cell_1; [apply Forall_forall; intros r Hr%list_elem_of_In%repeat_spec; lia|].
  reflexivity.
Defined.

Lemma snakes_main_cell_alloc_failure_witness :
  snakes_main (Some 3) (mkWorld empty_list [] (true :: true :: repeat true 41 ++ false :: [])%list []) =
    Ok (EXIT_FAILURE, mkWorld empty_list [] [] ([] ++ [OAllocMsg; OAllocMsg])%list).
Proof. apply snakes_main_cell_alloc_failure. lia. Defined.
