(* ===== verification/TweetsGenerator.v ===== *)
(** * The tweets front end ([src/tweets_generator.c])

    The payloads are words: C strings, modelled as [string] values whose
    end is the terminating NUL.  [fill_database] reads the file with
    [fgets] in chunks of at most [MAX_LINE - 1] characters.  It splits each
    chunk with [strtok] on [DELIMITERS], adds every word to the chain and
    links each word to the next one of the same chunk.  [main] then prints
    [num_of_tweets] walks of at most [MAX_TWEET] words.

    The file proves three groups of results.
    - The string routines: [strcmp] is an equality test on C strings,
      [strtok] splits exactly at the four [DELIMITERS], and the [fgets]
      loop reads the whole file in chunks that fit its buffer.
    - [fill_database] refines the abstract word-chain model: the stored
      words are the distinct words read, and each transition counts the
      word pairs (bigrams) of the text.
    - Tweets on the word-chain text of spec section 8 end with a terminal
      word; fixed-input examples record the scenario and the error paths. *)

From Stdlib Require Import String Ascii.
From stdpp Require Import pretty.
From S2P Require Import Prelude CLib LinkedList MarkovChain Teardown RandomWalk.

Open Scope Z_scope.

(** ** Constants *)

Definition MAX_LINE : Z := 1000.
Definition MAX_TWEET : Z := 20.
Definition MAX_WORD_TO_READ : Z := -1.

(** The NUL character that ends a C string. *)
Definition NUL : ascii := Ascii.ascii_of_nat 0.

(** [DELIMITERS " \n\t\r"]. *)
Definition is_delim (c : ascii) : bool :=
  existsb (Ascii.eqb c) [" "; "010"; "009"; "013"]%char.

(** ** C strings *)

(** The C string a buffer holds: its characters up to the first NUL. *)
Fixpoint c_str (s : string) : string :=
  match s with
  | EmptyString => EmptyString
  | String c s' => if Ascii.eqb c NUL then EmptyString else String c (c_str s')
  end.

Definition byte (c : ascii) : Z := Z.of_N (N_of_ascii c).

(** [int strcmp(const char *a, const char *b)] as the classic loop
    [while ( *a && *a == *b) { a++; b++; } return *a - *b;]: the end of a
    [string] reads as NUL. *)
Fixpoint strcmp (a b : string) : Z :=
  match a, b with
  | String c a', String d b' =>
      if Ascii.eqb c d && negb (Ascii.eqb c NUL) then strcmp a' b' else byte c - byte d
  | String c _, EmptyString => byte c
  | EmptyString, String d _ => - byte d
  | EmptyString, EmptyString => 0
  end.

(** ** The callbacks given to the chain ([create_chain]) *)

(** [comp_func]: [strcmp]. *)
Definition word_comp (a b : string) : Z := strcmp a b.

(** [copy_func]: [malloc(strlen(data) + 1)] then [strcpy].  [strcpy]
    copies the C string; the [malloc] is not modelled. *)
Definition word_copy (s : string) : string := c_str s.

(** [check_is_last]: [word[strlen(word) - 1] == '.'].  On the empty word
    the C code reads [word[-1]]; the model answers [false] there, a case
    [strtok] never produces (see [strtok_all_tokens]). *)
Definition word_is_last (s : string) : bool :=
  match last (list_ascii_of_string (c_str s)) with
  | Some c => Ascii.eqb c "."
  | None => false
  end.

(** [print_func]: [printf("%s", data)]. *)
Definition word_print (s : string) : string := c_str s.

#[export] Instance tweets_funcs : MarkovChainFuncs string := {|
  comp_func := word_comp;
  copy_func := word_copy;
  is_last := word_is_last;
  print_func := word_print
|}.

(** ** [strcmp] compares C strings *)

Lemma byte_inj c d : byte c = byte d -> c = d.
Proof.
  unfold byte. intros H. apply N2Z.inj in H.
  by rewrite <- (ascii_N_embedding c), <- (ascii_N_embedding d), H.
Qed.

Lemma byte_NUL c : byte c = 0 <-> c = NUL.
Proof.
  split; [|by intros ->]. intros H.
  by apply byte_inj.
Qed.

Lemma byte_NUL_0 : byte NUL = 0.
Proof. reflexivity. Qed.

Lemma strcmp_zero a b : strcmp a b = 0 <-> c_str a = c_str b.
Proof.
  revert b. induction a as [|c a IH]; intros [|d b]; simpl; [done|..].
  - destruct (Ascii.eqb_spec d NUL) as [->|Hd]; [by rewrite byte_NUL_0|].
    split; [|done]. intros H. destruct Hd. apply byte_NUL. lia.
  - destruct (Ascii.eqb_spec c NUL) as [->|Hc]; [by rewrite byte_NUL_0|].
    split; [|done]. intros H. by destruct Hc; apply byte_NUL.
  - destruct (Ascii.eqb_spec c d) as [<-|Hcd]; destruct (Ascii.eqb_spec c NUL) as [->|Hc]; simpl.
    + by rewrite Z.sub_diag.
    + rewrite IH. split; [by intros ->|]. by intros [= ?].
    + destruct (Ascii.eqb_spec d NUL) as [->|Hd]; [done|].
      split; [intros H%Z.sub_move_0_r%byte_inj; congruence|intros [=]].
    + destruct (Ascii.eqb_spec d NUL) as [->|Hd]; split;
        try (intros H%Z.sub_move_0_r%byte_inj; congruence); intros [=]; congruence.
Qed.

Lemma c_str_idem s : c_str (c_str s) = c_str s.
Proof.
  induction s as [|c s IH]; simpl; [done|].
  destruct (Ascii.eqb_spec c NUL); simpl; [done|].
  destruct (Ascii.eqb_spec c NUL); [done|]. by rewrite IH.
Qed.

#[export] Instance tweets_laws : MarkovChainLaws string.
Proof.
  split; simpl; unfold word_comp, word_copy; intros *; rewrite ?strcmp_zero.
  - done.
  - done.
  - intros -> ->. done.
  - apply c_str_idem.
Qed.

(** ** [strtok] and [fgets] *)

(** [strtok(line, DELIMITERS)] then [strtok(NULL, DELIMITERS)] until
    [NULL]: the maximal runs of non-delimiters of the C string in [line].
    [cur] is the current token, reversed. *)
Fixpoint tokens_acc (s : list ascii) (cur : list ascii) : list string :=
  match s with
  | [] => match cur with [] => [] | _ => [string_of_list_ascii (rev cur)] end
  | c :: s' =>
      if is_delim c then
        match cur with
        | [] => tokens_acc s' []
        | _ => string_of_list_ascii (rev cur) :: tokens_acc s' []
        end
      else tokens_acc s' (c :: cur)
  end.

Definition strtok_all (line : string) : list string :=
  tokens_acc (list_ascii_of_string (c_str line)) [].

(** One [fgets(line, MAX_LINE, fp)]: at most [n] characters, up to and
    including a newline; the rest of the file. *)
Fixpoint fgets_line (n : nat) (s : list ascii) : list ascii * list ascii :=
  match n, s with
  | O, _ => ([], s)
  | S _, [] => ([], [])
  | S n', c :: s' =>
      if Ascii.eqb c "010" then ([c], s')
      else let '(l, r) := fgets_line n' s' in (c :: l, r)
  end.

(** The characters one [fgets] call reads: [MAX_LINE - 1]. *)
Definition fgets_n : nat := Z.to_nat (MAX_LINE - 1).

(** [while (fgets(line, MAX_LINE, fp) != NULL)]: [fgets] returns [NULL]
    at the end of the file.  Every call reads at least one character, so
    the length of the file is enough fuel ([read_lines_roundtrip]). *)
Fixpoint fgets_all (fuel : nat) (s : list ascii) : list (list ascii) :=
  match fuel with
  | O => []
  | S f =>
      match s with
      | [] => []
      | _ => let '(l, r) := fgets_line fgets_n s in l :: fgets_all f r
      end
  end.

Definition read_lines (file : string) : list string :=
  map string_of_list_ascii (fgets_all (String.length file) (list_ascii_of_string file)).

(** A word [strtok] can return: non-empty, with no delimiter and no NUL. *)
Definition token_ok (t : string) : Prop :=
  t <> EmptyString /\ Forall (λ c, is_delim c = false /\ c <> NUL) (list_ascii_of_string t).


(** ** Building the chain *)

Section fill.
Local Abbreviation W := (World string).

(** What the inner loop of [fill_database] ends with: a [return] with
    its value, or the end of the chunk with [words_count]. *)
Inductive fill_state : Type :=
| Stop (res : Z)
| Continue (words_count : Z).

(** The inner loop [while (token)] of [fill_database] over the words of
    one chunk; [prev] is the node of the previous word of the chunk.  The
    result of [add_node_to_frequency_list] is ignored, as in the code. *)
Fixpoint fill_tokens (toks : list string) (prev : option nat) (words_to_read words_count : Z)
  : ST W fill_state :=
  match toks with
  | [] => ret (Continue words_count)
  | t :: toks' =>
      r <- add_to_database t ;;
      match r with
      | None => emit OAllocMsg ;; ret (Stop EXIT_FAILURE)
      | Some new_node =>
          let words_count' := words_count + 1 in
          (match prev with
           | Some p => _ <- add_node_to_frequency_list p new_node ;; ret tt
           | None => ret tt
           end) ;;
          if negb (Z.eqb words_to_read MAX_WORD_TO_READ) && Z.eqb words_count' words_to_read
          then ret (Stop EXIT_SUCCESS)
          else fill_tokens toks' (Some new_node) words_to_read words_count'
      end
  end.

(** The outer loop [while (fgets(...) != NULL)]: each chunk starts with
    [prev = NULL]. *)
Fixpoint fill_lines (lines : list string) (words_to_read words_count : Z) : ST W Z :=
  match lines with
  | [] => ret EXIT_SUCCESS
  | l :: ls =>
      r <- fill_tokens (strtok_all l) None words_to_read words_count ;;
      match r with
      | Stop res => ret res
      | Continue c => fill_lines ls words_to_read c
      end
  end.

(** [static int fill_database(FILE *fp, int words_to_read, MarkovChain * )]
    on a file with contents [file]. *)
Definition fill_database (file : string) (words_to_read : Z) : ST W Z :=
  fill_lines (read_lines file) words_to_read 0.

(** [static MarkovChain *create_chain(void)]. *)
Definition create_chain_tweets : ST W bool :=
  ok1 <- c_malloc ;;
  if negb ok1 then emit OAllocMsg ;; ret false else
  ok2 <- c_malloc ;;
  if negb ok2 then emit OAllocMsg ;; ret false else
  set_db empty_list ;; ret true.

(** [for (int i = 1; i <= num_of_tweets; ++i)] of [main]. *)
Fixpoint tweet_loop (i : Z) (n : nat) : ST W unit :=
  match n with
  | O => ret tt
  | S n' =>
      emit (OText ("Tweet " ++ pretty i ++ ": ")%string) ;;
      generate_random_sequence None MAX_TWEET ;;
      emit (OText (String "010" EmptyString)) ;;
      tweet_loop (i + 1) n'
  end.

(** [main] after its argument checks and [fopen]: [file] is the file's
    contents, [srand(seed)] the stream [w_rand], [num_of_tweets] the
    variable [sscanf] may have set ([None]: never assigned). *)
Definition tweets_main (file : string) (words_to_read : Z) (num_of_tweets : option Z) : ST W Z :=
  ok <- create_chain_tweets ;;
  if negb ok then emit OAllocMsg ;; ret EXIT_FAILURE else
  result <- fill_database file words_to_read ;;
  if Z.eqb result EXIT_FAILURE then free_chain ;; emit OAllocMsg ;; ret EXIT_FAILURE else
  n <- read_var num_of_tweets ;;
  tweet_loop 1 (Z.to_nat n) ;;
  free_chain ;;
  ret EXIT_SUCCESS.
End fill.

(** ** The abstract word chain *)

(** The words [fill_database] reads when it stops after [k] words
    ([k <= 0]: it never stops early), chunk by chunk. *)
Fixpoint truncate_lines (k : Z) (ls : list (list string)) : list (list string) :=
  match ls with
  | [] => []
  | l :: ls' =>
      if (0 <? k) && (k <=? Z.of_nat (length l)) then [take (Z.to_nat k) l]
      else l :: truncate_lines (k - Z.of_nat (length l)) ls'
  end.

Definition words_read (file : string) (words_to_read : Z) : list (list string) :=
  truncate_lines words_to_read (map strtok_all (read_lines file)).

(** Consecutive words of one chunk. *)
Fixpoint pairs (l : list string) : list (string * string) :=
  match l with
  | x :: ((y :: _) as l') => (x, y) :: pairs l'
  | _ => []
  end.

Definition bigram_count (ls : list (list string)) (a b : string) : nat :=
  length (filter (λ p, p = (a, b)) (concat (map pairs ls))).

(** The total frequency of a node's entries that point to node [j]. *)
Definition freq_to (n : MarkovNode string) (j : nat) : Z :=
  sum_Z (map frequency (filter (λ e, markov_node e = j) (frequency_list n))).

(** ** Lemmas on strings *)


Lemma length_list_ascii_of_string s : length (list_ascii_of_string s) = String.length s.
Proof. induction s as [|c s IH]; simpl; [done|by rewrite IH]. Qed.

Lemma c_str_no_NUL s : Forall (λ c, c <> NUL) (list_ascii_of_string (c_str s)).
Proof.
  induction s as [|c s IH]; simpl; [constructor|].
  destruct (Ascii.eqb_spec c NUL); simpl; by constructor.
Qed.

Lemma c_str_id s : Forall (λ c, c <> NUL) (list_ascii_of_string s) -> c_str s = s.
Proof.
  induction s as [|c s IH]; simpl; [done|]. intros [Hc Hs]%Forall_cons.
  destruct (Ascii.eqb_spec c NUL); [done|]. by rewrite IH.
Qed.

Lemma token_ok_chars (cur : list ascii) :
  cur <> [] -> Forall (λ c, is_delim c = false /\ c <> NUL) cur ->
  token_ok (string_of_list_ascii (rev cur)).
Proof.
  intros Hne Hcur. split.
  - intros He. apply (f_equal list_ascii_of_string) in He.
    rewrite list_ascii_of_string_of_list_ascii in He. simpl in He.
    apply Hne. by apply (f_equal (@rev ascii)) in He; rewrite rev_involutive in He.
  - rewrite list_ascii_of_string_of_list_ascii. by apply Forall_rev.
Qed.

Lemma tokens_acc_ok s cur :
  Forall (λ c, c <> NUL) s -> Forall (λ c, is_delim c = false /\ c <> NUL) cur ->
  Forall token_ok (tokens_acc s cur).
Proof.
  revert cur. induction s as [|c s IH]; intros cur Hs Hcur; simpl.
  - destruct cur; [constructor|]. constructor; [|constructor]. by apply token_ok_chars.
  - apply Forall_cons in Hs as [Hc Hs]. destruct (is_delim c) eqn:Hd.
    + destruct cur; [by apply IH|]. constructor; [by apply token_ok_chars|by apply IH].
    + apply IH; [done|by constructor].
Qed.



(** ** Lemmas on [fgets] *)

Lemma fgets_line_spec n s l r :
  fgets_line n s = (l, r) ->
  s = l ++ r /\ (length l <= n)%nat /\ ((0 < n)%nat -> s <> [] -> l <> []) /\
  "010"%char ∉ removelast l.
Proof.
  revert s l r. induction n as [|n IH]; intros s l r; simpl.
  { intros [= <- <-]. split_and!; [done|simpl; lia|intros; lia|apply not_elem_of_nil]. }
  destruct s as [|c s]; [intros [= <- <-]; split_and!; [done|simpl; lia|done|apply not_elem_of_nil]|].
  destruct (Ascii.eqb_spec c "010") as [Hc|Hc].
  { subst c. intros [= <- <-]. split_and!; [done|simpl; lia|done|apply not_elem_of_nil]. }
  destruct (fgets_line n s) as [l' r'] eqn:E. intros [= <- <-].
  destruct (IH _ _ _ E) as (-> & Hlen & _ & Hnl). split_and!; [done|simpl; lia|done|].
  destruct l' as [|c' l']; simpl; [apply not_elem_of_nil|].
  rewrite elem_of_cons. intros [?|?]; [congruence|]. by apply Hnl.
Qed.

Lemma fgets_all_cons fuel c s :
  fgets_all (S fuel) (c :: s) =
    let '(l, r) := fgets_line fgets_n (c :: s) in l :: fgets_all fuel r.
Proof. reflexivity. Qed.

Lemma fgets_all_spec fuel s :
  (length s <= fuel)%nat ->
  concat (fgets_all fuel s) = s /\
  Forall (λ l, l <> [] /\ (length l <= fgets_n)%nat /\ "010"%char ∉ removelast l) (fgets_all fuel s).
Proof.
  revert s. induction fuel as [|fuel IH]; intros s Hs.
  { destruct s; [split; [reflexivity|constructor]|simpl in Hs; lia]. }
  destruct s as [|c s']; [split; [reflexivity|constructor]|]. rewrite fgets_all_cons.
  destruct (fgets_line fgets_n (c :: s')) as [l r] eqn:E.
  destruct (fgets_line_spec _ _ _ _ E) as (Heq & Hlen & Hne & Hnl).
  assert (l <> []) by (apply Hne; [unfold fgets_n, MAX_LINE; lia|done]).
  destruct (IH r) as [IHc IHf].
  { destruct l as [|x l]; [done|]. rewrite Heq in Hs. simpl in Hs. rewrite length_app in Hs. lia. }
  cbn [concat]. rewrite IHc. split; [done|]. by constructor.
Qed.

Lemma strtok_all_ok line : Forall token_ok (strtok_all line).
Proof. apply tokens_acc_ok; [apply c_str_no_NUL|constructor]. Qed.




(** ** The abstract word chain: lemmas *)

Lemma pairs_elem l x y : (x, y) ∈ pairs l -> x ∈ l /\ y ∈ l.
Proof.
  induction l as [|a [|b l] IH]; simpl; [by intros ?%elem_of_nil|by intros ?%elem_of_nil|].
  intros [[= -> ->]|Hin]%elem_of_cons; [rewrite !elem_of_cons; auto|].
  destruct (IH Hin) as [Hx Hy]. split; apply elem_of_cons; by right.
Qed.

Lemma pairs_snoc l t :
  pairs (l ++ [t]) = pairs l ++ match last l with Some x => [(x, t)] | None => [] end.
Proof.
  induction l as [|a [|b l] IH]; [done|done|].
  change ((a :: b :: l) ++ [t]) with (a :: (b :: l) ++ [t]).
  cbn [pairs]. rewrite IH. done.
Qed.

Lemma bigram_count_app L1 L2 a b :
  bigram_count (L1 ++ L2) a b = (bigram_count L1 a b + bigram_count L2 a b)%nat.
Proof. unfold bigram_count. by rewrite map_app, concat_app, filter_app, length_app. Qed.

Lemma bigram_count_line l a b :
  bigram_count [l] a b = length (filter (λ p, p = (a, b)) (pairs l)).
Proof. unfold bigram_count. simpl. by rewrite app_nil_r. Qed.

Lemma bigram_count_snoc L cur t a b :
  bigram_count (L ++ [cur ++ [t]]) a b =
    (bigram_count (L ++ [cur]) a b +
     match last cur with Some x => if bool_decide ((x, t) = (a, b)) then 1 else 0 | None => 0 end)%nat.
Proof.
  rewrite !bigram_count_app, !bigram_count_line, pairs_snoc, filter_app, length_app.
  destruct (last cur) as [x|]; simpl; [|lia].
  rewrite filter_cons, filter_nil. case_decide; case_bool_decide; simpl; try done; lia.
Qed.

Lemma bigram_count_fresh L t b :
  t ∉ concat L -> bigram_count L t b = 0%nat /\ bigram_count L b t = 0%nat.
Proof.
  intros Ht. unfold bigram_count.
  assert (Hp : forall x y, (x, y) ∈ concat (map pairs L) -> x ∈ concat L /\ y ∈ concat L).
  { intros x y Hxy. apply list_elem_of_In, in_concat in Hxy as (l & Hl & Hxy).
    apply in_map_iff in Hl as (l' & <- & Hl').
    apply list_elem_of_In in Hxy. destruct (pairs_elem _ _ _ Hxy) as [Hx Hy].
    split; apply list_elem_of_In, in_concat; exists l';
      (split; [done|by apply list_elem_of_In]). }
  split; apply length_zero_iff_nil, filter_none_nil; intros [x y] Hin [= -> ->];
    destruct (Hp _ _ Hin); done.
Qed.

(** ** Transition frequencies through [freq_to] *)

Lemma freq_to_record_transition fl q j :
  sum_Z (map frequency (filter (λ e, markov_node e = j) (record_transition fl q))) =
  sum_Z (map frequency (filter (λ e, markov_node e = j) fl)) + (if bool_decide (j = q) then 1 else 0).
Proof.
  induction fl as [|e fl IH]; simpl.
  - rewrite filter_cons, filter_nil. case_decide; case_bool_decide; simpl; subst; try done; lia.
  - destruct (Nat.eqb_spec (markov_node e) q) as [<-|Hq]; rewrite !filter_cons; simpl.
    + repeat case_decide; case_bool_decide; simpl; try congruence; lia.
    + repeat case_decide; cbn [map]; rewrite ?sum_Z_cons, IH; lia.
Qed.

Lemma freq_to_link fn q j :
  freq_to (link_node fn q) j = freq_to fn j + (if bool_decide (j = q) then 1 else 0).
Proof. apply freq_to_record_transition. Qed.

Lemma freq_to_out_of_range n len j :
  node_wf len n -> (len <= j)%nat -> freq_to n j = 0.
Proof.
  intros (_ & Hfl & _) Hj. unfold freq_to.
  rewrite filter_none_nil; [done|]. intros e He Hej.
  rewrite Forall_forall in Hfl. destruct (Hfl e He) as [Hlt _]. lia.
Qed.

(** ** The invariant of [fill_database] *)

(** A word without NUL: its own C string. *)
Definition nul_free (s : string) : Prop := c_str s = s.

(** The database of the words [W] read so far, with the transitions of
    the chunks [L]: well-formed, storing the abstract store of [W], the
    words of [L] among [W], and each node's frequency to node [j] the
    number of times its word is followed by [j]'s word in [L]. *)
Definition chain_inv (db : LinkedList (MarkovNode string)) (W : list string)
    (L : list (list string)) : Prop :=
  db_wf db /\ Forall nul_free W /\
  map data (ll_nodes db) = store_insert_all [] W /\
  (forall x, x ∈ concat L -> x ∈ W) /\
  (forall i j n m, ll_nodes db !! i = Some n -> ll_nodes db !! j = Some m ->
     freq_to n j = Z.of_nat (bigram_count L (data n) (data m))).

Lemma same_nul_free a b : nul_free a -> nul_free b -> same a b = true <-> a = b.
Proof.
  intros Ha Hb. rewrite same_spec. simpl. unfold word_comp.
  rewrite strcmp_zero, Ha, Hb. done.
Qed.

Lemma store_insert_all_copies reps xs r :
  r ∈ store_insert_all reps xs -> r ∈ reps \/ exists x, x ∈ xs /\ r = copy_func x.
Proof.
  revert reps. induction xs as [|x xs IH]; intros reps Hr; simpl in *; [auto|].
  destruct (IH _ Hr) as [Hin|(y & Hy & ->)]; [|right; exists y; rewrite elem_of_cons; auto].
  unfold store_insert in Hin. destruct (existsb _ _); [auto|].
  rewrite elem_of_app, list_elem_of_singleton in Hin.
  destruct Hin as [Hin | ->]; [auto|right; exists x; rewrite elem_of_cons; auto].
Qed.

Section chain_inv_lemmas.
Context (db : LinkedList (MarkovNode string)) (W : list string) (L : list (list string)).
Hypothesis Hinv : chain_inv db W L.

Lemma chain_inv_stored i n :
  ll_nodes db !! i = Some n -> data n ∈ W /\ nul_free (data n).
Proof.
  destruct Hinv as (_ & HW & Hmap & _). intros Hi.
  assert (Hd : data n ∈ store_insert_all [] W).
  { rewrite <- Hmap. apply list_elem_of_lookup. exists i. by rewrite list_lookup_fmap, Hi. }
  destruct (store_insert_all_copies [] W _ Hd) as [?%elem_of_nil|(x & Hx & ->)]; [done|].
  rewrite Forall_forall in HW. simpl. unfold word_copy. rewrite (HW x Hx).
  split; [done|apply HW, Hx].
Qed.

Lemma chain_inv_index x :
  x ∈ W -> exists i n, ll_nodes db !! i = Some n /\ data n = x.
Proof.
  destruct Hinv as (_ & HW & Hmap & _). intros Hx.
  destruct (store_insert_all_covers [] W x Hx) as (r & Hr & Hc).
  rewrite <- Hmap in Hr. apply list_elem_of_lookup in Hr as [i Hi].
  rewrite list_lookup_fmap in Hi. destruct (ll_nodes db !! i) as [n|] eqn:Hn; [|done].
  injection Hi as <-. exists i, n. split; [done|].
  apply same_nul_free; [by eapply chain_inv_stored|by rewrite Forall_forall in HW; apply HW|].
  by apply same_spec.
Qed.

Lemma chain_inv_data_inj i j n m :
  ll_nodes db !! i = Some n -> ll_nodes db !! j = Some m -> data n = data m -> i = j.
Proof.
  destruct Hinv as ((_ & Hu & _) & _). intros Hi Hj Hd.
  apply (Hu i j n m Hi Hj). rewrite Hd. apply comp_refl.
Qed.
End chain_inv_lemmas.

Lemma chain_inv_nil_line db W L : chain_inv db W (L ++ [[]]) <-> chain_inv db W L.
Proof.
  unfold chain_inv. rewrite concat_app. simpl. rewrite !app_nil_r.
  setoid_rewrite bigram_count_app. unfold bigram_count at 2. simpl.
  setoid_rewrite Nat.add_0_r. done.
Qed.

Lemma store_insert_all_snoc reps xs x :
  store_insert_all reps (xs ++ [x]) = store_insert (store_insert_all reps xs) x.
Proof. unfold store_insert_all. by rewrite fold_left_app. Qed.

Lemma new_node_word t : nul_free t -> data (new_node t) = t.
Proof. done. Qed.

(** A word is stored exactly when it is among the words read. *)
Lemma chain_inv_mem db W L t :
  chain_inv db W L -> nul_free t ->
  existsb (λ r, same r t) (map data (ll_nodes db)) = true <-> t ∈ W.
Proof.
  intros Hinv Ht. rewrite existsb_exists. split.
  - intros (r & Hr%list_elem_of_In & Hs). apply list_elem_of_lookup in Hr as [i Hi].
    rewrite list_lookup_fmap in Hi. destruct (ll_nodes db !! i) as [n|] eqn:Hn; [|done].
    injection Hi as <-. destruct (chain_inv_stored _ _ _ Hinv i n Hn) as [HW Hnf].
    by apply same_nul_free in Hs as <-.
  - intros HW. destruct (chain_inv_index _ _ _ Hinv t HW) as (j & n & Hj & Hd).
    exists (data n). rewrite Hd. split; [|by apply same_nul_free].
    rewrite <- Hd. apply list_elem_of_In, list_elem_of_lookup. exists j.
    by rewrite list_lookup_fmap, Hj.
Qed.

(** The frequencies after appending the node of a word never read. *)
Lemma chain_freq_snoc db L t :
  db_wf db -> nul_free t -> t ∉ concat L ->
  (forall i j n m, ll_nodes db !! i = Some n -> ll_nodes db !! j = Some m ->
     freq_to n j = Z.of_nat (bigram_count L (data n) (data m))) ->
  forall i j n m, (ll_nodes db ++ [new_node t]) !! i = Some n ->
    (ll_nodes db ++ [new_node t]) !! j = Some m ->
    freq_to n j = Z.of_nat (bigram_count L (data n) (data m)).
Proof.
  intros (_ & _ & Hn) Ht Hfresh Hfreq i j n m Hi Hj.
  destruct (bigram_count_fresh L t (data m)) as [Hb1 _]; [done|].
  destruct (bigram_count_fresh L t (data n)) as [_ Hb2]; [done|].
  apply lookup_app_Some in Hi as [Hi|(Hi & Hin)];
    [|apply list_lookup_singleton_Some in Hin as [_ <-]; by rewrite new_node_word, Hb1].
  apply lookup_app_Some in Hj as [Hj|(Hj & Hjn)]; [by apply (Hfreq i j)|].
  apply list_lookup_singleton_Some in Hjn as [_ <-]. rewrite new_node_word, Hb2 by done.
  rewrite Forall_lookup in Hn. eapply freq_to_out_of_range; [apply (Hn _ _ Hi)|lia].
Qed.

(** One [add_to_database(markov_chain, token)] with plentiful memory
    returns the node holding [token], appended when the word is new. *)
Lemma chain_add (w : World string) W L t :
  chain_inv (w_db w) W L -> w_heap w = [] -> nul_free t ->
  exists nn m db1, add_to_database t w = Ok (Some nn, mkWorld db1 (w_rand w) [] (w_out w)) /\
    ll_nodes db1 !! nn = Some m /\ data m = t /\ chain_inv db1 (W ++ [t]) L /\
    (forall i n, ll_nodes (w_db w) !! i = Some n -> ll_nodes db1 !! i = Some n).
Proof.
  destruct w as [db rs hs out]; simpl. intros Hinv -> Ht.
  pose proof Hinv as (Hwf & HW & Hmap & Hsub & Hfreq).
  assert (HWt : Forall nul_free (W ++ [t])) by (apply Forall_app; auto).
  assert (HLt : forall x, x ∈ concat L -> x ∈ W ++ [t]) by (intros; apply elem_of_app; auto).
  destruct (get_node_from_database db t) as [i|] eqn:Hf.
  - pose proof Hf as Hf'. unfold get_node_from_database in Hf'.
    destruct (find_from_Some _ _ _ _ Hf') as (k & n & -> & Hk & Hs & _). simpl in Hf.
    destruct (chain_inv_stored _ _ _ Hinv k n Hk) as [HWn Hnf].
    apply same_nul_free in Hs as Hd; [|done|done].
    exists k, n, db. split_and!; [exact (add_to_database_found (mkWorld db rs [] out) t k Hf)|done|done| |done].
    split_and!; [done|done| |done|done].
    rewrite store_insert_all_snoc, <- Hmap. unfold store_insert.
    replace (existsb _ _) with true; [done|]. symmetry.
    apply (chain_inv_mem _ _ _ _ Hinv Ht). by rewrite <- Hd.
  - assert (Hex : existsb (λ r, same r t) (map data (ll_nodes db)) = false)
      by by apply get_node_None_existsb.
    assert (Hfresh : t ∉ concat L).
    { intros Hin%Hsub. apply (chain_inv_mem _ _ _ _ Hinv Ht) in Hin. congruence. }
    eexists _, (new_node t), _. split_and!.
    + rewrite add_to_database_fresh_run by (by simpl). reflexivity.
    + simpl. by rewrite lookup_app_r, Nat.sub_diag by lia.
    + by apply new_node_word.
    + simpl. split_and!; [by apply db_wf_snoc|done| |done|by apply chain_freq_snoc].
      cbn [ll_nodes]. rewrite map_app, store_insert_all_snoc, <- Hmap. unfold store_insert.
      by rewrite Hex.
    + intros i n Hi. simpl. by apply lookup_app_l_Some.
Qed.

Lemma lookup_insert_data (ns : list (MarkovNode string)) p x y i n :
  ns !! p = Some y -> data x = data y -> <[p := x]> ns !! i = Some n ->
  exists n0, ns !! i = Some n0 /\ data n = data n0 /\ (i = p -> n = x) /\ (i <> p -> n = n0).
Proof.
  intros Hp Hd Hi. apply list_lookup_insert_Some in Hi as [(<- & <- & _)|(Hip & Hi)].
  - exists y. naive_solver.
  - exists n. naive_solver.
Qed.

Lemma lookup_insert_data_2 (ns : list (MarkovNode string)) p x y i n :
  ns !! p = Some y -> data x = data y -> ns !! i = Some n ->
  exists n', <[p := x]> ns !! i = Some n' /\ data n' = data n.
Proof.
  intros Hp Hd Hi. destruct (decide (i = p)) as [->|Hip].
  - exists x. rewrite list_lookup_insert_eq by (eapply lookup_lt_Some; eauto). by simplify_eq.
  - exists n. by rewrite list_lookup_insert_ne by done.
Qed.

(** [add_node_to_frequency_list(prev->data, new_node->data, chain)] with
    plentiful memory counts one more occurrence of the pair. *)
Lemma chain_link (w : World string) W L cur t p fp nn m :
  chain_inv (w_db w) W (L ++ [cur]) -> w_heap w = [] ->
  ll_nodes (w_db w) !! p = Some fp -> last cur = Some (data fp) ->
  ll_nodes (w_db w) !! nn = Some m -> data m = t -> t ∈ W ->
  exists db2, add_node_to_frequency_list p nn w = Ok (EXIT_SUCCESS, mkWorld db2 (w_rand w) [] (w_out w)) /\
    chain_inv db2 W (L ++ [cur ++ [t]]) /\
    (forall i n, ll_nodes (w_db w) !! i = Some n -> exists n', ll_nodes db2 !! i = Some n' /\ data n' = data n).
Proof.
  destruct w as [db rs hs out]; simpl. intros Hinv -> Hp Hlast Hnn Hm Ht.
  pose proof Hinv as (Hwf & HW & Hmap & Hsub & Hfreq).
  assert (Hnn_lt : (nn < length (ll_nodes db))%nat) by (eapply lookup_lt_Some; eauto).
  destruct (add_node_to_frequency_list_run (mkWorld db rs [] out) p nn fp Hwf Hp Hnn_lt)
    as [k Hrun]; [constructor|].
  assert (Hd : data (link_node fp nn) = data fp) by done.
  eexists. split_and!; [rewrite Hrun; simpl; by rewrite drop_nil| |].
  - split_and!; [by apply db_wf_link|done| | |]; simpl.
    + rewrite list_fmap_insert, Hd, list_insert_id; [done|]. by rewrite list_lookup_fmap, Hp.
    + intros x. rewrite !concat_app, !elem_of_app. simpl. rewrite !app_nil_r, elem_of_app,
        list_elem_of_singleton. intros [Hx|[Hx| ->]]; [| |done]; apply Hsub;
        rewrite concat_app, elem_of_app; simpl; rewrite app_nil_r; auto.
    + intros i j n' m' Hi Hj. rewrite bigram_count_snoc, Hlast.
      destruct (lookup_insert_data _ _ _ _ _ _ Hp Hd Hi) as (n0 & Hi0 & Hdn & Hip & Hinp).
      destruct (lookup_insert_data _ _ _ _ _ _ Hp Hd Hj) as (m0 & Hj0 & Hdm & _ & _).
      rewrite Hdn, Hdm, Nat2Z.inj_add, <- (Hfreq i j n0 m0 Hi0 Hj0).
      destruct (decide (i = p)) as [->|Hne].
      * rewrite Hip, freq_to_link by done. assert (n0 = fp) as -> by congruence.
        assert (Hjnn : j = nn <-> (data fp, t) = (data fp, data m0)).
        { split; [intros ->; assert (m0 = m) as -> by congruence; by rewrite Hm|intros [= Ht']].
          apply (chain_inv_data_inj _ _ _ Hinv j nn m0 m Hj0 Hnn). by rewrite Hm. }
        do 2 case_bool_decide; naive_solver lia.
      * rewrite Hinp by done. case_bool_decide as Hpair; [|lia].
        injection Hpair as Hpd _. destruct Hne.
        by apply (chain_inv_data_inj _ _ _ Hinv i p n0 fp Hi0 Hp).
  - intros i n Hi. by apply (lookup_insert_data_2 _ p _ fp).
Qed.

Lemma chain_inv_singleton_line db W L t :
  chain_inv db W L -> t ∈ W -> chain_inv db W (L ++ [[t]]).
Proof.
  intros (Hwf & HW & Hmap & Hsub & Hfreq) Ht. split_and!; [done|done|done| |].
  - intros x. rewrite concat_app, elem_of_app. simpl. rewrite ?app_nil_r, list_elem_of_singleton.
    intros [Hx| ->]; auto.
  - intros i j n m Hi Hj. rewrite bigram_count_app, bigram_count_line, (Hfreq i j n m Hi Hj).
    cbn [pairs]. rewrite filter_nil. simpl. lia.
Qed.

Lemma concat_snoc_line (L : list (list string)) cur t :
  concat (L ++ [cur ++ [t]]) = concat (L ++ [cur]) ++ [t].
Proof. rewrite !concat_app. simpl. by rewrite ?app_nil_r, app_assoc. Qed.

Lemma concat_nil_line (L : list (list string)) : concat (L ++ [[]]) = concat L.
Proof. rewrite concat_app. simpl. by rewrite ?app_nil_r. Qed.

(** The state of the inner loop of [fill_database]: the chunks [L] read,
    the words [cur] of the current chunk and [prev], the node of the
    last of them. *)
Definition fill_inv (w : World string) (L : list (list string)) (cur : list string)
    (prev : option nat) : Prop :=
  chain_inv (w_db w) (concat (L ++ [cur])) (L ++ [cur]) /\ w_heap w = [] /\
  match prev with
  | None => cur = []
  | Some p => exists fp, ll_nodes (w_db w) !! p = Some fp /\ last cur = Some (data fp)
  end.

(** One word of the inner loop: add it, link the previous word to it. *)
Lemma fill_step w L cur prev t :
  fill_inv w L cur prev -> nul_free t ->
  exists nn w1 w2, add_to_database t w = Ok (Some nn, w1) /\
    (match prev with
     | Some p => _ <- add_node_to_frequency_list p nn ;; ret tt
     | None => ret tt
     end) w1 = Ok (tt, w2) /\
    fill_inv w2 L (cur ++ [t]) (Some nn) /\ w_rand w2 = w_rand w /\ w_out w2 = w_out w.
Proof.
  intros (Hc & Hh & Hprev) Ht.
  destruct (chain_add w _ _ t Hc Hh Ht) as (nn & m & db1 & Hadd & Hnn & Hm & Hc1 & Hpres).
  exists nn, (mkWorld db1 (w_rand w) [] (w_out w)). destruct prev as [p|].
  - destruct Hprev as (fp & Hp & Hlast).
    destruct (chain_link (mkWorld db1 (w_rand w) [] (w_out w)) _ (L) cur t p fp nn m Hc1)
      as (db2 & Hlink & Hc2 & Hpres2); simpl; [done|by apply Hpres|done|done|done|
                                             apply elem_of_app; right; by apply list_elem_of_singleton|].
    exists (mkWorld db2 (w_rand w) [] (w_out w)). split_and!; [done| |split_and!|done|done].
    + by rewrite (bind_Ok _ _ _ _ _ Hlink).
    + simpl. by rewrite concat_snoc_line.
    + done.
    + destruct (Hpres2 nn m Hnn) as (m' & Hm' & Hd). exists m'. simpl.
      rewrite last_snoc, Hd, Hm. done.
  - subst cur. exists (mkWorld db1 (w_rand w) [] (w_out w)). split_and!; [done|done| |done|done].
    split_and!; simpl; [|done|exists m; by rewrite Hm].
    replace (concat (L ++ [[t]])) with (concat (L ++ [[]]) ++ [t])
      by (by rewrite <- concat_snoc_line).
    apply chain_inv_singleton_line;
      [by apply chain_inv_nil_line|apply elem_of_app; right; by apply list_elem_of_singleton].
Qed.

(** Whether [fill_database] stops within [n] more words when
    [words_to_read - words_count = k]. *)
Definition stops_within (k : Z) (n : nat) : bool := (0 <? k) && (k <=? Z.of_nat n).

Lemma stops_within_S k n : k <> 1 -> stops_within k (S n) = stops_within (k - 1) n.
Proof.
  intros Hk. unfold stops_within.
  destruct (Z.ltb_spec 0 k), (Z.leb_spec k (Z.of_nat (S n))), (Z.ltb_spec 0 (k - 1)),
    (Z.leb_spec (k - 1) (Z.of_nat n)); simpl; try done; lia.
Qed.

Lemma take_S_Z {A} (k : Z) (x : A) l : 1 < k -> take (Z.to_nat k) (x :: l) = x :: take (Z.to_nat (k - 1)) l.
Proof. intros Hk. replace (Z.to_nat k) with (S (Z.to_nat (k - 1))) by lia. done. Qed.

Section fill_loops.
Context (words_to_read : Z).

(** The inner loop with plentiful memory: it reads the chunk's words up
    to the [words_to_read]-th word overall. *)
Lemma fill_tokens_run toks prev count w L cur :
  fill_inv w L cur prev -> Forall nul_free toks -> 0 <= count ->
  exists r w', fill_tokens toks prev words_to_read count w = Ok (r, w') /\
    w_rand w' = w_rand w /\ w_out w' = w_out w /\
    if stops_within (words_to_read - count) (length toks)
    then r = Stop EXIT_SUCCESS /\
         exists prev', fill_inv w' L (cur ++ take (Z.to_nat (words_to_read - count)) toks) prev'
    else r = Continue (count + Z.of_nat (length toks)) /\
         exists prev', fill_inv w' L (cur ++ toks) prev'.
Proof.
  revert prev count w cur. induction toks as [|t toks IH]; intros prev count w cur Hinv Hnf Hc.
  { exists (Continue count), w. split_and!; [done|done|done|].
    destruct (stops_within _ _) eqn:Hs.
    - unfold stops_within in Hs. apply andb_true_iff in Hs as [H1%Z.ltb_lt H2%Z.leb_le].
      simpl in H2. lia.
    - rewrite app_nil_r, Z.add_0_r. eauto. }
  apply Forall_cons in Hnf as [Ht Hnf].
  destruct (fill_step w L cur prev t Hinv Ht) as (nn & w1 & w2 & Hadd & Hlink & Hinv2 & Hr2 & Ho2).
  cbn [fill_tokens]. rewrite (bind_Ok _ _ _ _ _ Hadd). cbv beta iota zeta.
  rewrite (bind_Ok _ _ _ _ _ Hlink).
  destruct (Z.eqb_spec (count + 1) words_to_read) as [Heq|Hne].
  - rewrite andb_true_r. replace (negb _) with true
      by (symmetry; apply negb_true_iff, Z.eqb_neq; unfold MAX_WORD_TO_READ; lia).
    exists (Stop EXIT_SUCCESS), w2. split_and!; [done|done|done|].
    replace (stops_within _ _) with true by (unfold stops_within; symmetry;
      apply andb_true_iff; split; [apply Z.ltb_lt|apply Z.leb_le]; simpl; lia).
    split; [done|]. replace (Z.to_nat (words_to_read - count)) with 1%nat by lia.
    simpl. eauto.
  - rewrite andb_false_r.
    destruct (IH (Some nn) (count + 1) w2 (cur ++ [t]) Hinv2 Hnf) as (r & w' & Hrun & Hr & Ho & Hcase);
      [lia|].
    exists r, w'. split_and!; [done|congruence|congruence|].
    cbn [length]. rewrite stops_within_S by lia.
    replace (words_to_read - (count + 1)) with (words_to_read - count - 1) in Hcase by lia.
    destruct (stops_within _ _) eqn:Hs; destruct Hcase as [-> [prev' Hp]]; split; try done.
    + unfold stops_within in Hs. apply andb_true_iff in Hs as [Hs _]. apply Z.ltb_lt in Hs.
      rewrite take_S_Z by lia. rewrite <- app_assoc in Hp. eauto.
    + f_equal. simpl. lia.
    + rewrite <- app_assoc in Hp. eauto.
Qed.
Lemma strtok_nul_free l : Forall nul_free (strtok_all l).
Proof.
  eapply Forall_impl; [apply strtok_all_ok|]. intros t [_ Ht]. apply c_str_id.
  eapply Forall_impl; [exact Ht|]. naive_solver.
Qed.

(** The outer loop with plentiful memory: it reads the chunks' words up
    to the [words_to_read]-th word overall, and returns [EXIT_SUCCESS]. *)
Lemma fill_lines_run ls count w L :
  fill_inv w L [] None -> 0 <= count ->
  exists w', fill_lines ls words_to_read count w = Ok (EXIT_SUCCESS, w') /\
    w_rand w' = w_rand w /\ w_out w' = w_out w /\ w_heap w' = [] /\
    chain_inv (w_db w') (concat (L ++ truncate_lines (words_to_read - count) (map strtok_all ls)))
      (L ++ truncate_lines (words_to_read - count) (map strtok_all ls)).
Proof.
  revert count w L. induction ls as [|l ls IH]; intros count w L Hinv Hc.
  { exists w. destruct Hinv as (Hci & Hh & _). rewrite concat_nil_line in Hci.
    split_and!; [done|done|done|done|]. rewrite app_nil_r. by apply chain_inv_nil_line. }
  destruct (fill_tokens_run (strtok_all l) None count w L [] Hinv (strtok_nul_free l) Hc)
    as (r & w1 & Hrun & Hr & Ho & Hcase).
  cbn [fill_lines]. rewrite (bind_Ok _ _ _ _ _ Hrun). cbn [map truncate_lines].
  change ((0 <? ?k) && (?k <=? Z.of_nat (length ?l))) with (stops_within k (length l)).
  destruct (stops_within _ _) eqn:Hs; destruct Hcase as [-> (prev' & Hc1 & Hh1 & _)].
  - exists w1. split_and!; try done.
  - destruct (IH (count + Z.of_nat (length (strtok_all l))) w1 (L ++ [strtok_all l]))
      as (w' & Hrun' & Hr' & Ho' & Hh' & Hc');
      [split_and!; [|done|done]; rewrite concat_nil_line;
       apply chain_inv_nil_line; exact Hc1|lia|].
    exists w'. split_and!; [done|congruence|congruence|done|].
    rewrite Z.sub_add_distr, <- app_assoc in Hc'. exact Hc'.
Qed.
End fill_loops.

Lemma chain_inv_empty : chain_inv empty_list (concat [[]]) [[]].
Proof.
  split_and!; simpl; [split_and!; [done|intros ? ? ? ?; done|constructor]|constructor|done|done|].
  intros i j n m Hi. by rewrite lookup_nil in Hi.
Qed.

(** The chain [fill_database] builds with plentiful memory satisfies
    [chain_inv] for the words it reads. *)
Lemma fill_database_chain file words_to_read rs out :
  exists db, fill_database file words_to_read (mkWorld empty_list rs [] out) =
               Ok (EXIT_SUCCESS, mkWorld db rs [] out) /\
    chain_inv db (concat (words_read file words_to_read)) (words_read file words_to_read).
Proof.
  destruct (fill_lines_run words_to_read (read_lines file) 0 (mkWorld empty_list rs [] out) [])
    as (w' & Hrun & Hr & Ho & Hh & Hinv);
    [split_and!; [exact chain_inv_empty|done|done]|lia|].
  destruct w' as [db rs' hs' out']; simpl in *; subst.
  rewrite Z.sub_0_r in Hinv. by exists db.
Qed.

(** A word read comes from a chunk of the file. *)
Lemma truncate_lines_incl k L x : x ∈ concat (truncate_lines k L) -> x ∈ concat L.
Proof.
  revert k. induction L as [|l L IH]; intros k; simpl; [done|].
  rewrite elem_of_app. destruct (_ && _); simpl.
  - rewrite app_nil_r. intros Hx. left.
    apply elem_of_take in Hx as (i & Hi & _). by eapply list_elem_of_lookup_2.
  - rewrite elem_of_app. intros [Hx|Hx]; [auto|right; eapply IH, Hx].
Qed.

Lemma c_str_length s : (String.length (c_str s) <= String.length s)%nat.
Proof.
  induction s as [|c s IH]; simpl; [done|]. destruct (Ascii.eqb c NUL); simpl; lia.
Qed.

Lemma tokens_acc_length s cur :
  Forall (λ t, String.length t <= length s + length cur)%nat (tokens_acc s cur).
Proof.
  assert (Hlen : forall l, String.length (string_of_list_ascii (rev l)) = length l).
  { intros l. by rewrite <- length_list_ascii_of_string, list_ascii_of_string_of_list_ascii, length_rev. }
  revert cur. induction s as [|c s IH]; intros cur; simpl.
  - destruct cur; [constructor|]. apply Forall_singleton. rewrite Hlen. simpl. lia.
  - destruct (is_delim c); [destruct cur as [|c' cur]|].
    + eapply Forall_impl; [apply (IH [])|]. simpl. lia.
    + constructor; [rewrite Hlen; simpl; lia|].
      eapply Forall_impl; [apply (IH [])|]. simpl. lia.
    + eapply Forall_impl; [apply (IH (c :: cur))|]. simpl. lia.
Qed.

(** A word of a chunk is no longer than the chunk. *)
Lemma strtok_all_length line :
  Forall (λ t, String.length t <= String.length line)%nat (strtok_all line).
Proof.
  eapply Forall_impl; [apply tokens_acc_length|]. intros t. simpl.
  rewrite length_list_ascii_of_string. pose proof (c_str_length line). lia.
Qed.

(** [fgets] reads the file in non-empty chunks of at most [MAX_LINE - 1]
    characters, with a newline at most at the end. *)
Lemma read_lines_spec file :
  concat (map list_ascii_of_string (read_lines file)) = list_ascii_of_string file /\
  Forall (λ l, l <> EmptyString /\ (String.length l <= Z.to_nat (MAX_LINE - 1))%nat /\
               "010"%char ∉ removelast (list_ascii_of_string l)) (read_lines file).
Proof.
  unfold read_lines. rewrite <- length_list_ascii_of_string.
  destruct (fgets_all_spec (length (list_ascii_of_string file)) (list_ascii_of_string file))
    as [Hc Hf]; [done|].
  rewrite map_map. split.
  - erewrite map_ext; [rewrite map_id; exact Hc|].
    intros l. apply list_ascii_of_string_of_list_ascii.
  - apply Forall_map. eapply Forall_impl; [exact Hf|]. intros l (Hne & Hlen & Hnl).
    rewrite <- length_list_ascii_of_string, list_ascii_of_string_of_list_ascii.
    split_and!; [|done|done]. intros He. apply Hne.
    apply (f_equal list_ascii_of_string) in He. by rewrite list_ascii_of_string_of_list_ascii in He.
Qed.

(** ** The front end's behaviour *)

(** C25. Refinement: with plentiful memory, [fill_database] on a fresh
    chain returns [EXIT_SUCCESS] without touching [rand()] or the output.
    The database is well-formed, and it refines the abstract word chain
    of [words_read] (the chunks' words, cut after [words_to_read] words
    when that is positive).  The stored words are the distinct words read,
    in order of first occurrence.  The frequency from [a]'s node to [b]'s
    node is the number of times [b] follows [a] within a chunk. *)
Theorem fill_database_refines file words_to_read rs out :
  exists db, fill_database file words_to_read (mkWorld empty_list rs [] out) =
               Ok (EXIT_SUCCESS, mkWorld db rs [] out) /\
    db_wf db /\
    map data (ll_nodes db) = store_insert_all [] (concat (words_read file words_to_read)) /\
    forall i j n m, ll_nodes db !! i = Some n -> ll_nodes db !! j = Some m ->
      freq_to n j = Z.of_nat (bigram_count (words_read file words_to_read) (data n) (data m)).
Proof.
  destruct (fill_database_chain file words_to_read rs out)
    as (db & Hrun & Hwf & _ & Hmap & _ & Hfreq).
  exists db. split_and!; done.
Qed.

(** C26. Type of the stored words: with plentiful memory, every state
    [fill_database] stores is a word [strtok] can return (non-empty,
    without delimiter or NUL).  It is no longer than the [fgets] buffer
    holds: at most [MAX_LINE - 1] characters. *)
Theorem fill_database_words_typed file words_to_read rs out :
  exists db, fill_database file words_to_read (mkWorld empty_list rs [] out) =
               Ok (EXIT_SUCCESS, mkWorld db rs [] out) /\
    Forall (λ n, token_ok (data n) /\ (String.length (data n) <= Z.to_nat (MAX_LINE - 1))%nat)
      (ll_nodes db).
Proof.
  destruct (fill_database_chain file words_to_read rs out) as (db & Hrun & Hinv).
  exists db. split; [done|]. apply Forall_lookup. intros i n Hi.
  destruct (chain_inv_stored _ _ _ Hinv i n Hi) as [Hx _].
  apply truncate_lines_incl, elem_of_concat_map in Hx as (line & Hline & Hx).
  split; [by eapply Forall_forall; [apply strtok_all_ok|]|].
  pose proof (proj1 (Forall_forall _ _) (strtok_all_length line) _ Hx).
  destruct (read_lines_spec file) as [_ Hls]. rewrite Forall_forall in Hls.
  destruct (Hls line Hline) as (_ & ? & _). cbv beta in *. lia.
Qed.




(** C28. Round trip of the [fgets] loop: the chunks it reads concatenate
    to the whole file.  Each chunk is non-empty, has at most [MAX_LINE - 1]
    characters, and holds a newline only as its last character. *)
Theorem read_lines_roundtrip file :
  concat (map list_ascii_of_string (read_lines file)) = list_ascii_of_string file /\
  Forall (λ l, l <> EmptyString /\ (String.length l <= Z.to_nat (MAX_LINE - 1))%nat /\
               "010"%char ∉ removelast (list_ascii_of_string l)) (read_lines file).
Proof. apply read_lines_spec. Qed.

(** [comp_func] of the tweets front end ([strcmp]) returns 0
    exactly on equal C strings, and [copy_func] gives an equal word. *)
Theorem word_comp_spec a b :
  (word_comp a b = 0 <-> c_str a = c_str b) /\ word_comp (word_copy a) a = 0.
Proof.
  unfold word_comp, word_copy. rewrite !strcmp_zero. split; [done|]. apply c_str_idem.
Qed.

(** ** The word-chain scenario (spec section 8) *)

Definition newline : string := String "010" EmptyString.

(** The two-line input "the cat sat." / "the dog ran.". *)
Definition word_chain_text : string :=
  ("the cat sat." ++ newline ++ "the dog ran." ++ newline)%string.

Definition word_chain_db : LinkedList (MarkovNode string) :=
  match fill_database word_chain_text MAX_WORD_TO_READ (mkWorld empty_list [] [] []) with
  | Ok (_, w) => w_db w
  | Crash _ => empty_list
  end.

(** The targets of a node's table as words, with their frequencies. *)
Definition table_words (db : LinkedList (MarkovNode string)) (n : MarkovNode string)
  : list (option string * Z) :=
  map (λ e, (data <$> ll_nodes db !! markov_node e, frequency e)) (frequency_list n).

(** A walk may start at [k]: a non-terminal state all of whose walks
    end within [d] states. *)
Definition good_start (db : LinkedList (MarkovNode string)) (d k : nat) : bool :=
  match ll_nodes db !! k with
  | Some n => negb (is_last (data n)) && terminates_within db d k
  | None => false
  end.

Lemma word_chain_db_run rs out :
  fill_database word_chain_text MAX_WORD_TO_READ (mkWorld empty_list rs [] out) =
    Ok (EXIT_SUCCESS, mkWorld word_chain_db rs [] out).
Proof. vm_compute. reflexivity. Qed.

Lemma good_start_spec db d k :
  good_start db d k = true ->
  exists n, ll_nodes db !! k = Some n /\ is_last (data n) = false /\ terminates_within db d k = true.
Proof.
  unfold good_start. destruct (ll_nodes db !! k) as [n|]; [|done].
  intros [Hl Ht]%andb_true_iff. apply negb_true_iff in Hl. eauto.
Qed.

Lemma word_chain_db_starts r :
  0 <= r -> Z.rem r 5 <> 2 -> Z.rem r 5 <> 4 -> good_start word_chain_db 2 (Z.to_nat (Z.rem r 5)) = true.
Proof.
  intros Hr H2 H4. pose proof (rem_range r 5 Hr ltac:(lia)) as Hrange.
  assert (Hc : Z.rem r 5 = 0 \/ Z.rem r 5 = 1 \/ Z.rem r 5 = 3) by lia.
  destruct Hc as [-> | [-> | ->]]; vm_compute; reflexivity.
Qed.

(** The word-chain scenario: [fill_database] on "the cat sat." /
    "the dog ran." stores the five words once each.  "the" has
    transitions to "cat" and to "dog", each of frequency 1, and the two
    words ending with '.' are the terminal states and have empty tables. *)
Example word_chain_scenario rs out :
  exists db, fill_database word_chain_text MAX_WORD_TO_READ (mkWorld empty_list rs [] out) =
               Ok (EXIT_SUCCESS, mkWorld db rs [] out) /\
    map data (ll_nodes db) = ["the"; "cat"; "sat."; "dog"; "ran."] /\
    map (table_words db) (ll_nodes db) =
      [[(Some "cat", 1); (Some "dog", 1)]; [(Some "sat.", 1)]; []; [(Some "ran.", 1)]; []] /\
    map (λ n, word_is_last (data n)) (ll_nodes db) = [false; false; true; false; true].
Proof.
  exists word_chain_db. split; [apply word_chain_db_run|]. vm_compute. split_and!; reflexivity.
Qed.

Lemma word_chain_db_wf : db_wf word_chain_db.
Proof. apply db_wfb_sound. vm_compute. reflexivity. Qed.

Lemma word_chain_db_walkable : walkable word_chain_db.
Proof. apply walkableb_sound. vm_compute. reflexivity. Qed.

(** C29. A tweet on the word-chain input ends with a word ending in '.'
    (spec section 8).  When the first [rand()] value picks a non-terminal
    start ("the", "cat" or "dog") and two more non-negative values follow,
    [generate_random_sequence(chain, NULL, MAX_TWEET)] returns, and the
    last thing it prints is a terminal word, with no delimiter after it. *)
Theorem word_chain_tweet_ends r rs out :
  0 <= r -> Z.rem r 5 <> 2 -> Z.rem r 5 <> 4 ->
  Forall (λ x, 0 <= x) rs -> (2 <= length rs)%nat ->
  exists w' pre c,
    (fill_database word_chain_text MAX_WORD_TO_READ ;; generate_random_sequence None MAX_TWEET)
      (mkWorld empty_list (r :: rs) [] out) = Ok (tt, w') /\
    w_out w' = (out ++ pre ++ [OData c])%list /\ word_is_last c = true.
Proof.
  intros Hr H2 H4 Hnn Hlen. unfold bind at 1. rewrite word_chain_db_run. cbv beta iota.
  destruct (good_start_spec _ _ _ (word_chain_db_starts r Hr H2 H4)) as (n & Hn & Hl & Ht).
  assert (Hsz : ll_size word_chain_db = 5) by (vm_compute; reflexivity).
  rewrite (generate_random_sequence_random_start _ (Z.to_nat (Z.rem r 5)) (mkWorld word_chain_db rs [] out)).
  2: { rewrite (get_first_random_node_first _ r rs n); simpl; rewrite ?Hsz; done. }
  destruct (generate_random_sequence_ends (mkWorld word_chain_db rs [] out) (Z.to_nat (Z.rem r 5)) n MAX_TWEET 2)
    as (w' & pre & c & Hrun & Hout & Hc);
    [exact word_chain_db_wf|exact word_chain_db_walkable|done|done|done|vm_compute; lia|done|done|].
  by exists w', pre, c.
Qed.

(** [fgets] reads at most [MAX_LINE - 1] characters: a line whose
    first word has 1000 characters is read as two chunks.  The word is
    stored as two words (of 999 and 1 characters), and no transition
    links them. *)
Example fill_database_long_word rs out :
  exists db,
    fill_database (string_of_list_ascii (repeat "a"%char 1000) ++ newline)%string MAX_WORD_TO_READ
      (mkWorld empty_list rs [] out) = Ok (EXIT_SUCCESS, mkWorld db rs [] out) /\
    map data (ll_nodes db) = [string_of_list_ascii (repeat "a"%char 999); "a"] /\
    map frequency_list (ll_nodes db) = [[]; []].
Proof. eexists. split; [vm_compute; reflexivity|]. vm_compute. split; reflexivity. Qed.

(** [fill_database] ignores the result of
    [add_node_to_frequency_list].  When the allocation of the entry
    "the" -> "cat" fails, it prints the allocation message and still
    returns [EXIT_SUCCESS].  The transition "the" -> "cat" is then
    missing from the chain. *)
Example fill_database_link_failure rs out :
  exists db,
    fill_database word_chain_text MAX_WORD_TO_READ
      (mkWorld empty_list rs (repeat true 6 ++ [false])%list out) =
      Ok (EXIT_SUCCESS, mkWorld db rs [] (out ++ [OAllocMsg])%list) /\
    map (table_words db) (ll_nodes db) =
      [[(Some "dog", 1)]; [(Some "sat.", 1)]; []; [(Some "ran.", 1)]; []].
Proof. eexists. split; [vm_compute; reflexivity|]. vm_compute. reflexivity. Qed.

(** When the first allocation of [add_to_database] fails, [main]
    returns [EXIT_FAILURE] after printing the allocation message three
    times: in [add_to_database], in [fill_database] and in [main]. *)
Example tweets_main_alloc_failure rs num_of_tweets db0 :
  tweets_main word_chain_text MAX_WORD_TO_READ num_of_tweets (mkWorld db0 rs [true; true; false] []) =
    Ok (EXIT_FAILURE, mkWorld empty_list rs [] [OAllocMsg; OAllocMsg; OAllocMsg]).
Proof. vm_compute. reflexivity. Qed.

(** ** Witnesses *)

Lemma word_chain_tweet_ends_witness :
  exists w' pre c,
    (fill_database word_chain_text MAX_WORD_TO_READ ;; generate_random_sequence None MAX_TWEET)
      (mkWorld empty_list [0; 0; 0] [] []) = Ok (tt, w') /\
    w_out w' = ([] ++ pre ++ [OData c])%list /\ word_is_last c = true.
Proof. apply word_chain_tweet_ends; [lia|vm_compute; congruence|vm_compute; congruence|repeat constructor; lia|simpl; lia]. Defined.

