(* ===== verification/EntryPoints.v ===== *)
(** * The entry points: [main] of both programs, argument handling included

    Both [main]s check [argc], parse their numeric arguments with
    [strtol] or [sscanf] (modelled in [CLib]), seed [rand()] with
    [srand], and then run the part modelled by [snakes_main] and
    [tweets_main].  [argv] is a list of strings, [argv[0]] included, so
    [argc] is its length.

    Two things of the environment are section variables:
    - [srand_stream seed] is the sequence of [rand()] results after
      [srand(seed)]; glibc's generator itself is not modelled;
    - [fopen_read path] is the contents of the file at [path], or [None]
      when [fopen] fails. *)

From Stdlib Require Import String.
From stdpp Require Import pretty.
From S2P Require Import Prelude CLib LinkedList MarkovChain Teardown RandomWalk SnakesAndLadders TweetsGenerator.

(** [#define NUM_ARGS_ERROR] of both programs. *)
Definition NUM_ARGS_ERROR : string := "Usage: invalid number of arguments".
(** [#define FILE_PATH_ERROR] of [tweets_generator.c]. *)
Definition FILE_PATH_ERROR : string := "Error: incorrect file path".
(** [#define ARGS] of [snakes_and_ladders.c]. *)
Definition ARGS : nat := 3.
(** [#define MIN_ARGC] and [MAX_ARGC] of [tweets_generator.c]. *)
Definition MIN_ARGC : nat := 4.
Definition MAX_ARGC : nat := 5.

Section entry.
Variable srand_stream : Z -> list Z.

(** [srand(seed)]: the seed is converted to [unsigned int]. *)
Definition c_srand {D} (seed : Z) : ST (World D) unit :=
  modify (λ w, mkWorld (w_db w) (srand_stream (to_uint seed)) (w_heap w) (w_out w)).

(** [argv[i]]. *)
Definition arg {S} (argv : list string) (i : nat) : ST S string :=
  deref OutOfBounds (argv !! i).

(** [int main(int argc, char *argv[])] of [snakes_and_ladders.c]. *)
Definition snakes_program (argv : list string) : ST (World Cell) Z :=
  if negb (length argv =? ARGS)%nat then emit (OText NUM_ARGS_ERROR) ;; ret EXIT_FAILURE else
  a1 <- arg argv 1 ;;
  let seed := to_int (strtol a1) in
  c_srand seed ;;
  a2 <- arg argv 2 ;;
  snakes_main (sscanf_d a2).

Variable fopen_read : string -> option string.

(** [int words_to_read = MAX_WORD_TO_READ;] and, with five arguments,
    [sscanf(argv[4], "%d", &words_to_read)]. *)
Definition words_to_read_arg {S} (argv : list string) : ST S Z :=
  if (length argv =? MAX_ARGC)%nat then
    a4 <- arg argv 4 ;; ret (default MAX_WORD_TO_READ (sscanf_d a4))
  else ret MAX_WORD_TO_READ.

(** [int main(int argc, char *argv[])] of [tweets_generator.c].  When
    [fopen] fails, [fclose(NULL)] dereferences [NULL]. *)
Definition tweets_program (argv : list string) : ST (World string) Z :=
  let argc := length argv in
  if negb ((argc =? MAX_ARGC) || (argc =? MIN_ARGC))%nat then
    emit (OText NUM_ARGS_ERROR) ;; ret EXIT_FAILURE else
  path <- arg argv 3 ;;
  match fopen_read path with
  | None => emit (OText FILE_PATH_ERROR) ;; fail NullDeref
  | Some file =>
      a1 <- arg argv 1 ;;
      seed <- read_var (sscanf_d a1) ;;
      c_srand seed ;;
      a2 <- arg argv 2 ;;
      let num_of_tweets := sscanf_d a2 in
      words_to_read <- words_to_read_arg argv ;;
      tweets_main file words_to_read num_of_tweets
  end.
End entry.

Section entry_theorems.
Variable srand_stream : Z -> list Z.
Variable fopen_read : string -> option string.

Lemma snakes_program_run a0 a1 a2 (w : World Cell) :
  snakes_program srand_stream [a0; a1; a2] w =
    snakes_main (sscanf_d a2)
      (mkWorld (w_db w) (srand_stream (to_uint (to_int (strtol a1)))) (w_heap w) (w_out w)).
Proof. reflexivity. Qed.

Lemma snakes_main_no_walks_num a2 (w : World Cell) :
  scan_decimal a2 = None -> w_heap w = [] ->
  snakes_main (sscanf_d a2) w = Crash Uninitialized.
Proof.
  intros Hn. destruct w as [db rs hs out]. simpl. intros ->.
  unfold snakes_main. cbn -[fill_database_snakes].
  change (mkWorld empty_list rs [] out) with (snakes_world rs out).
  rewrite (bind_Ok _ _ _ _ _ (built_db_run rs out)).
  unfold sscanf_d, read_var. rewrite Hn. reflexivity.
Qed.

Lemma tweets_program_run a0 a1 a2 a3 rest file (w : World string) :
  (length rest <= 1)%nat -> fopen_read a3 = Some file ->
  tweets_program srand_stream fopen_read (a0 :: a1 :: a2 :: a3 :: rest) w =
    (seed <- read_var (sscanf_d a1) ;;
     c_srand srand_stream seed ;;
     words_to_read <- words_to_read_arg (a0 :: a1 :: a2 :: a3 :: rest) ;;
     tweets_main file words_to_read (sscanf_d a2)) w.
Proof.
  intros Hrest Hf. unfold tweets_program.
  replace (negb _) with false by (destruct rest as [|? [|]]; simpl in *; done || lia).
  unfold bind at 1. simpl. by rewrite Hf.
Qed.

(** C30. Refinement of [main] by its body: given the decimal text of
    [int]s, the snakes program seeds [rand()] with the first and runs
    [snakes_main] with the walk count.  The tweets program does the same
    on a file that opens.  It reads all words with four arguments and at
    most [k] words when the fifth is the text of [k]. *)
Theorem programs_read_arguments a0 seed n k path file (ws : World Cell) (wt : World string) :
  INT_MIN <= seed <= INT_MAX -> INT_MIN <= n <= INT_MAX -> INT_MIN <= k <= INT_MAX ->
  fopen_read path = Some file ->
  snakes_program srand_stream [a0; pretty seed; pretty n] ws =
    snakes_main (Some n) (mkWorld (w_db ws) (srand_stream (to_uint seed)) (w_heap ws) (w_out ws)) /\
  tweets_program srand_stream fopen_read [a0; pretty seed; pretty n; path] wt =
    tweets_main file MAX_WORD_TO_READ (Some n)
      (mkWorld (w_db wt) (srand_stream (to_uint seed)) (w_heap wt) (w_out wt)) /\
  tweets_program srand_stream fopen_read [a0; pretty seed; pretty n; path; pretty k] wt =
    tweets_main file k (Some n)
      (mkWorld (w_db wt) (srand_stream (to_uint seed)) (w_heap wt) (w_out wt)).
Proof.
  intros Hs Hn Hk Hf.
  destruct (sscanf_strtol_pretty_int seed Hs) as [Hs1 Hs2].
  destruct (sscanf_strtol_pretty_int n Hn) as [_ Hn2].
  destruct (sscanf_strtol_pretty_int k Hk) as [_ Hk2].
  rewrite snakes_program_run, !(tweets_program_run _ _ _ _ _ file) by (simpl; lia || done).
  rewrite Hs1, to_int_id, Hs2, Hn2 by done.
  split_and!; [done|done|].
  unfold bind, read_var, deref, c_srand, modify, words_to_read_arg, arg, ret. simpl.
  by rewrite Hk2.
Qed.

Lemma tweets_program_fopen_fail argv path (wt : World string) :
  (length argv = MIN_ARGC \/ length argv = MAX_ARGC) -> argv !! 3%nat = Some path ->
  fopen_read path = None -> tweets_program srand_stream fopen_read argv wt = Crash NullDeref.
Proof.
  intros Hlen Hp Hf. unfold tweets_program. cbv zeta.
  replace (negb _) with false by (destruct Hlen as [-> | ->]; reflexivity).
  unfold bind at 1, arg. rewrite Hp. simpl. by rewrite Hf.
Qed.

(** C24. Liveness of the whole snakes program.  Take [int] arguments,
    every allocation succeeding, and a generator that gives at least [59]
    non-negative values per walk.  Then [main] builds the board, runs the
    [n] walks, frees the chain and returns [EXIT_SUCCESS]. *)
Theorem snakes_program_completes a0 seed n (w : World Cell) :
  INT_MIN <= seed <= INT_MAX -> INT_MIN <= n <= INT_MAX -> w_heap w = [] ->
  Forall (λ r, 0 <= r) (srand_stream (to_uint seed)) ->
  (59 * Z.to_nat n <= length (srand_stream (to_uint seed)))%nat ->
  exists w', snakes_program srand_stream [a0; pretty seed; pretty n] w = Ok (EXIT_SUCCESS, w').
Proof.
  intros Hs Hn Hh Hnn Hlen.
  destruct (sscanf_strtol_pretty_int seed Hs) as [Hs1 _].
  destruct (sscanf_strtol_pretty_int n Hn) as [_ Hn2].
  rewrite snakes_program_run, Hs1, to_int_id, Hn2 by done.
  destruct w as [db rs hs out]; cbn in Hh; subst hs.
  destruct (snakes_main_run n db _ out Hnn Hlen) as (w' & Hrun & _). by exists w'.
Qed.

(** C31. Error paths of the argument checks.  With a wrong argument
    count each program prints its usage message and returns
    [EXIT_FAILURE], changing nothing else.  When the tweets file does not
    open, the program prints [FILE_PATH_ERROR] and then calls
    [fclose(NULL)], which dereferences [NULL]. *)
Theorem programs_argument_errors argv path (ws : World Cell) (wt : World string) :
  (length argv <> ARGS ->
     snakes_program srand_stream argv ws =
       Ok (EXIT_FAILURE, mkWorld (w_db ws) (w_rand ws) (w_heap ws) (w_out ws ++ [OText NUM_ARGS_ERROR]))) /\
  (length argv <> MIN_ARGC -> length argv <> MAX_ARGC ->
     tweets_program srand_stream fopen_read argv wt =
       Ok (EXIT_FAILURE, mkWorld (w_db wt) (w_rand wt) (w_heap wt) (w_out wt ++ [OText NUM_ARGS_ERROR]))) /\
  ((length argv = MIN_ARGC \/ length argv = MAX_ARGC) -> argv !! 3%nat = Some path ->
     fopen_read path = None -> tweets_program srand_stream fopen_read argv wt = Crash NullDeref).
Proof.
  unfold snakes_program, tweets_program. cbv zeta. split_and!.
  - intros H%Nat.eqb_neq. by rewrite H.
  - intros H4%Nat.eqb_neq H5%Nat.eqb_neq. by rewrite H4, H5.
  - apply tweets_program_fopen_fail.
Qed.

(** C32. Error: an argument without digits leaves the variable that
    [sscanf] should set uninitialised, and [main] reads it.  The snakes
    program builds the whole board and then reads [walks_num] in its loop
    condition.  The tweets program passes [seed] to [srand]. *)
Theorem programs_uninitialized a0 a1 a2 a3 file (ws : World Cell) (wt : World string) :
  (scan_decimal a2 = None -> w_heap ws = [] ->
     snakes_program srand_stream [a0; a1; a2] ws = Crash Uninitialized) /\
  (scan_decimal a1 = None -> fopen_read a3 = Some file ->
     tweets_program srand_stream fopen_read [a0; a1; a2; a3] wt = Crash Uninitialized).
Proof.
  split.
  - intros Hn Hh. rewrite snakes_program_run. by apply snakes_main_no_walks_num.
  - intros Hn Hf. rewrite (tweets_program_run _ _ _ _ _ file) by (simpl; lia || done).
    unfold bind at 1, read_var, sscanf_d. by rewrite Hn.
Qed.

Lemma words_to_read_arg_none {S} a0 a1 a2 a3 a4 :
  scan_decimal a4 = None ->
  @words_to_read_arg S [a0; a1; a2; a3; a4] = ret MAX_WORD_TO_READ.
Proof.
  intros Hn. unfold words_to_read_arg, arg, deref, bind, ret, sscanf_d. simpl.
  by rewrite Hn.
Qed.

(** C33. A fifth argument without digits is ignored: [words_to_read]
    keeps [MAX_WORD_TO_READ], and the tweets program runs as with four
    arguments, reading the whole file. *)
Theorem tweets_program_words_default a0 a1 a2 a3 a4 (wt : World string) :
  scan_decimal a4 = None ->
  tweets_program srand_stream fopen_read [a0; a1; a2; a3; a4] wt =
    tweets_program srand_stream fopen_read [a0; a1; a2; a3] wt.
Proof.
  intros Hn. destruct (fopen_read a3) as [file|] eqn:Hf.
  - rewrite !(tweets_program_run _ _ _ _ _ file) by (simpl; lia || done).
    by rewrite words_to_read_arg_none by done.
  - by rewrite !(tweets_program_fopen_fail _ a3) by (simpl; auto).
Qed.
End entry_theorems.

(** ** Witnesses *)

(** A generator that gives no values, and a file system with one file. *)
Definition no_rand (_ : Z) : list Z := [].
Definition one_file (path : string) : option string :=
  if String.eqb path "chain.txt" then Some word_chain_text else None.

Lemma programs_read_arguments_witness :
  snakes_program no_rand ["snakes"; pretty 7; pretty 2] (snakes_world [] []) =
    snakes_main (Some 2) (mkWorld empty_list (no_rand (to_uint 7)) [] []) /\
  tweets_program no_rand one_file ["tweets"; pretty 7; pretty 2; "chain.txt"] (mkWorld empty_list [] [] []) =
    tweets_main word_chain_text MAX_WORD_TO_READ (Some 2) (mkWorld empty_list (no_rand (to_uint 7)) [] []) /\
  tweets_program no_rand one_file ["tweets"; pretty 7; pretty 2; "chain.txt"; pretty 3]
      (mkWorld empty_list [] [] []) =
    tweets_main word_chain_text 3 (Some 2) (mkWorld empty_list (no_rand (to_uint 7)) [] []).
Proof.
  apply (programs_read_arguments no_rand one_file "snakes" 7 2 3 "chain.txt" word_chain_text
           (snakes_world [] []) (mkWorld empty_list [] [] []));
    unfold INT_MIN, INT_MAX; lia || reflexivity.
Defined.

(** A generator giving [0] for [118] calls, enough for two walks. *)
Definition zero_rand (_ : Z) : list Z := repeat 0 118.

Lemma snakes_program_completes_witness :
  exists w', snakes_program zero_rand ["snakes"; pretty 7; pretty 2] (snakes_world [] []) =
    Ok (EXIT_SUCCESS, w').
Proof.
  apply (snakes_program_completes zero_rand "snakes" 7 2 (snakes_world [] []));
    [unfold INT_MIN, INT_MAX; lia|unfold INT_MIN, INT_MAX; lia|reflexivity| |reflexivity].
  apply Forall_forall. intros r Hr%list_elem_of_In%repeat_spec. lia.
Defined.

Lemma programs_argument_errors_witness :
  snakes_program no_rand ["snakes"] (snakes_world [] []) =
    Ok (EXIT_FAILURE, mkWorld empty_list [] [] ([] ++ [OText NUM_ARGS_ERROR])) /\
  tweets_program no_rand one_file ["tweets"; "1"; "2"; "missing.txt"] (mkWorld empty_list [] [] []) =
    Crash NullDeref.
Proof.
  split.
  - apply (programs_argument_errors no_rand one_file ["snakes"] "" (snakes_world [] [])
             (mkWorld empty_list [] [] [])). discriminate.
  - apply (programs_argument_errors no_rand one_file _ "missing.txt" (snakes_world [] []));
      [left|..]; reflexivity.
Defined.

Lemma programs_uninitialized_witness :
  snakes_program no_rand ["snakes"; "7"; "many"] (snakes_world [] []) = Crash Uninitialized /\
  tweets_program no_rand one_file ["tweets"; "seed"; "2"; "chain.txt"] (mkWorld empty_list [] [] []) =
    Crash Uninitialized.
Proof.
  split.
  - apply (programs_uninitialized no_rand one_file "snakes" "7" "many" "" ""
             (snakes_world [] []) (mkWorld empty_list [] [] [])); reflexivity.
  - apply (programs_uninitialized no_rand one_file "tweets" "seed" "2" "chain.txt" word_chain_text
             (snakes_world [] []) (mkWorld empty_list [] [] [])); reflexivity.
Defined.

Lemma tweets_program_words_default_witness :
  tweets_program no_rand one_file ["tweets"; "7"; "2"; "chain.txt"; "all"] (mkWorld empty_list [] [] []) =
    tweets_program no_rand one_file ["tweets"; "7"; "2"; "chain.txt"] (mkWorld empty_list [] [] []).
Proof. apply tweets_program_words_default. reflexivity. Defined.
